(** * Task engine of the Study Hall HR console: task store, dependency graph
      and recurrence scheduler of [src/src/taskManager.js] (class TaskManager).

    The JavaScript class keeps its task records in the array [this.tasks],
    its recurring schedules and notifications in local storage, and signals
    failures by throwing.  The embedding below keeps that shape:

    - the store is a record [TM] holding the task array, the stored schedules
      and the stored notifications;
    - every method is a computation in the monad [M], which threads the store
      and may throw; a throw keeps the mutations made before it, exactly as a
      JavaScript exception leaves the objects it has already modified;
    - task objects are mutated in place in the source ([getTask] returns a
      reference); here the first record carrying the id is rewritten in the
      array, which is the object [Array.prototype.find] returns;
    - timestamps are integers (milliseconds since the epoch, as [Date]
      stores them); every [new Date()] of one call reads the same [now];
      calendar arithmetic is done in UTC; a [Date] that a setter or the
      constructor takes outside the range of time values is an Invalid
      Date, on which comparisons are false and [toISOString] throws; the
      dates held in the store are time values (a date string that does not
      parse is not represented);
    - writes to local storage are taken to succeed, so [saveTasks] always
      reaches its status sweep.

    Purely descriptive task fields (title, description, tags, attachments,
    category, location, department, estimated hours, start date and the
    notification preferences) never influence the engine and are left out. *)

From Stdlib Require Import String ZArith List Bool Lia.
Import ListNotations.
Open Scope Z_scope.

(** ** Data model *)

Inductive Priority := LOW | MEDIUM | HIGH | CRITICAL.

Inductive Status :=
  PENDING | IN_PROGRESS | ON_HOLD | COMPLETED | CANCELLED | OVERDUE.

Inductive RecurringType :=
  DAILY | WEEKLY | MONTHLY | QUARTERLY | YEARLY | CUSTOM.

Definition Status_eq_dec (a b : Status) : {a = b} + {a <> b}.
Proof. decide equality. Defined.

Definition Status_eqb (a b : Status) : bool :=
  if Status_eq_dec a b then true else false.

Record Task := mkTask {
  id : Z;
  priority : Priority;
  status : Status;
  assignedTo : list string;
  assignedBy : string;
  createdAt : Z;
  updatedAt : Z;
  dueDate : option Z;
  completedAt : option Z;
  progress : Z;
  actualHours : Z;
  dependencies : list Z;
  dependents : list Z;
  isRecurring : bool;
  recurringType : option RecurringType;
  recurringInterval : Z;
  recurringEndDate : option Z;
  parentRecurringId : option Z
}.

(** In-place assignments to one field of a task object. *)
Definition set_status (v : Status) (t : Task) : Task :=
  mkTask (id t) (priority t) v (assignedTo t) (assignedBy t) (createdAt t)
    (updatedAt t) (dueDate t) (completedAt t) (progress t) (actualHours t)
    (dependencies t) (dependents t) (isRecurring t) (recurringType t)
    (recurringInterval t) (recurringEndDate t) (parentRecurringId t).

Definition set_dependencies (v : list Z) (t : Task) : Task :=
  mkTask (id t) (priority t) (status t) (assignedTo t) (assignedBy t)
    (createdAt t) (updatedAt t) (dueDate t) (completedAt t) (progress t)
    (actualHours t) v (dependents t) (isRecurring t) (recurringType t)
    (recurringInterval t) (recurringEndDate t) (parentRecurringId t).

Definition set_dependents (v : list Z) (t : Task) : Task :=
  mkTask (id t) (priority t) (status t) (assignedTo t) (assignedBy t)
    (createdAt t) (updatedAt t) (dueDate t) (completedAt t) (progress t)
    (actualHours t) (dependencies t) v (isRecurring t) (recurringType t)
    (recurringInterval t) (recurringEndDate t) (parentRecurringId t).

Definition set_completed (now : Z) (t : Task) : Task :=
  mkTask (id t) (priority t) (status t) (assignedTo t) (assignedBy t)
    (createdAt t) (updatedAt t) (dueDate t) (Some now) 100 (actualHours t)
    (dependencies t) (dependents t) (isRecurring t) (recurringType t)
    (recurringInterval t) (recurringEndDate t) (parentRecurringId t).

(** The argument object of [createTask]: every field may be missing.  Dates
    are passed as date strings, as the forms of the console and
    [createRecurringTaskInstance] pass them; the fields hold their time
    value. *)
Record TaskData := mkTaskData {
  d_priority : option Priority;
  d_status : option Status;
  d_assignedTo : option (list string);
  d_dueDate : option Z;
  d_dependencies : option (list Z);
  d_isRecurring : bool;
  d_recurringType : option RecurringType;
  d_recurringInterval : option Z;
  d_recurringEndDate : option Z;
  d_parentRecurringId : option Z
}.

(** The argument object of [updateTask]: it is spread over the stored record,
    so it may carry any field of a task, [id] and [dependents] included. *)
Record Updates := mkUpdates {
  u_id : option Z;
  u_priority : option Priority;
  u_status : option Status;
  u_assignedTo : option (list string);
  u_assignedBy : option string;
  u_createdAt : option Z;
  u_dueDate : option (option Z);
  u_completedAt : option (option Z);
  u_progress : option Z;
  u_actualHours : option Z;
  u_dependencies : option (list Z);
  u_dependents : option (list Z);
  u_isRecurring : option bool;
  u_recurringType : option (option RecurringType);
  u_recurringInterval : option Z;
  u_recurringEndDate : option (option Z);
  u_parentRecurringId : option (option Z)
}.

Definition noUpdates : Updates :=
  mkUpdates None None None None None None None None None None None None None
    None None None None.

Record RecurringSchedule := mkSchedule {
  sid : Z;
  parentTaskId : Z;
  rtype : option RecurringType;
  interval : Z;
  nextDue : Z;
  endDate : option Z;
  isActive : bool;
  createdInstances : list Z;
  template : Task
}.

Inductive NotificationType :=
  created | assigned | due | overdue | completed | status_changed.

Record Notification := mkNotification {
  n_id : Z;
  n_taskId : Z;
  n_type : NotificationType;
  n_targetUser : option string;
  n_createdAt : Z;
  n_priority : Priority
}.

(** The manager: [this.tasks] and the two local-storage lists it maintains. *)
Record TM := mkTM {
  tasks : list Task;
  recurringTasks : list RecurringSchedule;
  taskNotifications : list Notification
}.

Definition emptyTM : TM := mkTM [] [] [].

(** What a call reads from its surroundings: the clock and the signed-in
    user's e-mail address. *)
Record Env := mkEnv {
  now : Z;
  currentUser : option string
}.

(** ** Exceptions and the store-passing monad *)

(** [NotFound] stands for the two messages "Task not found" and "One or both
    tasks not found", [DependencyCycle] for "Adding this dependency would
    create a circular reference", [TypeError] for the call of a method the
    class does not define, [RangeError] for the "Invalid time value" that
    [toISOString] raises on an Invalid Date. *)
Inductive Error := NotFound | DependencyCycle | TypeError | RangeError.

Inductive outcome (A : Type) :=
| Return (a : A)
| Throw (e : Error).
Arguments Return {A} a.
Arguments Throw {A} e.

Definition M (A : Type) : Type := TM -> outcome A * TM.

Definition ret {A} (a : A) : M A := fun st => (Return a, st).

Definition throw {A} (e : Error) : M A := fun st => (Throw e, st).

Definition bind {A B} (m : M A) (k : A -> M B) : M B :=
  fun st =>
    match m st with
    | (Return a, st') => k a st'
    | (Throw e, st') => (Throw e, st')
    end.

Declare Scope tm_scope.
Delimit Scope tm_scope with tm.
Notation "x <- m ;; k" := (bind m (fun x => k))
  (at level 61, m at next level, right associativity) : tm_scope.
Notation "m ;; k" := (bind m (fun _ => k))
  (at level 61, right associativity) : tm_scope.
Open Scope tm_scope.

Definition getTasks : M (list Task) := fun st => (Return (tasks st), st).

Definition modifyTasks (f : list Task -> list Task) : M unit :=
  fun st =>
    (Return tt, mkTM (f (tasks st)) (recurringTasks st) (taskNotifications st)).

Definition loadRecurringTasks : M (list RecurringSchedule) :=
  fun st => (Return (recurringTasks st), st).

Definition storeRecurringTasks (l : list RecurringSchedule) : M unit :=
  fun st => (Return tt, mkTM (tasks st) l (taskNotifications st)).

(** [list.forEach(f)] where [f] may throw: the first throw ends the loop. *)
Fixpoint forEach {A} (l : list A) (f : A -> M unit) : M unit :=
  match l with
  | [] => ret tt
  | x :: l' => f x ;; forEach l' f
  end.

(** ** The task array *)

(** [l.includes(x)] on arrays of ids, [visited.has(x)] on sets of ids. *)
Definition memZ (x : Z) (l : list Z) : bool := existsb (Z.eqb x) l.

(** [this.tasks.find((t) => t.id === taskId)] *)
Definition getTask (ts : list Task) (taskId : Z) : option Task :=
  find (fun t => id t =? taskId) ts.

(** [this.tasks.findIndex((t) => t.id === taskId)]; [None] is the -1. *)
Fixpoint findIndex (ts : list Task) (taskId : Z) : option nat :=
  match ts with
  | [] => None
  | t :: ts' =>
      if id t =? taskId then Some O
      else option_map S (findIndex ts' taskId)
  end.

(** A mutation [f] of the object that [getTask] returns. *)
Fixpoint modifyTask (taskId : Z) (f : Task -> Task) (ts : list Task)
  : list Task :=
  match ts with
  | [] => []
  | t :: ts' =>
      if id t =? taskId then f t :: ts'
      else t :: modifyTask taskId f ts'
  end.

(** [this.tasks[i] = v] for an index inside the array. *)
Fixpoint setAt (i : nat) (v : Task) (ts : list Task) : list Task :=
  match ts, i with
  | [], _ => []
  | _ :: ts', O => v :: ts'
  | t :: ts', S i' => t :: setAt i' v ts'
  end.

(** [this.tasks.splice(i, 1)] *)
Fixpoint splice1 (i : nat) (ts : list Task) : list Task :=
  match ts, i with
  | [], _ => []
  | _ :: ts', O => ts'
  | t :: ts', S i' => t :: splice1 i' ts'
  end.

(** [getNextTaskId]: the array is folded with [Math.max] from 0. *)
Definition getNextTaskId (ts : list Task) : Z :=
  fold_left (fun mx t => Z.max mx (id t)) ts 0 + 1.

(** The test in the loop of [updateTaskStatuses]. *)
Definition isLate (nw : Z) (t : Task) : bool :=
  match dueDate t with
  | None => false
  | Some d =>
      (d <? nw)
      && negb (Status_eqb (status t) COMPLETED)
      && negb (Status_eqb (status t) CANCELLED)
      && negb (Status_eqb (status t) OVERDUE)
  end.

(** The body of that loop: a late task is marked overdue in place. *)
Definition sweep1 (nw : Z) (t : Task) : Task :=
  if isLate nw t then set_status OVERDUE t else t.

(** [updateTaskStatuses]: the sweep over the whole array. *)
Definition updateTaskStatuses (nw : Z) (ts : list Task) : list Task :=
  map (sweep1 nw) ts.

(** [saveTasks]: the array is written out, then swept. *)
Definition saveTasks (env : Env) : M unit :=
  modifyTasks (updateTaskStatuses (now env)).

(** [sendTaskNotification]: one record appended to the stored list. *)
Definition sendTaskNotification (env : Env) (t : Task)
    (ty : NotificationType) (target : option string) : M unit :=
  fun st =>
    (Return tt,
     mkTM (tasks st) (recurringTasks st)
       (taskNotifications st ++
          [mkNotification (now env) (id t) ty target (now env) (priority t)])).

(** ** Queries *)

(** [getOverdueTasks], with the clock made explicit. *)
Definition getOverdueTasks (nw : Z) (ts : list Task) : list Task :=
  filter
    (fun t =>
       match dueDate t with
       | None => false
       | Some d =>
           if Status_eqb (status t) COMPLETED then false else d <? nw
       end)
    ts.

(** [canStartTask] *)
Definition canStartTask (ts : list Task) (taskId : Z) : bool :=
  match getTask ts taskId with
  | None => false
  | Some t =>
      forallb
        (fun depId =>
           match getTask ts depId with
           | None => false
           | Some depTask => Status_eqb (status depTask) COMPLETED
           end)
        (dependencies t)
  end.

(** ** Dependency graph *)

(** [Array.prototype.some] over a test that may fail to answer: the scan
    stops at the first [true]. *)
Fixpoint someM {A} (f : A -> option bool) (l : list A) : option bool :=
  match l with
  | [] => Some false
  | x :: l' =>
      match f x with
      | None => None
      | Some true => Some true
      | Some false => someM f l'
      end
  end.

(** [wouldCreateCircularDependency(taskId, dependsOnId, visited)].  The
    source recurses with a copy of [visited] that grows by one stored task at
    every level; [fuel] bounds the depth, and [wouldCreate_total] shows that
    one more than the number of stored tasks always suffices. *)
Fixpoint wouldCreate (fuel : nat) (ts : list Task) (taskId dependsOnId : Z)
    (visited : list Z) : option bool :=
  match fuel with
  | O => None
  | S fuel' =>
      if memZ dependsOnId visited then Some true
      else if dependsOnId =? taskId then Some true
      else
        match getTask ts dependsOnId with
        | None => Some false
        | Some dependencyTask =>
            someM
              (fun depId =>
                 wouldCreate fuel' ts taskId depId (dependsOnId :: visited))
              (dependencies dependencyTask)
        end
  end.

(** The call with the default [visited = new Set()]. *)
Definition wouldCreateCircularDependency (ts : list Task)
    (taskId dependsOnId : Z) : bool :=
  match wouldCreate (S (length ts)) ts taskId dependsOnId [] with
  | Some b => b
  | None => true
  end.

(** [Array.prototype.push] guarded by [includes]. *)
Definition pushNew (x : Z) (l : list Z) : list Z :=
  if memZ x l then l else l ++ [x].

(** [l.filter((id) => id !== x)] *)
Definition without (x : Z) (l : list Z) : list Z :=
  filter (fun y => negb (y =? x)) l.

(** [addTaskDependency] *)
Definition addTaskDependency (env : Env) (taskId dependsOnId : Z) : M bool :=
  ts <- getTasks ;;
  match getTask ts taskId, getTask ts dependsOnId with
  | Some _, Some _ =>
      if wouldCreateCircularDependency ts taskId dependsOnId
      then throw DependencyCycle
      else
        modifyTasks
          (modifyTask taskId
             (fun t => set_dependencies (pushNew dependsOnId (dependencies t)) t)) ;;
        modifyTasks
          (modifyTask dependsOnId
             (fun t => set_dependents (pushNew taskId (dependents t)) t)) ;;
        saveTasks env ;;
        ret true
  | _, _ => throw NotFound
  end.

(** [removeTaskDependency]: each side is filtered when its task exists. *)
Definition removeTaskDependency (env : Env) (taskId dependsOnId : Z)
  : M bool :=
  modifyTasks
    (modifyTask taskId
       (fun t => set_dependencies (without dependsOnId (dependencies t)) t)) ;;
  modifyTasks
    (modifyTask dependsOnId
       (fun t => set_dependents (without taskId (dependents t)) t)) ;;
  saveTasks env ;;
  ret true.

(** The body of the loop in [removeDependencies]: the id is filtered out of
    both lists of a task. *)
Definition strip (taskId : Z) (t : Task) : Task :=
  set_dependents (without taskId (dependents t))
    (set_dependencies (without taskId (dependencies t)) t).

(** [removeDependencies] *)
Definition removeDependencies (taskId : Z) : M unit :=
  modifyTasks (map (strip taskId)).

(** [updateTaskDependencies]: the first loop runs over the array that
    [task.dependencies] holds on entry (the filter in [removeTaskDependency]
    assigns a new array and leaves that one as it is), the second over the
    argument. *)
Definition updateTaskDependencies (env : Env) (taskId : Z)
    (newDependencies : list Z) : M unit :=
  ts <- getTasks ;;
  match getTask ts taskId with
  | None => ret tt
  | Some task =>
      forEach (dependencies task)
        (fun depId => removeTaskDependency env taskId depId ;; ret tt) ;;
      forEach newDependencies
        (fun depId => addTaskDependency env taskId depId ;; ret tt)
  end.

(** ** Calendar arithmetic of [Date] (UTC) *)

(** Milliseconds in a day. *)
Definition msPerDay : Z := 86400000.

(** Day number of a civil date; [m] is 1..12, [d] may overflow the month. *)
Definition daysFromCivil (y m d : Z) : Z :=
  let y' := if m <=? 2 then y - 1 else y in
  let era := y' / 400 in
  let yoe := y' - era * 400 in
  let mp := if m >? 2 then m - 3 else m + 9 in
  let doy := (153 * mp + 2) / 5 + d - 1 in
  let doe := yoe * 365 + yoe / 4 - yoe / 100 + doy in
  era * 146097 + doe - 719468.

(** The civil date (year, month 1..12, day) of a day number. *)
Definition civilFromDays (z : Z) : Z * Z * Z :=
  let z' := z + 719468 in
  let era := z' / 146097 in
  let doe := z' - era * 146097 in
  let yoe := (doe - doe / 1460 + doe / 36524 - doe / 146096) / 365 in
  let doy := doe - (365 * yoe + yoe / 4 - yoe / 100) in
  let mp := (5 * doy + 2) / 153 in
  let d := doy - (153 * mp + 2) / 5 + 1 in
  let m := if mp <? 10 then mp + 3 else mp - 9 in
  ((if m <=? 2 then yoe + era * 400 + 1 else yoe + era * 400), m, d).

(** [date.setDate(date.getDate() + n)] *)
Definition addDays (t n : Z) : Z := t + n * msPerDay.

(** [date.setMonth(date.getMonth() + n)]: the month index is normalised into
    the year, the day of the month is kept and may spill into the next
    month. *)
Definition addMonths (t n : Z) : Z :=
  let day := t / msPerDay in
  let '(y, m, d) := civilFromDays day in
  let mi := m - 1 + n in
  (daysFromCivil (y + mi / 12) (mi mod 12 + 1) 1 + d - 1) * msPerDay
  + t mod msPerDay.

(** [date.setFullYear(date.getFullYear() + n)] *)
Definition addYears (t n : Z) : Z :=
  let day := t / msPerDay in
  let '(y, m, d) := civilFromDays day in
  (daysFromCivil (y + n) m 1 + d - 1) * msPerDay + t mod msPerDay.

(** A [Date] holds a time value of at most 8.64e15 milliseconds on either
    side of the epoch; a setter that leaves this range makes the object an
    Invalid Date. *)
Definition maxTime : Z := 8640000000000000.

Definition validTime (t : Z) : bool := (- maxTime <=? t) && (t <=? maxTime).

(** The switch of [calculateNextDueDate]: where the setters take [date];
    CUSTOM and a missing type fall through and leave it as it is. *)
Definition dateAfter (task : Task) (fromDate : Z) : Z :=
  match recurringType task with
  | Some DAILY => addDays fromDate (recurringInterval task)
  | Some WEEKLY => addDays fromDate (7 * recurringInterval task)
  | Some MONTHLY => addMonths fromDate (recurringInterval task)
  | Some QUARTERLY => addMonths fromDate (3 * recurringInterval task)
  | Some YEARLY => addYears fromDate (recurringInterval task)
  | Some CUSTOM | None => fromDate
  end.

(** [calculateNextDueDate(task, fromDate)]: [date.toISOString()] throws a
    RangeError when [date] is an Invalid Date, which it is when [fromDate]
    is one or when the setter has left the range of time values. *)
Definition calculateNextDueDate (task : Task) (fromDate : Z) : M Z :=
  let date := dateAfter task fromDate in
  if validTime fromDate && validTime date then ret date
  else throw RangeError.

(** ** Task store: create, update, delete *)

(** [x || dflt] on an optional field. *)
Definition orElse {A} (o : option A) (dflt : A) : A :=
  match o with Some a => a | None => dflt end.

(** [n || dflt] on an optional number: 0 is falsy as well. *)
Definition orElseZ (o : option Z) (dflt : Z) : Z :=
  match o with
  | Some n => if n =? 0 then dflt else n
  | None => dflt
  end.

(** [n || null] on an optional number. *)
Definition truthyZ (o : option Z) : option Z :=
  match o with
  | Some n => if n =? 0 then None else Some n
  | None => None
  end.

(** The record literal at the head of [createTask]; an empty e-mail address
    is falsy and gives way to "system" like a missing user. *)
Definition newTaskOf (env : Env) (ts : list Task) (taskData : TaskData)
  : Task :=
  {| id := getNextTaskId ts;
     priority := orElse (d_priority taskData) MEDIUM;
     status := orElse (d_status taskData) PENDING;
     assignedTo := orElse (d_assignedTo taskData) [];
     assignedBy :=
       match currentUser env with
       | Some EmptyString | None => "system"%string
       | Some email => email
       end;
     createdAt := now env;
     updatedAt := now env;
     dueDate := d_dueDate taskData;
     completedAt := None;
     progress := 0;
     actualHours := 0;
     dependencies := orElse (d_dependencies taskData) [];
     dependents := [];
     isRecurring := d_isRecurring taskData;
     recurringType := d_recurringType taskData;
     recurringInterval := orElseZ (d_recurringInterval taskData) 1;
     recurringEndDate := d_recurringEndDate taskData;
     parentRecurringId := truthyZ (d_parentRecurringId taskData) |}.

(** The object literal at the head of [createRecurringTaskSchedule], once
    [calculateNextDueDate] has returned [nextDue]; the template is a copy of
    the task as it is at this point. *)
Definition scheduleOf (env : Env) (parentTask : Task) (nextDue : Z)
  : RecurringSchedule :=
  {| sid := now env;
     parentTaskId := id parentTask;
     rtype := recurringType parentTask;
     interval := recurringInterval parentTask;
     nextDue := nextDue;
     endDate := recurringEndDate parentTask;
     isActive := true;
     createdInstances := [];
     template := parentTask |}.

(** [createRecurringTaskSchedule]: the schedule is appended to the stored
    list, unless [calculateNextDueDate] throws while the literal is built. *)
Definition createRecurringTaskSchedule (env : Env) (parentTask : Task)
  : M RecurringSchedule :=
  nextDue <- calculateNextDueDate parentTask (now env) ;;
  let recurringSchedule := scheduleOf env parentTask nextDue in
  schedules <- loadRecurringTasks ;;
  storeRecurringTasks (schedules ++ [recurringSchedule]) ;;
  ret recurringSchedule.

(** The object pushed by [createTask] stays the last element of the array
    while the call runs; this reads its current state. *)
Definition newest (dflt : Task) : M Task :=
  ts <- getTasks ;; ret (last ts dflt).

(** [createTask] *)
Definition createTask (env : Env) (taskData : TaskData) : M Task :=
  ts <- getTasks ;;
  let newTask := newTaskOf env ts taskData in
  modifyTasks (fun l => l ++ [newTask]) ;;
  saveTasks env ;;
  match dependencies newTask with
  | [] => ret tt
  | _ :: _ => updateTaskDependencies env (id newTask) (dependencies newTask)
  end ;;
  t <- newest newTask ;;
  (if isRecurring t
   then createRecurringTaskSchedule env t ;; ret tt
   else ret tt) ;;
  sendTaskNotification env t created None ;;
  ret t.

(** [{ ...task, ...updates, updatedAt: now }] *)
Definition merge (nw : Z) (t : Task) (u : Updates) : Task :=
  {| id := orElse (u_id u) (id t);
     priority := orElse (u_priority u) (priority t);
     status := orElse (u_status u) (status t);
     assignedTo := orElse (u_assignedTo u) (assignedTo t);
     assignedBy := orElse (u_assignedBy u) (assignedBy t);
     createdAt := orElse (u_createdAt u) (createdAt t);
     updatedAt := nw;
     dueDate := orElse (u_dueDate u) (dueDate t);
     completedAt := orElse (u_completedAt u) (completedAt t);
     progress := orElse (u_progress u) (progress t);
     actualHours := orElse (u_actualHours u) (actualHours t);
     dependencies := orElse (u_dependencies u) (dependencies t);
     dependents := orElse (u_dependents u) (dependents t);
     isRecurring := orElse (u_isRecurring u) (isRecurring t);
     recurringType := orElse (u_recurringType u) (recurringType t);
     recurringInterval := orElse (u_recurringInterval u) (recurringInterval t);
     recurringEndDate := orElse (u_recurringEndDate u) (recurringEndDate t);
     parentRecurringId := orElse (u_parentRecurringId u) (parentRecurringId t)
  |}.

(** [handleStatusChange]: [checkDependentTasks] only writes to the console
    and is not represented. *)
Definition handleStatusChange (env : Env) (task : Task)
    (oldStatus newStatus : Status) : M Task :=
  let task' :=
    if Status_eqb newStatus COMPLETED then set_completed (now env) task
    else task in
  sendTaskNotification env task' status_changed None ;;
  ret task'.

Definition includes (x : string) (l : list string) : bool :=
  existsb (String.eqb x) l.

(** [handleAssignmentChange] *)
Definition handleAssignmentChange (env : Env) (task : Task)
    (oldAssignees newAssignees : list string) : M unit :=
  forEach (filter (fun email => negb (includes email oldAssignees)) newAssignees)
    (fun email => sendTaskNotification env task assigned (Some email)).

(** [updateTask] *)
Definition updateTask (env : Env) (taskId : Z) (updates : Updates) : M Task :=
  ts <- getTasks ;;
  match findIndex ts taskId with
  | None => throw NotFound
  | Some taskIndex =>
      match nth_error ts taskIndex with
      | None => throw NotFound
      | Some oldTask =>
          let merged := merge (now env) oldTask updates in
          updatedTask <-
            match u_status updates with
            | Some s =>
                if Status_eqb s (status oldTask) then ret merged
                else handleStatusChange env merged (status oldTask) s
            | None => ret merged
            end ;;
          match u_assignedTo updates with
          | Some a =>
              if list_eq_dec string_dec a (assignedTo oldTask) then ret tt
              else handleAssignmentChange env updatedTask (assignedTo oldTask) a
          | None => ret tt
          end ;;
          match u_dependencies updates with
          | Some deps => updateTaskDependencies env taskId deps
          | None => ret tt
          end ;;
          modifyTasks (setAt taskIndex updatedTask) ;;
          saveTasks env ;;
          ts' <- getTasks ;;
          ret (nth taskIndex ts' updatedTask)
      end
  end.

(** [deleteTask].  The class has no method [cancelRecurringTask], so the call
    made for a recurring task raises a TypeError, after the edges have been
    stripped and before the record is spliced out. *)
Definition deleteTask (env : Env) (taskId : Z) : M bool :=
  ts <- getTasks ;;
  match findIndex ts taskId with
  | None => throw NotFound
  | Some taskIndex =>
      match nth_error ts taskIndex with
      | None => throw NotFound
      | Some task =>
          removeDependencies taskId ;;
          (if isRecurring task then throw TypeError else ret tt) ;;
          modifyTasks (splice1 taskIndex) ;;
          saveTasks env ;;
          ret true
      end
  end.

(** [Math.max(0, Math.min(100, progress))] *)
Definition clamp (p : Z) : Z := Z.max 0 (Z.min 100 p).

(** [updateTaskProgress(taskId, progress, actualHours)]: [hours] is [None]
    when the third argument is left at its default [null]. *)
Definition updateTaskProgress (env : Env) (taskId : Z) (p : Z)
    (hours : option Z) : M Task :=
  ts <- getTasks ;;
  match getTask ts taskId with
  | None => throw NotFound
  | Some task =>
      let updates :=
        mkUpdates None None
          (if (p =? 100) && negb (Status_eqb (status task) COMPLETED)
           then Some COMPLETED
           else if (0 <? p) && Status_eqb (status task) PENDING
                then Some IN_PROGRESS
                else None)
          None None None None
          (if (p =? 100) && negb (Status_eqb (status task) COMPLETED)
           then Some (Some (now env))
           else None)
          (Some (clamp p)) hours None None None None None None None in
      updateTask env taskId updates
  end.

(** ** Recurrence scheduler *)

(** The argument [createRecurringTaskInstance] hands to [createTask]: the
    template spread out, with the due date, the parent and the recurring flag
    overridden. *)
Definition instanceData (schedule : RecurringSchedule) : TaskData :=
  let tpl := template schedule in
  {| d_priority := Some (priority tpl);
     d_status := Some (status tpl);
     d_assignedTo := Some (assignedTo tpl);
     d_dueDate := Some (nextDue schedule);
     d_dependencies := Some (dependencies tpl);
     d_isRecurring := false;
     d_recurringType := recurringType tpl;
     d_recurringInterval := Some (recurringInterval tpl);
     d_recurringEndDate := recurringEndDate tpl;
     d_parentRecurringId := Some (sid schedule) |}.

(** The two assignments [createRecurringTaskInstance] makes to the schedule
    object once the instance with id [newId] exists: the id is pushed onto
    [createdInstances] and [nextDue] is set to what [calculateNextDueDate]
    has returned. *)
Definition advanced (s : RecurringSchedule) (newId nextDue' : Z)
  : RecurringSchedule :=
  {| sid := sid s;
     parentTaskId := parentTaskId s;
     rtype := rtype s;
     interval := interval s;
     nextDue := nextDue';
     endDate := endDate s;
     isActive := isActive s;
     createdInstances := createdInstances s ++ [newId];
     template := template s |}.

(** [createRecurringTaskInstance]: returns the new task and the schedule
    object as it has been updated.  [nextDue] is recomputed from its previous
    value, after the instance has been created. *)
Definition createRecurringTaskInstance (env : Env)
    (schedule : RecurringSchedule) : M (Task * RecurringSchedule) :=
  newTask <- createTask env (instanceData schedule) ;;
  nextDue' <-
    calculateNextDueDate (template schedule) (nextDue schedule) ;;
  ret (newTask, advanced schedule (id newTask) nextDue').

Definition deactivate (schedule : RecurringSchedule) : RecurringSchedule :=
  {| sid := sid schedule;
     parentTaskId := parentTaskId schedule;
     rtype := rtype schedule;
     interval := interval schedule;
     nextDue := nextDue schedule;
     endDate := endDate schedule;
     isActive := false;
     createdInstances := createdInstances schedule;
     template := template schedule |}.

(** [schedule.endDate && new Date(schedule.endDate) < now] *)
Definition expired (nw : Z) (schedule : RecurringSchedule) : bool :=
  match endDate schedule with
  | Some e => e <? nw
  | None => false
  end.

(** The callback of the [forEach] in [processRecurringTasks]; the result is
    the schedule object after the callback. *)
Definition processSchedule (env : Env) (schedule : RecurringSchedule)
  : M RecurringSchedule :=
  if negb (isActive schedule) then ret schedule
  else if expired (now env) schedule then ret (deactivate schedule)
  else if nextDue schedule <=? now env
       then r <- createRecurringTaskInstance env schedule ;; ret (snd r)
       else ret schedule.

Fixpoint mapM {A B} (f : A -> M B) (l : list A) : M (list B) :=
  match l with
  | [] => ret []
  | x :: l' => y <- f x ;; ys <- mapM f l' ;; ret (y :: ys)
  end.

(** [processRecurringTasks], the scheduler tick: the schedules are loaded,
    each is processed in turn, and the list is written back only when no
    callback has thrown. *)
Definition processRecurringTasks (env : Env) : M unit :=
  schedules <- loadRecurringTasks ;;
  schedules' <- mapM (processSchedule env) schedules ;;
  storeRecurringTasks schedules'.

(** * Vocabulary of the properties

    Functions and predicates the statements below are written with: the
    effect of each method on the task array alone, the dependency graph
    read off the array, sequences of operations, and concrete stores. *)

(** The readiness test as a proposition: every dependency resolves to a
    stored task that is completed. *)
Definition allCompleted (ts : list Task) (t : Task) : Prop :=
  forall depId, In depId (dependencies t) ->
    exists d, getTask ts depId = Some d /\ status d = COMPLETED.

(** The record [updateTask] stores when the update carries no dependency
    list: the merged record, completed by [handleStatusChange] when the status
    changes to COMPLETED. *)
Definition updatedRecord (nw : Z) (oldTask : Task) (u : Updates) : Task :=
  match u_status u with
  | Some s =>
      if Status_eqb s (status oldTask) then merge nw oldTask u
      else if Status_eqb s COMPLETED then set_completed nw (merge nw oldTask u)
           else merge nw oldTask u
  | None => merge nw oldTask u
  end.

(** Whether [calculateNextDueDate(task, fromDate)] returns: both the date it
    starts from and the date it reaches are time values. *)
Definition nextDateValid (task : Task) (fromDate : Z) : bool :=
  validTime fromDate && validTime (dateAfter task fromDate).

(** The manager with [this.tasks] replaced. *)
Definition withTasks (st : TM) (ts : list Task) : TM :=
  mkTM ts (recurringTasks st) (taskNotifications st).

(** The array after [removeTaskDependency(a, b)], its [saveTasks] included. *)
Definition removeEdgeTasks (nw a b : Z) (ts : list Task) : list Task :=
  updateTaskStatuses nw
    (modifyTask b (fun t => set_dependents (without a (dependents t)) t)
       (modifyTask a
          (fun t => set_dependencies (without b (dependencies t)) t) ts)).

(** The array after the two pushes of [addTaskDependency(a, b)] and its
    [saveTasks]. *)
Definition addEdgeTasks (nw a b : Z) (ts : list Task) : list Task :=
  updateTaskStatuses nw
    (modifyTask b (fun t => set_dependents (pushNew a (dependents t)) t)
       (modifyTask a
          (fun t => set_dependencies (pushNew b (dependencies t)) t) ts)).

(** [addTaskDependency(a, b)] on the array: the error it throws, or the
    array it leaves. *)
Definition tryAddEdge (nw a b : Z) (ts : list Task) : Error + list Task :=
  match getTask ts a, getTask ts b with
  | Some _, Some _ =>
      if wouldCreateCircularDependency ts a b then inl DependencyCycle
      else inr (addEdgeTasks nw a b ts)
  | _, _ => inl NotFound
  end.

(** The first loop of [updateTaskDependencies]. *)
Definition removeEdges (nw a : Z) (l : list Z) (ts : list Task) : list Task :=
  fold_left (fun acc b => removeEdgeTasks nw a b acc) l ts.

(** The second loop of [updateTaskDependencies]: it stops at the first
    entry that throws and keeps the edges added before it. *)
Fixpoint addEdges (nw a : Z) (l : list Z) (ts : list Task)
  : option Error * list Task :=
  match l with
  | [] => (None, ts)
  | b :: l' =>
      match tryAddEdge nw a b ts with
      | inl e => (Some e, ts)
      | inr ts' => addEdges nw a l' ts'
      end
  end.

(** [updateTaskDependencies] on the array. *)
Definition updateDependenciesTasks (nw a : Z) (newDependencies : list Z)
    (ts : list Task) : option Error * list Task :=
  match getTask ts a with
  | None => (None, ts)
  | Some task =>
      addEdges nw a newDependencies (removeEdges nw a (dependencies task) ts)
  end.

(** The outcome of a method that throws [e] when [r] is [Some e] and returns
    [a] otherwise. *)
Definition finished {A} (r : option Error) (a : A) : outcome A :=
  match r with
  | None => Return a
  | Some e => Throw e
  end.

(** What [createTask] does to the array, and whether it throws. *)
Definition createTaskTasks (env : Env) (taskData : TaskData) (ts : list Task)
  : option Error * list Task :=
  let newTask := newTaskOf env ts taskData in
  let ts1 := updateTaskStatuses (now env) (ts ++ [newTask]) in
  match dependencies newTask with
  | [] => (None, ts1)
  | _ :: _ =>
      updateDependenciesTasks (now env) (id newTask) (dependencies newTask) ts1
  end.

(** The largest id held in the array, 0 for the empty array. *)
Definition maxId (ts : list Task) : Z := fold_right Z.max 0 (map id ts).

(** The two edge lists held under an id; an absent id holds none. *)
Definition depsOf (ts : list Task) (i : Z) : list Z :=
  match getTask ts i with
  | Some t => dependencies t
  | None => []
  end.

Definition dependentsOf (ts : list Task) (j : Z) : list Z :=
  match getTask ts j with
  | Some t => dependents t
  | None => []
  end.

(** [i] lists [j] as a dependency exactly when [j] lists [i] as a dependent;
    since an absent id lists nothing, this also says that no edge points at
    an absent task. *)
Definition symmetric (ts : list Task) : Prop :=
  forall i j, In j (depsOf ts i) <-> In i (dependentsOf ts j).

Definition irreflexive (ts : list Task) : Prop :=
  forall i, ~ In i (depsOf ts i).

(** The well-formed stores: distinct ids, mutually inverse edge lists, no
    task depending on itself. *)
Definition Inv (ts : list Task) : Prop :=
  NoDup (map id ts) /\ symmetric ts /\ irreflexive ts.

(** The stored tasks whose id the walk has not visited yet. *)
Definition unvisited (ts : list Task) (visited : list Z) : nat :=
  length (filter (fun t => negb (memZ (id t) visited)) ts).

(** Dependency chains: [chain ts x y] when [y] is reached from [x] by
    following one or more dependency edges. *)
Inductive chain (ts : list Task) : Z -> Z -> Prop :=
| chain_edge x y : In y (depsOf ts x) -> chain ts x y
| chain_step x y z : In y (depsOf ts x) -> chain ts y z -> chain ts x z.

(** An entry [x] of the dependency list of a task that is being created
    under the id [n] closes a cycle: it is [n] itself, or [n] or a cycle of
    the store is reached from it along dependency edges. *)
Definition closesCycle (ts : list Task) (n x : Z) : Prop :=
  x = n
  \/ chain ts x n
  \/ exists y, (y = x \/ chain ts x y) /\ chain ts y y.

(** The arrays [createTask] passes through while it links a new task [n] to
    its dependencies, seen from the array [ts0] it started from: they hold
    the ids of [ts0] and [n], and under every other id the dependencies it
    had in [ts0]. *)
Definition linking (ts0 : list Task) (n : Z) (ts : list Task) : Prop :=
  map id ts = map id ts0 ++ [n]
  /\ forall i j, i <> n -> (In j (depsOf ts i) <-> In j (depsOf ts0 i)).

(** What [updateTask] does to the array, and whether it throws. *)
Definition updateTaskTasks (nw a : Z) (u : Updates) (ts : list Task)
  : option Error * list Task :=
  match findIndex ts a with
  | None => (Some NotFound, ts)
  | Some i =>
      match nth_error ts i with
      | None => (Some NotFound, ts)
      | Some oldTask =>
          match u_dependencies u with
          | None =>
              (None,
               updateTaskStatuses nw (setAt i (updatedRecord nw oldTask u) ts))
          | Some deps =>
              match updateDependenciesTasks nw a deps ts with
              | (Some e, ts3) => (Some e, ts3)
              | (None, ts3) =>
                  (None,
                   updateTaskStatuses nw
                     (setAt i (updatedRecord nw oldTask u) ts3))
              end
          end
      end
  end.

(** What [deleteTask] does to the array, and whether it throws. *)
Definition deleteTaskTasks (nw a : Z) (ts : list Task)
  : option Error * list Task :=
  match findIndex ts a with
  | None => (Some NotFound, ts)
  | Some i =>
      match nth_error ts i with
      | None => (Some NotFound, ts)
      | Some task =>
          if isRecurring task then (Some TypeError, map (strip a) ts)
          else (None, updateTaskStatuses nw (splice1 i (map (strip a) ts)))
      end
  end.

(** The mutating operations of the engine. *)
Inductive Op :=
| OpCreateTask (taskData : TaskData)
| OpUpdateTask (taskId : Z) (updates : Updates)
| OpDeleteTask (taskId : Z)
| OpAddEdge (taskId dependsOnId : Z)
| OpRemoveEdge (taskId dependsOnId : Z).

(** The store after one operation, whether it returned or threw. *)
Definition runOp (env : Env) (op : Op) (st : TM) : TM :=
  match op with
  | OpCreateTask taskData => snd (createTask env taskData st)
  | OpUpdateTask taskId updates => snd (updateTask env taskId updates st)
  | OpDeleteTask taskId => snd (deleteTask env taskId st)
  | OpAddEdge taskId dependsOnId =>
      snd (addTaskDependency env taskId dependsOnId st)
  | OpRemoveEdge taskId dependsOnId =>
      snd (removeTaskDependency env taskId dependsOnId st)
  end.

Fixpoint runOps (ops : list (Env * Op)) (st : TM) : TM :=
  match ops with
  | [] => st
  | (env, op) :: ops' => runOps ops' (runOp env op st)
  end.

(** The operations under which the edge lists are shown to stay inverse: any
    creation and any edge operation, an update that sets neither [id] nor
    [dependents], a deletion whose target is not a recurring task. *)
Definition plain (st : TM) (op : Op) : Prop :=
  match op with
  | OpUpdateTask _ updates => u_id updates = None /\ u_dependents updates = None
  | OpDeleteTask taskId =>
      forall t, getTask (tasks st) taskId = Some t -> isRecurring t = false
  | _ => True
  end.

Fixpoint allPlain (ops : list (Env * Op)) (st : TM) : Prop :=
  match ops with
  | [] => True
  | (env, op) :: ops' => plain st op /\ allPlain ops' (runOp env op st)
  end.

Definition env0 : Env := mkEnv 1000 (Some "hr@studyhall.example"%string).

(** [createTask({})] and [createTask({ dependencies })] *)
Definition plainData : TaskData :=
  mkTaskData None None None None None false None None None None.

Definition dependingOn (deps : list Z) : TaskData :=
  mkTaskData None None None None (Some deps) false None None None None.

(** A recurring DAILY task with interval 2. *)
Definition everyOtherDay (deps : list Z) : TaskData :=
  mkTaskData None None None None (Some deps) true (Some DAILY) (Some 2) None
    None.

(** Two tasks without edges. *)
Definition opsTwo : list (Env * Op) :=
  [(env0, OpCreateTask plainData); (env0, OpCreateTask plainData)].

Definition storeTwo : TM := runOps opsTwo emptyTM.

(** Scenario A of the specification: T1, then T2 depending on T1. *)
Definition opsChain : list (Env * Op) :=
  [(env0, OpCreateTask plainData); (env0, OpCreateTask (dependingOn [1]))].

Definition storeChain : TM := runOps opsChain emptyTM.

(** Tasks 1, 2 and 3 with the edges 3 -> 1 and 2 -> 3: no edge joins 1 and
    2, yet task 1 lies below task 2. *)
Definition opsBelow : list (Env * Op) :=
  [(env0, OpCreateTask plainData); (env0, OpCreateTask plainData);
   (env0, OpCreateTask (dependingOn [1])); (env0, OpAddEdge 2 3)].

Definition storeBelow : TM := runOps opsBelow emptyTM.

(** [{ status: "completed" }] *)
Definition completeIt : Updates :=
  mkUpdates None None (Some COMPLETED) None None None None None None None None
    None None None None None None.

(** [{ dependents: [2] }] *)
Definition dependentsPatch : Updates :=
  mkUpdates None None None None None None None None None None None (Some [2])
    None None None None None.

Definition blankTask : Task := newTaskOf env0 [] plainData.

Definition storeOne : TM := runOps [(env0, OpCreateTask plainData)] emptyTM.

(** [createTask({ status: "cancelled", dueDate: 500 })], at time 1000. *)
Definition cancelledData : TaskData :=
  mkTaskData None (Some CANCELLED) None (Some 500) None false None None None
    None.

Definition storeCancelled : TM :=
  runOps [(env0, OpCreateTask cancelledData)] emptyTM.

Definition opsRecurring : list (Env * Op) :=
  [(env0, OpCreateTask (everyOtherDay []));
   (env0, OpCreateTask (dependingOn [1]))].

Definition storeRecurring : TM := runOps opsRecurring emptyTM.

(** A task record with the three fields the graph operations and the sweep
    may rewrite blanked out. *)
Definition core (t : Task) : Task :=
  set_status PENDING (set_dependencies [] (set_dependents [] t)).

Definition coreOf (ts : list Task) (x : Z) : option Task :=
  option_map core (getTask ts x).

Definition inactive (s : RecurringSchedule) : Prop := isActive s = false.

(** A schedule as [createRecurringTaskSchedule] builds it for a DAILY task
    with interval [n]. *)
Definition dailyEvery (n : Z) (s : RecurringSchedule) : Prop :=
  rtype s = Some DAILY /\ interval s = n
  /\ recurringType (template s) = rtype s
  /\ recurringInterval (template s) = interval s.

(** A recurring DAILY task created at time 1000 with interval 2: its
    schedule is first due two days later. *)
Definition storeDaily : TM :=
  runOps [(env0, OpCreateTask (everyOtherDay []))] emptyTM.

Definition schDaily : RecurringSchedule :=
  scheduleOf env0 (last (tasks storeDaily) blankTask) (1000 + 2 * msPerDay).

Definition envDue : Env :=
  mkEnv (1000 + 2 * msPerDay) (Some "hr@studyhall.example"%string).

(** Two recurring DAILY tasks with interval 2, both created at time 1000. *)
Definition storeTwoDaily : TM :=
  runOps
    [(env0, OpCreateTask (everyOtherDay []));
     (env0, OpCreateTask (everyOtherDay []))]
    emptyTM.

(** Task 1, a recurring DAILY task 2 with interval 2 that depends on task 1,
    then task 1 deleted: the template of the schedule still lists task 1. *)
Definition storeOrphan : TM :=
  runOps
    [(env0, OpCreateTask plainData);
     (env0, OpCreateTask (everyOtherDay [1]));
     (env0, OpDeleteTask 1)]
    emptyTM.

(** * Further methods: queries, the dependency chain, assignment and
      permissions *)

(** ** Queries *)

(** [getTasksByStatus] *)
Definition getTasksByStatus (s : Status) (ts : list Task) : list Task :=
  filter (fun task => Status_eqb (status task) s) ts.

(** [getTasksByUser] *)
Definition getTasksByUser (userEmail : string) (ts : list Task) : list Task :=
  filter
    (fun task =>
       includes userEmail (assignedTo task)
       || String.eqb (assignedBy task) userEmail)
    ts.

(** [getUpcomingTasks(days)], with the clock made explicit.  When the end
    of the window lies outside the range of time values, [futureDate] is an
    Invalid Date and the comparison with it is false for every task. *)
Definition getUpcomingTasks (nw days : Z) (ts : list Task) : list Task :=
  let futureDate := nw + days * 24 * 60 * 60 * 1000 in
  filter
    (fun task =>
       match dueDate task with
       | None => false
       | Some d =>
           if Status_eqb (status task) COMPLETED then false
           else (nw <=? d) && (validTime futureDate && (d <=? futureDate))
       end)
    ts.

(** One element of the array [getTaskDependencyChain] returns: the task
    record spread out, with [level] and [canStart] added. *)
Record ChainEntry := mkChainEntry {
  c_task : Task;
  c_level : nat;
  c_canStart : bool
}.

(** A loop body that threads a state and may fail to answer. *)
Fixpoint foldOpt {A S} (f : S -> A -> option S) (l : list A) (s : S)
  : option S :=
  match l with
  | [] => Some s
  | x :: l' =>
      match f s x with
      | None => None
      | Some s' => foldOpt f l' s'
      end
  end.

(** The closure [buildChain] of [getTaskDependencyChain].  It pushes onto
    [chain] and adds to [visited], both shared by all recursive calls: the
    pair is threaded here.  [fuel] bounds the depth of the recursion;
    [buildChain_total] shows that one more than the number of stored tasks
    always suffices. *)
Fixpoint buildChain (fuel : nat) (ts : list Task) (currentTaskId : Z)
    (level : nat) (acc : list ChainEntry * list Z)
  : option (list ChainEntry * list Z) :=
  match fuel with
  | O => None
  | S fuel' =>
      if memZ currentTaskId (snd acc) then Some acc
      else
        match getTask ts currentTaskId with
        | None => Some (fst acc, currentTaskId :: snd acc)
        | Some currentTask =>
            foldOpt
              (fun acc' depId => buildChain fuel' ts depId (S level) acc')
              (dependencies currentTask)
              (fst acc ++
                 [mkChainEntry currentTask level (canStartTask ts currentTaskId)],
               currentTaskId :: snd acc)
        end
  end.

(** [getTaskDependencyChain] *)
Definition getTaskDependencyChain (ts : list Task) (taskId : Z)
  : list ChainEntry :=
  match getTask ts taskId with
  | None => []
  | Some _ =>
      match buildChain (S (length ts)) ts taskId 0 ([], []) with
      | Some acc => fst acc
      | None => []
      end
  end.

(** ** Assignment *)

(** [{ assignedTo }] *)
Definition assignTo (l : list string) : Updates :=
  mkUpdates None None None (Some l) None None None None None None None None
    None None None None None.

(** [unassignTask] *)
Definition unassignTask (env : Env) (taskId : Z) (userEmail : string)
  : M Task :=
  ts <- getTasks ;;
  match getTask ts taskId with
  | None => throw NotFound
  | Some task =>
      let newAssignees :=
        filter (fun email => negb (String.eqb email userEmail))
          (assignedTo task) in
      updateTask env taskId (assignTo newAssignees)
  end.

(** ** Permissions (class PermissionsManager)

    The permissions manager reads and rewrites the user records of the
    authentication system ([authSystem.authorizedUsers]) and reads the
    current user from the session, which holds a copy of the record made at
    login: [getCurrentUser] parses it from local storage at every call.  Of
    a user record only the id, the role and the permission list matter
    here; a record may lack the list. *)

Record User := mkUser {
  uid : string;
  role : string;
  permissions : option (list string)
}.

Record Auth := mkAuth {
  authorizedUsers : list User;
  sessionUser : option User
}.

(** The errors the permission methods throw: the caller is no
    administrator, the user is not found, the record has no permission
    list (a TypeError in the source). *)
Inductive PermError := NotAdministrator | UserNotFound | NoPermissionList.

(** [authorizedUsers.find((u) => u.id === userId)] *)
Definition findUser (us : list User) (userId : string) : option User :=
  find (fun u => String.eqb (uid u) userId) us.

(** A mutation [f] of the object that [find] returns. *)
Fixpoint modifyUser (userId : string) (f : User -> User) (us : list User)
  : list User :=
  match us with
  | [] => []
  | u :: us' =>
      if String.eqb (uid u) userId then f u :: us'
      else u :: modifyUser userId f us'
  end.

Definition set_permissions (v : option (list string)) (u : User) : User :=
  mkUser (uid u) (role u) v.

(** [userId ? authorizedUsers.find(...) : getCurrentUser()]: a missing or
    empty [userId] stands for the current user. *)
Definition subject (a : Auth) (userId : option string) : option User :=
  match userId with
  | Some s =>
      if String.eqb s EmptyString then sessionUser a
      else findUser (authorizedUsers a) s
  | None => sessionUser a
  end.

(** [hasPermission(permission, userId)] *)
Definition hasPermission (a : Auth) (permission : string)
    (userId : option string) : bool :=
  match subject a userId with
  | None => false
  | Some user =>
      match permissions user with
      | None => false
      | Some ps =>
          if includes "admin" ps then true else includes permission ps
      end
  end.

(** [hasAnyPermission] and [hasAllPermissions] *)
Definition hasAnyPermission (a : Auth) (ps : list string)
    (userId : option string) : bool :=
  existsb (fun permission => hasPermission a permission userId) ps.

Definition hasAllPermissions (a : Auth) (ps : list string)
    (userId : option string) : bool :=
  forallb (fun permission => hasPermission a permission userId) ps.

Definition withUsers (a : Auth) (us : list User) : Auth :=
  mkAuth us (sessionUser a).

(** [assignPermission(userId, permission)]: the outcome and the state
    left. *)
Definition assignPermission (userId permission : string) (a : Auth)
  : (PermError + bool) * Auth :=
  if negb (hasPermission a "admin" None) then (inl NotAdministrator, a)
  else
    match findUser (authorizedUsers a) userId with
    | None => (inl UserNotFound, a)
    | Some user =>
        match permissions user with
        | None => (inl NoPermissionList, a)
        | Some ps =>
            if includes permission ps then (inr true, a)
            else
              (inr true,
               withUsers a
                 (modifyUser userId
                    (set_permissions (Some (ps ++ [permission])))
                    (authorizedUsers a)))
        end
    end.

(** [revokePermission(userId, permission)] *)
Definition revokePermission (userId permission : string) (a : Auth)
  : (PermError + bool) * Auth :=
  if negb (hasPermission a "admin" None) then (inl NotAdministrator, a)
  else
    match findUser (authorizedUsers a) userId with
    | None => (inl UserNotFound, a)
    | Some user =>
        match permissions user with
        | None => (inl NoPermissionList, a)
        | Some ps =>
            (inr true,
             withUsers a
               (modifyUser userId
                  (set_permissions
                     (Some (filter (fun p => negb (String.eqb p permission))
                              ps)))
                  (authorizedUsers a)))
        end
    end.

(** * Vocabulary of the further properties *)

(** No task reaches itself along dependency edges. *)
Definition acyclic (ts : list Task) : Prop := forall x, ~ chain ts x x.

(** An operation that does not overwrite the [id] of a record. *)
Definition keepsId (op : Env * Op) : Prop :=
  match snd op with
  | OpUpdateTask _ updates => u_id updates = None
  | _ => True
  end.

(** The notification [sendTaskNotification] stores. *)
Definition notificationOf (env : Env) (t : Task) (ty : NotificationType)
    (target : option string) : Notification :=
  mkNotification (now env) (id t) ty target (now env) (priority t).

(** [{ dependencies }] *)
Definition dependOn (l : list Z) : Updates :=
  mkUpdates None None None None None None None None None None (Some l) None
    None None None None None.

(** The notifications one [updateTask] call stores when the task is found
    as [oldTask]: one for a changed status, then one for each newly added
    assignee. *)
Definition updateNotes (env : Env) (oldTask : Task) (u : Updates)
  : list Notification :=
  let upd := updatedRecord (now env) oldTask u in
  match u_status u with
  | Some s =>
      if Status_eqb s (status oldTask) then []
      else [notificationOf env upd status_changed None]
  | None => []
  end
  ++
  match u_assignedTo u with
  | Some l =>
      if list_eq_dec string_dec l (assignedTo oldTask) then []
      else
        map (fun email => notificationOf env upd assigned (Some email))
          (filter (fun email => negb (includes email (assignedTo oldTask))) l)
  | None => []
  end.

(** A schedule for which the tick creates an instance at time [nw]. *)
Definition isDue (nw : Z) (s : RecurringSchedule) : bool :=
  isActive s && negb (expired nw s) && (nextDue s <=? nw).

(** The schedule object after the callback of the tick has run on it, when
    the instance it may have created got the id [newId]. *)
Definition tickSchedule (nw : Z) (s : RecurringSchedule) (newId : Z)
  : RecurringSchedule :=
  if negb (isActive s) then s
  else if expired nw s then deactivate s
  else if nextDue s <=? nw
       then advanced s newId (dateAfter (template s) (nextDue s))
       else s.


(** The id of the task an entry of the dependency chain was made from. *)
Definition cid (e : ChainEntry) : Z := id (c_task e).

(** What a run of [buildChain] (or of the loop over a task's dependencies)
    started from the ids [R] adds: [new] to the chain and the difference
    between [vis] and [vis'] to the visited set.  The new entries are stored
    tasks with their readiness, one for each stored id newly visited; the
    ids started from are visited; the dependencies of a newly visited stored
    task are visited; and every id newly visited is one started from or is
    reached from one along a dependency chain. *)
Definition grows (ts : list Task) (R : Z -> Prop) (vis : list Z)
    (new : list ChainEntry) (vis' : list Z) : Prop :=
  incl vis vis'
  /\ (forall e, In e new ->
        getTask ts (cid e) = Some (c_task e)
        /\ c_canStart e = canStartTask ts (cid e)
        /\ In (cid e) vis' /\ ~ In (cid e) vis)
  /\ NoDup (map cid new)
  /\ (forall x t, In x vis' -> ~ In x vis -> getTask ts x = Some t ->
        In x (map cid new)
        /\ forall d, In d (dependencies t) -> In d vis')
  /\ (forall r, R r -> In r vis')
  /\ (forall x, In x vis' -> ~ In x vis ->
        exists r, R r /\ (x = r \/ chain ts r x)).

(** The two mutating operations of the permissions manager. *)
Inductive PermOp :=
| OpAssign (userId permission : string)
| OpRevoke (userId permission : string).

Definition runPermOp (op : PermOp) (a : Auth) : (PermError + bool) * Auth :=
  match op with
  | OpAssign userId permission => assignPermission userId permission a
  | OpRevoke userId permission => revokePermission userId permission a
  end.

(** A sequence of calls: the outcome of each, and the state left. *)
Fixpoint runPermOps (ops : list PermOp) (a : Auth)
  : list (PermError + bool) * Auth :=
  match ops with
  | [] => ([], a)
  | op :: ops' =>
      let (r, a1) := runPermOp op a in
      let (rs, a2) := runPermOps ops' a1 in
      (r :: rs, a2)
  end.

(** The first three user records of [authSystem], with the first one signed
    in. *)
Definition ceo : User :=
  mkUser "EMP001" "SpongeLord" (Some ["admin"; "hr"; "finance"; "operations"])%string.

Definition hrManager : User :=
  mkUser "EMP002" "HR Manager" (Some ["hr"; "admin"; "users"])%string.

Definition hrSpecialist : User :=
  mkUser "EMP003" "HR Specialist" (Some ["hr"; "users"])%string.

Definition authCeo : Auth := mkAuth [ceo; hrManager; hrSpecialist] (Some ceo).



(** * Properties *)

(** ** Calendar arithmetic, checked on three dates *)

Example addMonths_jan31_2024 :
  addMonths (daysFromCivil 2024 1 31 * msPerDay + 5) 1
  = daysFromCivil 2024 3 2 * msPerDay + 5.
Proof. reflexivity. Qed.

Example civil_roundtrip_2026_11_02 :
  civilFromDays (daysFromCivil 2026 11 2) = (2026, 11, 2).
Proof. reflexivity. Qed.

Example addYears_leap_day :
  addYears (daysFromCivil 2024 2 29 * msPerDay) 1
  = daysFromCivil 2025 3 1 * msPerDay.
Proof. reflexivity. Qed.

(** ** The task array: lookup and in-place mutation *)

Lemma Status_eqb_eq (a b : Status) : Status_eqb a b = true <-> a = b.
Proof.
  unfold Status_eqb. destruct (Status_eq_dec a b); split; congruence.
Qed.

Lemma Status_eqb_refl (a : Status) : Status_eqb a a = true.
Proof. now apply Status_eqb_eq. Qed.

Lemma Status_eqb_neq (a b : Status) : Status_eqb a b = false <-> a <> b.
Proof.
  unfold Status_eqb. destruct (Status_eq_dec a b); split; congruence.
Qed.

Lemma memZ_In (x : Z) (l : list Z) : memZ x l = true <-> In x l.
Proof.
  unfold memZ. rewrite existsb_exists. split.
  - intros [y [Hy E]]. apply Z.eqb_eq in E. now subst.
  - intros H. exists x. split; [assumption | apply Z.eqb_refl].
Qed.

Lemma memZ_not_In (x : Z) (l : list Z) : memZ x l = false <-> ~ In x l.
Proof.
  rewrite <- memZ_In. destruct (memZ x l); split; congruence.
Qed.

Lemma In_without (x y : Z) (l : list Z) :
  In y (without x l) <-> In y l /\ y <> x.
Proof.
  unfold without. rewrite filter_In, negb_true_iff, Z.eqb_neq. tauto.
Qed.

Lemma In_pushNew (x y : Z) (l : list Z) :
  In y (pushNew x l) <-> In y l \/ y = x.
Proof.
  unfold pushNew. destruct (memZ x l) eqn:E.
  - apply memZ_In in E. split; [tauto | intros [H | ->]; assumption].
  - rewrite in_app_iff. simpl. intuition congruence.
Qed.

Lemma getTask_Some (ts : list Task) (x : Z) (t : Task) :
  getTask ts x = Some t -> In t ts /\ id t = x.
Proof.
  unfold getTask. intros H. apply find_some in H.
  destruct H as [H1 H2]. apply Z.eqb_eq in H2. now split.
Qed.

Lemma getTask_None (ts : list Task) (x : Z) :
  getTask ts x = None <-> ~ In x (map id ts).
Proof.
  unfold getTask. induction ts as [| t ts IH]; simpl.
  - tauto.
  - destruct (id t =? x) eqn:E.
    + apply Z.eqb_eq in E. split; [discriminate | tauto].
    + apply Z.eqb_neq in E. rewrite IH. tauto.
Qed.

Lemma getTask_In_ids (ts : list Task) (x : Z) :
  In x (map id ts) -> exists t, getTask ts x = Some t.
Proof.
  intros H. destruct (getTask ts x) as [t |] eqn:E.
  - now exists t.
  - apply getTask_None in E. contradiction.
Qed.

Lemma getTask_app (ts ts' : list Task) (x : Z) :
  getTask (ts ++ ts') x =
  match getTask ts x with
  | Some t => Some t
  | None => getTask ts' x
  end.
Proof.
  unfold getTask. induction ts as [| t ts IH]; simpl.
  - reflexivity.
  - destruct (id t =? x); [reflexivity | apply IH].
Qed.

Lemma getTask_map (f : Task -> Task) (ts : list Task) (x : Z) :
  (forall t, id (f t) = id t) ->
  getTask (map f ts) x = option_map f (getTask ts x).
Proof.
  intros Hf. unfold getTask. induction ts as [| t ts IH]; simpl.
  - reflexivity.
  - rewrite Hf. destruct (id t =? x); [reflexivity | apply IH].
Qed.

Lemma getTask_modifyTask (a : Z) (f : Task -> Task) (ts : list Task) (x : Z) :
  (forall t, id (f t) = id t) ->
  getTask (modifyTask a f ts) x =
  if x =? a then option_map f (getTask ts x) else getTask ts x.
Proof.
  intros Hf. unfold getTask. induction ts as [| t ts IH]; simpl.
  - now destruct (x =? a).
  - destruct (id t =? a) eqn:Ea; simpl.
    + rewrite Hf. apply Z.eqb_eq in Ea.
      destruct (id t =? x) eqn:Ex.
      * apply Z.eqb_eq in Ex.
        assert ((x =? a) = true) as -> by (apply Z.eqb_eq; congruence).
        reflexivity.
      * apply Z.eqb_neq in Ex.
        assert ((x =? a) = false) as -> by (apply Z.eqb_neq; congruence).
        reflexivity.
    + destruct (id t =? x) eqn:Ex.
      * apply Z.eqb_eq in Ex. apply Z.eqb_neq in Ea.
        assert ((x =? a) = false) as -> by (apply Z.eqb_neq; congruence).
        reflexivity.
      * apply IH.
Qed.

Lemma map_id_modifyTask (a : Z) (f : Task -> Task) (ts : list Task) :
  (forall t, id (f t) = id t) ->
  map id (modifyTask a f ts) = map id ts.
Proof.
  intros Hf. induction ts as [| t ts IH]; simpl.
  - reflexivity.
  - destruct (id t =? a); simpl; [now rewrite Hf | now rewrite IH].
Qed.

Lemma findIndex_Some (ts : list Task) (x : Z) (i : nat) :
  findIndex ts x = Some i ->
  exists t, nth_error ts i = Some t /\ getTask ts x = Some t.
Proof.
  revert i. unfold getTask. induction ts as [| t ts IH]; simpl; intros i H.
  - discriminate.
  - destruct (id t =? x) eqn:E.
    + injection H as <-. now exists t.
    + destruct (findIndex ts x) as [j |]; [| discriminate].
      injection H as <-. simpl. now apply IH.
Qed.

Lemma findIndex_None (ts : list Task) (x : Z) :
  findIndex ts x = None <-> getTask ts x = None.
Proof.
  unfold getTask. induction ts as [| t ts IH]; simpl.
  - tauto.
  - destruct (id t =? x).
    + split; discriminate.
    + destruct (findIndex ts x); simpl in *; [| tauto].
      split; [discriminate |]. intros H. apply IH in H. discriminate.
Qed.

Lemma getTask_setAt (ts : list Task) (x : Z) (i : nat) (v : Task) (y : Z) :
  findIndex ts x = Some i -> id v = x ->
  getTask (setAt i v ts) y = if y =? x then Some v else getTask ts y.
Proof.
  revert i. unfold getTask. induction ts as [| t ts IH]; simpl; intros i H Hv.
  - discriminate.
  - destruct (id t =? x) eqn:E.
    + injection H as <-. simpl. rewrite Hv. apply Z.eqb_eq in E.
      rewrite (Z.eqb_sym y x), E. now destruct (x =? y).
    + destruct (findIndex ts x) as [j |]; [| discriminate].
      injection H as <-. simpl.
      destruct (id t =? y) eqn:Ey.
      * apply Z.eqb_eq in Ey. apply Z.eqb_neq in E.
        assert ((y =? x) = false) as -> by (apply Z.eqb_neq; congruence).
        reflexivity.
      * now apply IH.
Qed.

Lemma map_id_setAt (ts : list Task) (i : nat) (v t : Task) :
  nth_error ts i = Some t -> id v = id t ->
  map id (setAt i v ts) = map id ts.
Proof.
  revert i. induction ts as [| t0 ts IH]; intros [| i] H Hv; simpl in *;
    try discriminate.
  - injection H as ->. now rewrite Hv.
  - f_equal. now apply IH.
Qed.

Lemma sweep1_id nw t : id (sweep1 nw t) = id t.
Proof. unfold sweep1. now destruct (isLate nw t). Qed.

Lemma sweep1_dependencies nw t : dependencies (sweep1 nw t) = dependencies t.
Proof. unfold sweep1. now destruct (isLate nw t). Qed.

Lemma sweep1_dependents nw t : dependents (sweep1 nw t) = dependents t.
Proof. unfold sweep1. now destruct (isLate nw t). Qed.

Lemma sweep1_dueDate nw t : dueDate (sweep1 nw t) = dueDate t.
Proof. unfold sweep1. now destruct (isLate nw t). Qed.

Lemma sweep1_completed nw t :
  status t = COMPLETED -> status (sweep1 nw t) = COMPLETED.
Proof.
  intros H. unfold sweep1, isLate. rewrite H.
  destruct (dueDate t); [| assumption].
  rewrite Status_eqb_refl. simpl. rewrite andb_false_r. assumption.
Qed.

Lemma getTask_sweep nw ts x :
  getTask (updateTaskStatuses nw ts) x = option_map (sweep1 nw) (getTask ts x).
Proof. apply (getTask_map (sweep1 nw)), sweep1_id. Qed.

Lemma map_id_sweep nw ts : map id (updateTaskStatuses nw ts) = map id ts.
Proof.
  unfold updateTaskStatuses. rewrite map_map. apply map_ext, sweep1_id.
Qed.

(** ** C10, C9: readiness *)

(** C10. For a task id that is absent from the store, [canStartTask] answers
    [false]; being a total function, it raises no error on any id. *)
Theorem canStartTask_absent (ts : list Task) (taskId : Z) :
  getTask ts taskId = None -> canStartTask ts taskId = false.
Proof.
  intros H. unfold canStartTask. now rewrite H.
Qed.

(** No id resolves in the empty store. *)
Lemma canStartTask_absent_witness :
  getTask [] 7 = None /\ canStartTask [] 7 = false.
Proof.
  split; [reflexivity | apply canStartTask_absent; reflexivity].
Defined.

Lemma canStartTask_iff (ts : list Task) (taskId : Z) (t : Task) :
  getTask ts taskId = Some t ->
  canStartTask ts taskId = true <-> allCompleted ts t.
Proof.
  intros H. unfold canStartTask, allCompleted. rewrite H, forallb_forall.
  split.
  - intros A depId Hin. specialize (A depId Hin).
    destruct (getTask ts depId) as [d |]; [| discriminate].
    exists d. split; [reflexivity | now apply Status_eqb_eq].
  - intros A depId Hin. destruct (A depId Hin) as [d [-> Hd]].
    now apply Status_eqb_eq.
Qed.

(** ** Running [updateTask] *)

Lemma forEach_notifications env task (l : list string) (st : TM) :
  exists nots,
    forEach l (fun email => sendTaskNotification env task assigned (Some email)) st
    = (Return tt, mkTM (tasks st) (recurringTasks st) nots).
Proof.
  revert st. induction l as [| x l IH]; intros st; simpl.
  - exists (taskNotifications st). now destruct st.
  - unfold bind, sendTaskNotification at 1. simpl.
    destruct (IH (mkTM (tasks st) (recurringTasks st)
                    (taskNotifications st ++
                       [mkNotification (now env) (id task) assigned (Some x)
                          (now env) (priority task)]))) as [nots ->].
    now exists nots.
Qed.

Lemma updateTask_absent env (a : Z) (u : Updates) (st : TM) :
  getTask (tasks st) a = None ->
  updateTask env a u st = (Throw NotFound, st).
Proof.
  intros H. apply findIndex_None in H.
  unfold updateTask, bind, getTasks. now rewrite H.
Qed.

Lemma updateTask_plain env (a : Z) (u : Updates) (st : TM) (i : nat)
    (oldTask : Task) :
  findIndex (tasks st) a = Some i ->
  nth_error (tasks st) i = Some oldTask ->
  u_dependencies u = None ->
  exists nots,
    updateTask env a u st =
    (Return
       (nth i (updateTaskStatuses (now env)
                 (setAt i (updatedRecord (now env) oldTask u) (tasks st)))
          (updatedRecord (now env) oldTask u)),
     mkTM
       (updateTaskStatuses (now env)
          (setAt i (updatedRecord (now env) oldTask u) (tasks st)))
       (recurringTasks st) nots).
Proof.
  intros Hi Hn Hd.
  unfold updateTask, bind at 1, getTasks. rewrite Hi, Hn, Hd.
  set (merged := merge (now env) oldTask u).
  assert (exists nots1,
    match u_status u with
    | Some s =>
        if Status_eqb s (status oldTask) then ret merged
        else handleStatusChange env merged (status oldTask) s
    | None => ret merged
    end st
    = (Return (updatedRecord (now env) oldTask u),
       mkTM (tasks st) (recurringTasks st) nots1)) as [nots1 E1].
  { unfold updatedRecord. fold merged.
    destruct (u_status u) as [s |].
    - destruct (Status_eqb s (status oldTask)).
      + exists (taskNotifications st). unfold ret. now destruct st.
      + unfold handleStatusChange, bind, sendTaskNotification, ret.
        eexists. reflexivity.
    - exists (taskNotifications st). unfold ret. now destruct st. }
  unfold bind at 1. rewrite E1.
  set (upd := updatedRecord (now env) oldTask u).
  assert (exists nots2,
    match u_assignedTo u with
    | Some a0 =>
        if list_eq_dec string_dec a0 (assignedTo oldTask) then ret tt
        else handleAssignmentChange env upd (assignedTo oldTask) a0
    | None => ret tt
    end (mkTM (tasks st) (recurringTasks st) nots1)
    = (Return tt, mkTM (tasks st) (recurringTasks st) nots2)) as [nots2 E2].
  { destruct (u_assignedTo u) as [a0 |].
    - destruct (list_eq_dec string_dec a0 (assignedTo oldTask)).
      + now exists nots1.
      + unfold handleAssignmentChange.
        destruct (forEach_notifications env upd
                    (filter (fun email => negb (includes email (assignedTo oldTask))) a0)
                    (mkTM (tasks st) (recurringTasks st) nots1)) as [n2 ->].
        now exists n2.
    - now exists nots1. }
  unfold bind at 1. rewrite E2.
  exists nots2. reflexivity.
Qed.

Lemma merge_id_same nw t u : u_id u = None -> id (merge nw t u) = id t.
Proof. intros H. simpl. now rewrite H. Qed.

Lemma updatedRecord_id nw t u :
  u_id u = None -> id (updatedRecord nw t u) = id t.
Proof.
  intros H. unfold updatedRecord.
  destruct (u_status u) as [s |]; [| now apply merge_id_same].
  destruct (Status_eqb s (status t)); [now apply merge_id_same |].
  destruct (Status_eqb s COMPLETED); simpl; now rewrite H.
Qed.

Lemma updatedRecord_dependencies nw t u :
  u_dependencies u = None ->
  dependencies (updatedRecord nw t u) = dependencies t.
Proof.
  intros H. unfold updatedRecord.
  destruct (u_status u) as [s |]; [| simpl; now rewrite H].
  destruct (Status_eqb s (status t)); [simpl; now rewrite H |].
  destruct (Status_eqb s COMPLETED); simpl; now rewrite H.
Qed.

Lemma updatedRecord_completes nw t u :
  u_status u = Some COMPLETED ->
  status (updatedRecord nw t u) = COMPLETED.
Proof.
  intros H. unfold updatedRecord. rewrite H.
  destruct (Status_eqb COMPLETED (status t)); simpl; now rewrite H.
Qed.

(** C9. For a task [t] stored under [taskId]: [canStartTask] answers [true]
    exactly when every id in [t.dependencies] resolves to a stored task whose
    status is COMPLETED; with no dependencies it answers [true]; and when [d]
    is the only dependency that is not completed, the answer is [false] and
    becomes [true] once an update has set [d]'s status to COMPLETED. *)
Theorem canStartTask_readiness env (st : TM) (taskId : Z) (t : Task) :
  getTask (tasks st) taskId = Some t ->
  (canStartTask (tasks st) taskId = true <-> allCompleted (tasks st) t)
  /\ (dependencies t = [] -> canStartTask (tasks st) taskId = true)
  /\ (forall (d : Z) (dt : Task) (u : Updates),
        In d (dependencies t) ->
        getTask (tasks st) d = Some dt ->
        status dt <> COMPLETED ->
        (forall e, In e (dependencies t) -> e <> d ->
           exists de, getTask (tasks st) e = Some de /\ status de = COMPLETED) ->
        u_status u = Some COMPLETED ->
        u_id u = None ->
        u_dependencies u = None ->
        canStartTask (tasks st) taskId = false
        /\ exists r st',
             updateTask env d u st = (Return r, st')
             /\ status r = COMPLETED
             /\ canStartTask (tasks st') taskId = true).
Proof.
  intros Ht. split; [now apply canStartTask_iff |]. split.
  - intros E. apply (canStartTask_iff _ _ _ Ht). intros x Hx.
    rewrite E in Hx. destruct Hx.
  - intros d dt u Hin Hd Hnc Hothers Hs Hid Hdeps. split.
    + destruct (canStartTask (tasks st) taskId) eqn:E; [| reflexivity].
      apply (canStartTask_iff _ _ _ Ht) in E.
      destruct (E d Hin) as [d' [Hd' Hc]]. congruence.
    + destruct (findIndex (tasks st) d) as [i |] eqn:Hi.
      2:{ apply findIndex_None in Hi. congruence. }
      destruct (findIndex_Some _ _ _ Hi) as [old [Hn Hg]].
      assert (old = dt) as -> by congruence.
      destruct (updateTask_plain env d u st i dt Hi Hn Hdeps) as [nots ->].
      set (upd := updatedRecord (now env) dt u).
      assert (Hupd_id : id upd = d).
      { unfold upd. rewrite updatedRecord_id by assumption.
        now destruct (getTask_Some _ _ _ Hd). }
      assert (Hlook : forall y,
        getTask (updateTaskStatuses (now env) (setAt i upd (tasks st))) y
        = option_map (sweep1 (now env))
            (if y =? d then Some upd else getTask (tasks st) y)).
      { intros y. rewrite getTask_sweep. f_equal.
        now apply getTask_setAt. }
      eexists. eexists. split; [reflexivity |]. split.
      * assert (Hnth : nth_error
          (updateTaskStatuses (now env) (setAt i upd (tasks st))) i
          = Some (sweep1 (now env) upd)).
        { unfold updateTaskStatuses. rewrite nth_error_map.
          clear - Hn. revert i Hn.
          induction (tasks st) as [| t0 l IH]; intros [| i] Hn; simpl in *;
            try discriminate; [reflexivity | now apply IH]. }
        rewrite (nth_error_nth _ _ _ Hnth).
        apply sweep1_completed, updatedRecord_completes, Hs.
      * simpl.
        assert (exists t', getTask
          (updateTaskStatuses (now env) (setAt i upd (tasks st))) taskId
          = Some t' /\ dependencies t' = dependencies t) as [t' [Ht' Hdt']].
        { rewrite Hlook. destruct (taskId =? d) eqn:E.
          - apply Z.eqb_eq in E. subst taskId.
            assert (t = dt) as -> by congruence.
            eexists. split; [reflexivity |].
            rewrite sweep1_dependencies. unfold upd.
            now apply updatedRecord_dependencies.
          - rewrite Ht. eexists. split; [reflexivity |].
            apply sweep1_dependencies. }
        apply (canStartTask_iff _ _ _ Ht'). intros e He.
        rewrite Hdt' in He. rewrite Hlook.
        destruct (e =? d) eqn:E.
        -- eexists. split; [reflexivity |].
           apply sweep1_completed, updatedRecord_completes, Hs.
        -- apply Z.eqb_neq in E.
           destruct (Hothers e He E) as [de [-> Hc]].
           eexists. split; [reflexivity |]. now apply sweep1_completed.
Qed.

(** Scenario A of the specification, run on [storeChain]. *)
Lemma canStartTask_readiness_witness :
  canStartTask (tasks storeChain) 1 = true
  /\ canStartTask (tasks storeChain) 2 = false
  /\ exists r st',
       updateTask env0 1 completeIt storeChain = (Return r, st')
       /\ status r = COMPLETED
       /\ canStartTask (tasks st') 2 = true.
Proof.
  destruct (getTask (tasks storeChain) 1) as [t1 |] eqn:E1;
    [| vm_compute in E1; discriminate].
  destruct (getTask (tasks storeChain) 2) as [t2 |] eqn:E2;
    [| vm_compute in E2; discriminate].
  destruct (canStartTask_readiness env0 storeChain 1 t1 E1) as (_ & H1 & _).
  destruct (canStartTask_readiness env0 storeChain 2 t2 E2) as (_ & _ & H2).
  assert (D1 : dependencies t1 = []).
  { vm_compute in E1. injection E1 as <-. reflexivity. }
  assert (D2 : dependencies t2 = [1]).
  { vm_compute in E2. injection E2 as <-. reflexivity. }
  split; [exact (H1 D1) |].
  apply (H2 1 t1 completeIt).
  - rewrite D2. now left.
  - exact E1.
  - vm_compute in E1. injection E1 as <-. discriminate.
  - intros e He Hne. rewrite D2 in He. destruct He as [<- | []]. congruence.
  - reflexivity.
  - reflexivity.
  - reflexivity.
Defined.

(** ** The dependency operations as functions of the task array

    [addTaskDependency], [removeTaskDependency] and [updateTaskDependencies]
    read and write [this.tasks] only.  Their effect on the array is isolated
    here, so that the graph properties can be proved on lists. *)

Lemma TM_eta (st : TM) :
  mkTM (tasks st) (recurringTasks st) (taskNotifications st) = st.
Proof. now destruct st. Qed.

Lemma withTasks_same (st : TM) : withTasks st (tasks st) = st.
Proof. apply TM_eta. Qed.

Lemma tasks_withTasks (st : TM) (ts : list Task) : tasks (withTasks st ts) = ts.
Proof. reflexivity. Qed.

Lemma withTasks_withTasks (st : TM) (ts ts' : list Task) :
  withTasks (withTasks st ts) ts' = withTasks st ts'.
Proof. reflexivity. Qed.

Lemma removeTaskDependency_run env a b st :
  removeTaskDependency env a b st
  = (Return true, withTasks st (removeEdgeTasks (now env) a b (tasks st))).
Proof. reflexivity. Qed.

Lemma addTaskDependency_run env a b st :
  addTaskDependency env a b st =
  match tryAddEdge (now env) a b (tasks st) with
  | inl e => (Throw e, st)
  | inr ts' => (Return true, withTasks st ts')
  end.
Proof.
  unfold addTaskDependency, tryAddEdge, bind, getTasks.
  destruct (getTask (tasks st) a); [| reflexivity].
  destruct (getTask (tasks st) b); [| reflexivity].
  destruct (wouldCreateCircularDependency (tasks st) a b); reflexivity.
Qed.

Lemma forEach_remove_run env a l st :
  forEach l (fun depId => removeTaskDependency env a depId ;; ret tt) st
  = (Return tt, withTasks st (removeEdges (now env) a l (tasks st))).
Proof.
  revert st. induction l as [| b l IH]; intros st; simpl.
  - unfold ret. now rewrite withTasks_same.
  - unfold bind at 1. unfold bind at 1. rewrite removeTaskDependency_run.
    unfold ret at 1. rewrite IH. reflexivity.
Qed.

Lemma forEach_add_run env a l st :
  forEach l (fun depId => addTaskDependency env a depId ;; ret tt) st
  = (finished (fst (addEdges (now env) a l (tasks st))) tt,
     withTasks st (snd (addEdges (now env) a l (tasks st)))).
Proof.
  revert st. induction l as [| b l IH]; intros st; simpl.
  - unfold ret. now rewrite withTasks_same.
  - unfold bind at 1. unfold bind at 1. rewrite addTaskDependency_run.
    destruct (tryAddEdge (now env) a b (tasks st)) as [e | ts'] eqn:E; simpl.
    + now rewrite withTasks_same.
    + unfold ret at 1. rewrite IH. reflexivity.
Qed.

Lemma updateTaskDependencies_run env a l st :
  updateTaskDependencies env a l st
  = (finished (fst (updateDependenciesTasks (now env) a l (tasks st))) tt,
     withTasks st (snd (updateDependenciesTasks (now env) a l (tasks st)))).
Proof.
  unfold updateTaskDependencies, updateDependenciesTasks, bind at 1, getTasks.
  destruct (getTask (tasks st) a) as [task |].
  - unfold bind at 1. rewrite forEach_remove_run, forEach_add_run.
    reflexivity.
  - unfold ret. simpl. now rewrite withTasks_same.
Qed.

Lemma bind_Return {A B} (m : M A) (k : A -> M B) st a st' :
  m st = (Return a, st') -> bind m k st = k a st'.
Proof. intros H. unfold bind. now rewrite H. Qed.

Lemma bind_Throw {A B} (m : M A) (k : A -> M B) st e st' :
  m st = (Throw e, st') -> bind m k st = (Throw e, st').
Proof. intros H. unfold bind. now rewrite H. Qed.

Lemma calculateNextDueDate_run task fromDate st :
  calculateNextDueDate task fromDate st =
  if nextDateValid task fromDate
  then (Return (dateAfter task fromDate), st)
  else (Throw RangeError, st).
Proof.
  unfold calculateNextDueDate, nextDateValid.
  destruct (validTime fromDate && validTime (dateAfter task fromDate));
    reflexivity.
Qed.

(** [createTask] as a function of the store: the error of the dependency
    loop, or the RangeError of a recurring task whose next due date is no
    time value, or the record with its schedule and its notification. *)
Lemma createTask_run env taskData st :
  createTask env taskData st =
  let newTask := newTaskOf env (tasks st) taskData in
  match createTaskTasks env taskData (tasks st) with
  | (Some e, ts3) => (Throw e, withTasks st ts3)
  | (None, ts3) =>
      let t := last ts3 newTask in
      if isRecurring t && negb (nextDateValid t (now env))
      then (Throw RangeError, withTasks st ts3)
      else
        (Return t,
         mkTM ts3
           (if isRecurring t
            then recurringTasks st
                 ++ [scheduleOf env t (dateAfter t (now env))]
            else recurringTasks st)
           (taskNotifications st ++
              [mkNotification (now env) (id t) created None (now env)
                 (priority t)]))
  end.
Proof.
  unfold createTask, createTaskTasks.
  rewrite (bind_Return getTasks _ st (tasks st) st eq_refl).
  cbv zeta.
  set (newTask := newTaskOf env (tasks st) taskData).
  set (ts1 := updateTaskStatuses (now env) (tasks st ++ [newTask])).
  erewrite bind_Return; [| reflexivity].
  erewrite bind_Return; [| reflexivity].
  cbn [tasks recurringTasks taskNotifications].
  fold ts1. fold (withTasks st ts1).
  assert (Hfin : forall ts3,
    (t <- newest newTask ;;
     (if isRecurring t
      then createRecurringTaskSchedule env t ;; ret tt
      else ret tt) ;;
     sendTaskNotification env t created None ;;
     ret t) (withTasks st ts3)
    = if isRecurring (last ts3 newTask)
         && negb (nextDateValid (last ts3 newTask) (now env))
      then (Throw RangeError, withTasks st ts3)
      else
        (Return (last ts3 newTask),
         mkTM ts3
           (if isRecurring (last ts3 newTask)
            then recurringTasks st
                 ++ [scheduleOf env (last ts3 newTask)
                       (dateAfter (last ts3 newTask) (now env))]
            else recurringTasks st)
           (taskNotifications st ++
              [mkNotification (now env) (id (last ts3 newTask)) created None
                 (now env) (priority (last ts3 newTask))]))).
  { intros ts3.
    erewrite bind_Return; [| reflexivity]. simpl tasks.
    destruct (isRecurring (last ts3 newTask)); [| reflexivity].
    unfold createRecurringTaskSchedule.
    unfold bind at 1. unfold bind at 1. unfold bind at 1.
    rewrite calculateNextDueDate_run.
    destruct (nextDateValid (last ts3 newTask) (now env)); reflexivity. }
  destruct (dependencies newTask) as [| d l] eqn:Ed.
  - erewrite bind_Return; [| reflexivity].
    apply Hfin.
  - destruct (updateDependenciesTasks (now env) (id newTask) (d :: l) ts1)
      as [[e |] ts3] eqn:Eu.
    + apply bind_Throw. rewrite updateTaskDependencies_run.
      rewrite tasks_withTasks, Eu. reflexivity.
    + erewrite bind_Return.
      * apply Hfin.
      * rewrite updateTaskDependencies_run.
        rewrite tasks_withTasks, Eu. reflexivity.
Qed.

(** Whatever its outcome, [createTask] leaves the array that the push and the
    dependency loop have produced. *)
Lemma tasks_createTask env taskData st :
  tasks (snd (createTask env taskData st))
  = snd (createTaskTasks env taskData (tasks st)).
Proof.
  rewrite createTask_run. cbv zeta.
  destruct (createTaskTasks env taskData (tasks st)) as [[e |] ts3];
    [reflexivity |].
  simpl snd.
  destruct (isRecurring _ && negb _); reflexivity.
Qed.

(** A call of [createTask] that returns: the dependency loop has not thrown
    and the next due date of a recurring task is a time value. *)
Lemma createTask_Return env taskData st r st' :
  createTask env taskData st = (Return r, st') ->
  let ts3 := snd (createTaskTasks env taskData (tasks st)) in
  fst (createTaskTasks env taskData (tasks st)) = None
  /\ r = last ts3 (newTaskOf env (tasks st) taskData)
  /\ (isRecurring r = true -> nextDateValid r (now env) = true)
  /\ st' = mkTM ts3
             (if isRecurring r
              then recurringTasks st
                   ++ [scheduleOf env r (dateAfter r (now env))]
              else recurringTasks st)
             (taskNotifications st ++
                [mkNotification (now env) (id r) created None (now env)
                   (priority r)]).
Proof.
  rewrite createTask_run. cbv zeta.
  destruct (createTaskTasks env taskData (tasks st)) as [[e |] ts3];
    [discriminate |].
  simpl fst. simpl snd.
  destruct (isRecurring (last ts3 _)) eqn:Er; simpl andb.
  - destruct (nextDateValid _ (now env)) eqn:Ev; simpl negb; cbv iota;
      [| discriminate].
    intros H. injection H as <- <-. rewrite Er, Ev. now repeat split.
  - intros H. injection H as <- <-. rewrite Er.
    repeat split. discriminate.
Qed.

(** A call of [createTask] that throws: the error of the dependency loop, or
    the RangeError of the schedule; the array is the one the loop has left
    and nothing else has been written. *)
Lemma createTask_Throw env taskData st e st' :
  createTask env taskData st = (Throw e, st') ->
  let ts3 := snd (createTaskTasks env taskData (tasks st)) in
  st' = withTasks st ts3
  /\ (fst (createTaskTasks env taskData (tasks st)) = Some e
      \/ (fst (createTaskTasks env taskData (tasks st)) = None
          /\ e = RangeError
          /\ isRecurring (last ts3 (newTaskOf env (tasks st) taskData)) = true
          /\ nextDateValid (last ts3 (newTaskOf env (tasks st) taskData))
               (now env) = false)).
Proof.
  rewrite createTask_run. cbv zeta.
  destruct (createTaskTasks env taskData (tasks st)) as [[e0 |] ts3];
    simpl fst; simpl snd.
  - intros H. injection H as <- <-. split; [reflexivity | now left].
  - destruct (isRecurring (last ts3 _)) eqn:Er; simpl andb;
      [| discriminate].
    destruct (nextDateValid _ (now env)) eqn:Ev; simpl negb; cbv iota;
      [discriminate |].
    intros H. injection H as <- <-. split; [reflexivity |].
    right. now repeat split.
Qed.

(** ** C7: identifiers *)

Lemma set_dependencies_id v t : id (set_dependencies v t) = id t.
Proof. reflexivity. Qed.

Lemma set_dependents_id v t : id (set_dependents v t) = id t.
Proof. reflexivity. Qed.

Lemma map_id_removeEdgeTasks nw a b ts :
  map id (removeEdgeTasks nw a b ts) = map id ts.
Proof.
  unfold removeEdgeTasks.
  rewrite map_id_sweep, !map_id_modifyTask; reflexivity.
Qed.

Lemma map_id_addEdgeTasks nw a b ts :
  map id (addEdgeTasks nw a b ts) = map id ts.
Proof.
  unfold addEdgeTasks.
  rewrite map_id_sweep, !map_id_modifyTask; reflexivity.
Qed.

Lemma map_id_removeEdges nw a l ts :
  map id (removeEdges nw a l ts) = map id ts.
Proof.
  unfold removeEdges. revert ts.
  induction l as [| b l IH]; intros ts; simpl; [reflexivity |].
  rewrite IH. apply map_id_removeEdgeTasks.
Qed.

Lemma tryAddEdge_inr nw a b ts ts' :
  tryAddEdge nw a b ts = inr ts' ->
  ts' = addEdgeTasks nw a b ts
  /\ (exists ta, getTask ts a = Some ta)
  /\ (exists tb, getTask ts b = Some tb)
  /\ wouldCreateCircularDependency ts a b = false.
Proof.
  unfold tryAddEdge.
  destruct (getTask ts a) as [ta |]; [| discriminate].
  destruct (getTask ts b) as [tb |]; [| discriminate].
  destruct (wouldCreateCircularDependency ts a b); [discriminate |].
  intros H. injection H as <-.
  split; [reflexivity |]. split; [now exists ta |].
  split; [now exists tb | reflexivity].
Qed.

Lemma map_id_addEdges nw a l ts :
  map id (snd (addEdges nw a l ts)) = map id ts.
Proof.
  revert ts. induction l as [| b l IH]; intros ts; simpl; [reflexivity |].
  destruct (tryAddEdge nw a b ts) as [e | ts'] eqn:E; [reflexivity |].
  rewrite IH. apply tryAddEdge_inr in E. destruct E as [-> _].
  apply map_id_addEdgeTasks.
Qed.

Lemma map_id_updateDependenciesTasks nw a l ts :
  map id (snd (updateDependenciesTasks nw a l ts)) = map id ts.
Proof.
  unfold updateDependenciesTasks.
  destruct (getTask ts a); [| reflexivity].
  rewrite map_id_addEdges. apply map_id_removeEdges.
Qed.

Lemma map_id_createTaskTasks env taskData ts :
  map id (snd (createTaskTasks env taskData ts))
  = map id ts ++ [getNextTaskId ts].
Proof.
  unfold createTaskTasks.
  assert (E : map id (updateTaskStatuses (now env)
                        (ts ++ [newTaskOf env ts taskData]))
              = map id ts ++ [getNextTaskId ts]).
  { rewrite map_id_sweep, map_app. reflexivity. }
  destruct (dependencies (newTaskOf env ts taskData)); [exact E |].
  now rewrite map_id_updateDependenciesTasks.
Qed.

Lemma fold_max_ge (ts : list Task) (m : Z) :
  m <= fold_left (fun mx t => Z.max mx (id t)) ts m
  /\ forall t, In t ts -> id t <= fold_left (fun mx t => Z.max mx (id t)) ts m.
Proof.
  revert m. induction ts as [| t0 ts IH]; intros m; simpl.
  - split; [lia | tauto].
  - destruct (IH (Z.max m (id t0))) as [H1 H2]. split; [lia |].
    intros t [<- | Hin]; [lia | now apply H2].
Qed.

Lemma getNextTaskId_gt (ts : list Task) (t : Task) :
  In t ts -> id t < getNextTaskId ts.
Proof.
  intros H. unfold getNextTaskId.
  destruct (fold_max_ge ts 0) as [_ H2]. specialize (H2 t H). lia.
Qed.

Lemma getNextTaskId_positive (ts : list Task) : 0 < getNextTaskId ts.
Proof.
  unfold getNextTaskId. destruct (fold_max_ge ts 0) as [H1 _]. lia.
Qed.

Lemma getNextTaskId_fresh (ts : list Task) :
  getTask ts (getNextTaskId ts) = None.
Proof.
  apply getTask_None. intros H. apply in_map_iff in H.
  destruct H as [t [E Hin]]. apply getNextTaskId_gt in Hin. lia.
Qed.

Lemma fold_right_max_shift (l : list Z) (m x : Z) :
  fold_right Z.max (Z.max m x) l = Z.max x (fold_right Z.max m l).
Proof. induction l as [| a l IH]; simpl; [| rewrite IH]; lia. Qed.

Lemma fold_max_maxId (ts : list Task) (m : Z) :
  fold_left (fun mx t => Z.max mx (id t)) ts m
  = fold_right Z.max m (map id ts).
Proof.
  revert m. induction ts as [| t ts IH]; intros m; simpl; [reflexivity |].
  rewrite IH. apply fold_right_max_shift.
Qed.

Lemma getNextTaskId_maxId (ts : list Task) : getNextTaskId ts = maxId ts + 1.
Proof. unfold getNextTaskId, maxId. now rewrite fold_max_maxId. Qed.

Lemma last_map_id (l : list Task) (ids : list Z) (n : Z) (dflt : Task) :
  map id l = ids ++ [n] -> id (last l dflt) = n.
Proof.
  intros H.
  assert (E : last (map id l) (id dflt) = n) by (rewrite H; apply last_last).
  rewrite <- E. clear. induction l as [| t l IH]; simpl; [reflexivity |].
  destruct l; [reflexivity | exact IH].
Qed.

(** C7 (amended). [createTask] appends exactly one record, whatever its
    outcome; its id is the largest id held in the store (0 for an empty store)
    plus one, hence larger than the id of every stored task, and ids that
    were pairwise distinct stay so.  An id freed by a deletion can therefore
    be handed out again only once no stored task carries an id at least as
    large. *)
Theorem createTask_id env (taskData : TaskData) (st : TM) :
  getNextTaskId (tasks st) = maxId (tasks st) + 1
  /\ (forall t, In t (tasks st) -> id t < getNextTaskId (tasks st))
  /\ map id (tasks (snd (createTask env taskData st)))
     = map id (tasks st) ++ [getNextTaskId (tasks st)]
  /\ (forall t, fst (createTask env taskData st) = Return t ->
        id t = getNextTaskId (tasks st))
  /\ (NoDup (map id (tasks st)) ->
      NoDup (map id (tasks (snd (createTask env taskData st))))).
Proof.
  assert (Hids : map id (tasks (snd (createTask env taskData st)))
                 = map id (tasks st) ++ [getNextTaskId (tasks st)]).
  { rewrite tasks_createTask. apply map_id_createTaskTasks. }
  split; [apply getNextTaskId_maxId |].
  split; [intros t; apply getNextTaskId_gt |].
  split; [exact Hids |]. split.
  - intros t E.
    destruct (createTask env taskData st) as [[r | e] st'] eqn:Ec;
      simpl in E; [| discriminate].
    injection E as <-.
    apply createTask_Return in Ec. destruct Ec as (_ & -> & _).
    eapply last_map_id. apply map_id_createTaskTasks.
  - intros Hnd. rewrite Hids. apply NoDup_app; [assumption | | ].
    + constructor; [simpl; tauto | constructor].
    + intros x Hx [<- | []]. apply in_map_iff in Hx.
      destruct Hx as [t [E Hin]]. apply getNextTaskId_gt in Hin. lia.
Qed.

(** A third task created in [storeTwo]. *)
Lemma createTask_id_witness :
  map id (tasks (snd (createTask env0 plainData storeTwo))) = [1; 2; 3]
  /\ NoDup (map id (tasks (snd (createTask env0 plainData storeTwo)))).
Proof.
  destruct (createTask_id env0 plainData storeTwo) as (_ & _ & H & _ & Hnd).
  split; [exact H |].
  apply Hnd. vm_compute.
  constructor; [simpl; intuition discriminate |].
  constructor; [simpl; tauto | constructor].
Defined.

(** C7, counterexample. Create a task, delete it, create another one: the
    second task receives the id of the deleted one. *)
Lemma deleted_id_assigned_again :
  exists t1 s1 s2 t3 s3,
    createTask env0 plainData emptyTM = (Return t1, s1)
    /\ deleteTask env0 (id t1) s1 = (Return true, s2)
    /\ getTask (tasks s2) (id t1) = None
    /\ createTask env0 plainData s2 = (Return t3, s3)
    /\ id t3 = id t1.
Proof.
  do 5 eexists.
  split; [vm_compute; reflexivity |].
  split; [vm_compute; reflexivity |].
  split; [vm_compute; reflexivity |].
  split; [vm_compute; reflexivity |].
  reflexivity.
Qed.

(** ** The dependency graph read off the array *)

Lemma Inv_nil : Inv [].
Proof.
  split; [constructor |]. split.
  - intros i j. simpl. tauto.
  - intros i H. destruct H.
Qed.

Lemma getTask_In (ts : list Task) (t : Task) :
  NoDup (map id ts) -> In t ts -> getTask ts (id t) = Some t.
Proof.
  unfold getTask. induction ts as [| t0 ts IH]; simpl; intros Hnd Hin.
  - destruct Hin.
  - inversion Hnd as [| x l Hx Hnd']; subst.
    destruct Hin as [-> | Hin].
    + now rewrite Z.eqb_refl.
    + destruct (id t0 =? id t) eqn:E.
      * apply Z.eqb_eq in E. exfalso. apply Hx. rewrite E.
        now apply in_map.
      * now apply IH.
Qed.

(** The invariant in the words of the specification. *)
Lemma Inv_mutual_inverse (ts : list Task) :
  Inv ts ->
  forall A B, In A ts -> In B ts ->
    (In (id B) (dependencies A) <-> In (id A) (dependents B)).
Proof.
  intros [Hnd [Hsym _]] A B HA HB.
  specialize (Hsym (id A) (id B)). unfold depsOf, dependentsOf in Hsym.
  now rewrite (getTask_In ts A Hnd HA), (getTask_In ts B Hnd HB) in Hsym.
Qed.

Lemma Inv_transfer (ts' : list Task) (P : Z -> Z -> Prop) :
  NoDup (map id ts') ->
  (forall i j, In j (depsOf ts' i) <-> P i j) ->
  (forall i j, In i (dependentsOf ts' j) <-> P i j) ->
  (forall i, ~ P i i) ->
  Inv ts'.
Proof.
  intros Hnd HE HR Hirr. split; [assumption |]. split.
  - intros i j. now rewrite HE, HR.
  - intros i H. apply HE in H. now apply Hirr in H.
Qed.

Lemma getTask_two_modify (a b : Z) (f g : Task -> Task) (ts : list Task)
    (x : Z) :
  (forall t, id (f t) = id t) -> (forall t, id (g t) = id t) ->
  getTask (modifyTask b g (modifyTask a f ts)) x
  = option_map
      (fun t => (if x =? b then g else fun t => t)
                  ((if x =? a then f else fun t => t) t))
      (getTask ts x).
Proof.
  intros Hf Hg. rewrite !getTask_modifyTask by assumption.
  destruct (x =? b), (x =? a), (getTask ts x); reflexivity.
Qed.

Lemma depsOf_sweep nw ts i : depsOf (updateTaskStatuses nw ts) i = depsOf ts i.
Proof.
  unfold depsOf. rewrite getTask_sweep.
  destruct (getTask ts i); simpl; [apply sweep1_dependencies | reflexivity].
Qed.

Lemma dependentsOf_sweep nw ts j :
  dependentsOf (updateTaskStatuses nw ts) j = dependentsOf ts j.
Proof.
  unfold dependentsOf. rewrite getTask_sweep.
  destruct (getTask ts j); simpl; [apply sweep1_dependents | reflexivity].
Qed.

Lemma depsOf_removeEdgeTasks nw a b ts i :
  depsOf (removeEdgeTasks nw a b ts) i
  = if i =? a then without b (depsOf ts i) else depsOf ts i.
Proof.
  unfold removeEdgeTasks. rewrite depsOf_sweep. unfold depsOf.
  rewrite getTask_two_modify by reflexivity.
  destruct (getTask ts i) as [t |]; simpl.
  - destruct (i =? b), (i =? a); reflexivity.
  - now destruct (i =? a).
Qed.

Lemma dependentsOf_removeEdgeTasks nw a b ts j :
  dependentsOf (removeEdgeTasks nw a b ts) j
  = if j =? b then without a (dependentsOf ts j) else dependentsOf ts j.
Proof.
  unfold removeEdgeTasks. rewrite dependentsOf_sweep. unfold dependentsOf.
  rewrite getTask_two_modify by reflexivity.
  destruct (getTask ts j) as [t |]; simpl.
  - destruct (j =? b), (j =? a); reflexivity.
  - now destruct (j =? b).
Qed.

Lemma depsOf_addEdgeTasks nw a b ts i ta :
  getTask ts a = Some ta ->
  depsOf (addEdgeTasks nw a b ts) i
  = if i =? a then pushNew b (depsOf ts i) else depsOf ts i.
Proof.
  intros Ha. unfold addEdgeTasks. rewrite depsOf_sweep. unfold depsOf.
  rewrite getTask_two_modify by reflexivity.
  destruct (i =? a) eqn:E.
  - apply Z.eqb_eq in E. subst i. rewrite Ha. simpl.
    now destruct (a =? b).
  - destruct (getTask ts i) as [t |]; simpl; [| reflexivity].
    now destruct (i =? b).
Qed.

Lemma dependentsOf_addEdgeTasks nw a b ts j tb :
  getTask ts b = Some tb ->
  dependentsOf (addEdgeTasks nw a b ts) j
  = if j =? b then pushNew a (dependentsOf ts j) else dependentsOf ts j.
Proof.
  intros Hb. unfold addEdgeTasks. rewrite dependentsOf_sweep.
  unfold dependentsOf. rewrite getTask_two_modify by reflexivity.
  destruct (j =? b) eqn:E.
  - apply Z.eqb_eq in E. subst j. rewrite Hb. simpl.
    now destruct (b =? a).
  - destruct (getTask ts j) as [t |]; simpl; [| reflexivity].
    now destruct (j =? a).
Qed.

(** Membership after a removal loop and after an addition loop. *)
Lemma removeEdges_edges nw a l ts :
  map id (removeEdges nw a l ts) = map id ts
  /\ (forall i j, In j (depsOf (removeEdges nw a l ts) i)
        <-> In j (depsOf ts i) /\ ~ (i = a /\ In j l))
  /\ (forall i j, In i (dependentsOf (removeEdges nw a l ts) j)
        <-> In i (dependentsOf ts j) /\ ~ (i = a /\ In j l)).
Proof.
  split; [apply map_id_removeEdges |].
  unfold removeEdges. revert ts. induction l as [| b l IH]; intros ts.
  - simpl. split; intros i j; tauto.
  - simpl. destruct (IH (removeEdgeTasks nw a b ts)) as [H1 H2]. split.
    + intros i j. rewrite H1, depsOf_removeEdgeTasks.
      destruct (i =? a) eqn:E.
      * apply Z.eqb_eq in E. rewrite In_without. intuition congruence.
      * apply Z.eqb_neq in E. tauto.
    + intros i j. rewrite H2, dependentsOf_removeEdgeTasks.
      destruct (j =? b) eqn:E.
      * apply Z.eqb_eq in E. rewrite In_without. intuition congruence.
      * apply Z.eqb_neq in E. intuition congruence.
Qed.

(** ** Cycle detection always answers *)

Lemma unvisited_decreases (ts : list Task) (visited : list Z) (x : Z)
    (t : Task) :
  getTask ts x = Some t -> memZ x visited = false ->
  (unvisited ts (x :: visited) < unvisited ts visited)%nat.
Proof.
  unfold unvisited, getTask. intros Hg Hv.
  induction ts as [| t0 ts IH]; simpl in *; [discriminate |].
  assert (Hle : forall l : list Task,
    (length (filter (fun t1 => negb ((id t1 =? x)%Z || memZ (id t1) visited)) l)
     <= length (filter (fun t1 => negb (memZ (id t1) visited)) l))%nat).
  { induction l as [| u l IHl]; simpl; [lia |].
    destruct (id u =? x); simpl; destruct (memZ (id u) visited); simpl; lia. }
  destruct (id t0 =? x) eqn:E.
  - apply Z.eqb_eq in E. rewrite E, Hv. simpl.
    specialize (Hle ts). lia.
  - simpl. destruct (memZ (id t0) visited); simpl.
    + now apply IH.
    + apply IH in Hg. lia.
Qed.

Lemma someM_total {A} (f : A -> option bool) (l : list A) :
  (forall x, In x l -> exists b, f x = Some b) ->
  exists b, someM f l = Some b.
Proof.
  induction l as [| x l IH]; intros H; simpl.
  - now exists false.
  - destruct (H x (or_introl eq_refl)) as [[|] ->].
    + now exists true.
    + apply IH. intros y Hy. apply H. now right.
Qed.

Lemma someM_true {A} (f : A -> option bool) (l : list A) (y : A) :
  (forall x, In x l -> exists b, f x = Some b) ->
  In y l -> f y = Some true ->
  someM f l = Some true.
Proof.
  induction l as [| x l IH]; intros H Hin Hy; simpl.
  - destruct Hin.
  - destruct (H x (or_introl eq_refl)) as [[|] E]; rewrite E.
    + reflexivity.
    + destruct Hin as [-> | Hin]; [congruence |].
      apply IH; [| assumption | assumption].
      intros z Hz. apply H. now right.
Qed.

Lemma wouldCreate_total (fuel : nat) (ts : list Task) (taskId dependsOnId : Z)
    (visited : list Z) :
  (unvisited ts visited < fuel)%nat ->
  exists b, wouldCreate fuel ts taskId dependsOnId visited = Some b.
Proof.
  revert dependsOnId visited.
  induction fuel as [| fuel IH]; intros dependsOnId visited Hlt; [lia |].
  simpl.
  destruct (memZ dependsOnId visited) eqn:Hv; [now exists true |].
  destruct (dependsOnId =? taskId); [now exists true |].
  destruct (getTask ts dependsOnId) as [t |] eqn:Hg; [| now exists false].
  apply someM_total. intros depId _. apply IH.
  assert (H := unvisited_decreases ts visited dependsOnId t Hg Hv). lia.
Qed.

Lemma unvisited_nil (ts : list Task) : unvisited ts [] = length ts.
Proof.
  unfold unvisited. induction ts as [| t ts IH]; simpl; [reflexivity |].
  f_equal. exact IH.
Qed.

(** The fuel handed to the walk by [wouldCreateCircularDependency] is never
    exhausted: the answer is the one the recursion computes. *)
Lemma wouldCreateCircularDependency_total (ts : list Task) (a b : Z) :
  wouldCreate (S (length ts)) ts a b []
  = Some (wouldCreateCircularDependency ts a b).
Proof.
  unfold wouldCreateCircularDependency.
  destruct (wouldCreate_total (S (length ts)) ts a b []) as [r ->];
    [rewrite unvisited_nil; lia | reflexivity].
Qed.

Lemma wouldCreateCircularDependency_self (ts : list Task) (a : Z) :
  wouldCreateCircularDependency ts a a = true.
Proof.
  unfold wouldCreateCircularDependency. simpl. now rewrite Z.eqb_refl.
Qed.

(** A direct edge from [b] back to [a] is always found. *)
Lemma wouldCreateCircularDependency_back_edge (ts : list Task) (a b : Z) :
  In a (depsOf ts b) -> wouldCreateCircularDependency ts a b = true.
Proof.
  intros Hin.
  assert (E := wouldCreateCircularDependency_total ts a b).
  assert (wouldCreate (S (length ts)) ts a b [] = Some true) as E'.
  2:{ congruence. }
  clear E. simpl.
  destruct (b =? a) eqn:Eba; [reflexivity |].
  unfold depsOf in Hin.
  destruct (getTask ts b) as [tb |] eqn:Hb; [| destruct Hin].
  assert (Hfuel : (unvisited ts [b] < length ts)%nat).
  { assert (H := unvisited_decreases ts [] b tb Hb eq_refl).
    rewrite unvisited_nil in H. exact H. }
  apply (someM_true _ _ a).
  - intros x _. now apply wouldCreate_total.
  - exact Hin.
  - destruct (length ts) as [| n]; [lia |]. simpl.
    apply Z.eqb_neq in Eba.
    assert ((a =? b) = false) as -> by (apply Z.eqb_neq; congruence).
    simpl. now rewrite Z.eqb_refl.
Qed.

Lemma tryAddEdge_distinct nw a b ts ts' :
  tryAddEdge nw a b ts = inr ts' -> a <> b.
Proof.
  intros H. apply tryAddEdge_inr in H. destruct H as (_ & _ & _ & Hw).
  intros ->. rewrite wouldCreateCircularDependency_self in Hw. discriminate.
Qed.

Lemma addEdges_edges nw a l ts :
  exists done rest,
    l = done ++ rest
    /\ map id (snd (addEdges nw a l ts)) = map id ts
    /\ (forall i j, In j (depsOf (snd (addEdges nw a l ts)) i)
          <-> In j (depsOf ts i) \/ (i = a /\ In j done))
    /\ (forall i j, In i (dependentsOf (snd (addEdges nw a l ts)) j)
          <-> In i (dependentsOf ts j) \/ (i = a /\ In j done))
    /\ (forall j, In j done -> j <> a)
    /\ match fst (addEdges nw a l ts) with
       | None => rest = []
       | Some e =>
           exists d rest',
             rest = d :: rest'
             /\ tryAddEdge nw a d (snd (addEdges nw a l ts)) = inl e
       end.
Proof.
  revert ts. induction l as [| b l IH]; intros ts.
  - exists [], []. simpl. repeat split; tauto.
  - simpl. destruct (tryAddEdge nw a b ts) as [e | ts'] eqn:E.
    + exists [], (b :: l). simpl. repeat split; try tauto.
      exists b, l. now split.
    + assert (Hab := tryAddEdge_distinct _ _ _ _ _ E).
      apply tryAddEdge_inr in E.
      destruct E as (-> & [ta Hta] & [tb Htb] & Hw).
      destruct (IH (addEdgeTasks nw a b ts))
        as (done & rest & Hl & Hids & HE & HR & Hne & Hr).
      exists (b :: done), rest. split; [now rewrite Hl |].
      split; [now rewrite Hids, map_id_addEdgeTasks |].
      split; [| split; [| split]].
      * intros i j. rewrite HE, (depsOf_addEdgeTasks _ _ _ _ _ ta Hta).
        destruct (i =? a) eqn:Ei.
        -- apply Z.eqb_eq in Ei. rewrite In_pushNew. simpl.
           intuition congruence.
        -- apply Z.eqb_neq in Ei. simpl. intuition congruence.
      * intros i j. rewrite HR, (dependentsOf_addEdgeTasks _ _ _ _ _ tb Htb).
        destruct (j =? b) eqn:Ej.
        -- apply Z.eqb_eq in Ej. rewrite In_pushNew. simpl.
           intuition congruence.
        -- apply Z.eqb_neq in Ej. simpl. intuition congruence.
      * intros j [<- | Hj]; [congruence | now apply Hne].
      * exact Hr.
Qed.

(** ** What the cycle check answers *)

Lemma someM_false_all {A} (f : A -> option bool) (l : list A) :
  someM f l = Some false -> forall x, In x l -> f x = Some false.
Proof.
  induction l as [| y l IH]; simpl; intros E x Hx; [destruct Hx |].
  destruct (f y) as [[|] |] eqn:Ey; try discriminate.
  destruct Hx as [<- | Hx]; [exact Ey | now apply IH].
Qed.

Lemma chain_trans (ts : list Task) (x y z : Z) :
  chain ts x y -> chain ts y z -> chain ts x z.
Proof.
  induction 1 as [x y H | x y w H Hc IH]; intros Hz.
  - now apply (chain_step ts x y z).
  - apply (chain_step ts x y z); [exact H | now apply IH].
Qed.

Lemma chain_first (ts : list Task) (x z : Z) :
  chain ts x z -> exists y, In y (depsOf ts x) /\ (y = z \/ chain ts y z).
Proof.
  intros H. destruct H as [x z H | x y z H Hc].
  - exists z. split; [exact H | now left].
  - exists y. split; [exact H | now right].
Qed.

(** A walk that answers [false] has met neither the target, nor a visited
    id, nor a task lying on a cycle. *)
Lemma wouldCreate_false_inv (ts : list Task) (a : Z) :
  forall fuel b visited,
    wouldCreate fuel ts a b visited = Some false ->
    forall y, y = b \/ chain ts b y ->
      ~ In y visited /\ y <> a /\ ~ chain ts y y.
Proof.
  induction fuel as [| fuel IH]; intros b visited E; simpl in E;
    [discriminate |].
  destruct (memZ b visited) eqn:Em; [discriminate |].
  apply memZ_not_In in Em.
  destruct (b =? a) eqn:Eb; [discriminate |]. apply Z.eqb_neq in Eb.
  destruct (getTask ts b) as [dt |] eqn:Eg.
  - assert (Hdeps : depsOf ts b = dependencies dt)
      by (unfold depsOf; now rewrite Eg).
    assert (Hchild : forall d, In d (depsOf ts b) ->
              forall y, y = d \/ chain ts d y ->
                ~ In y (b :: visited) /\ y <> a /\ ~ chain ts y y).
    { intros d Hd. apply (IH d (b :: visited)).
      rewrite Hdeps in Hd. exact (someM_false_all _ _ E d Hd). }
    assert (Hbelow : forall y, chain ts b y ->
              ~ In y (b :: visited) /\ y <> a /\ ~ chain ts y y).
    { intros y Hy. destruct (chain_first _ _ _ Hy) as (d & Hd & Hdy).
      apply (Hchild d Hd). destruct Hdy as [-> | Hdy]; [now left | now right]. }
    intros y [-> | Hy].
    + split; [exact Em |]. split; [exact Eb |].
      intros Hc. destruct (Hbelow b Hc) as [Hn _]. apply Hn. now left.
    + destruct (Hbelow y Hy) as (Hn & Hya & Hcy).
      split; [| now split]. intros Hin. apply Hn. now right.
  - assert (Hnone : forall y, ~ chain ts b y).
    { intros y Hy. destruct (chain_first _ _ _ Hy) as (d & Hd & _).
      unfold depsOf in Hd. rewrite Eg in Hd. destruct Hd. }
    intros y [-> | Hy]; [| now apply Hnone in Hy].
    split; [exact Em |]. split; [exact Eb |]. apply Hnone.
Qed.

Lemma wouldCreateCircularDependency_false (ts : list Task) (a b : Z) :
  wouldCreateCircularDependency ts a b = false ->
  a <> b
  /\ ~ chain ts b a
  /\ (forall x, x = b \/ chain ts b x -> ~ chain ts x x).
Proof.
  intros H. assert (E := wouldCreateCircularDependency_total ts a b).
  rewrite H in E.
  assert (Inv0 := wouldCreate_false_inv ts a _ _ _ E).
  split; [| split].
  - intros ->. destruct (Inv0 b (or_introl eq_refl)) as (_ & H' & _).
    now apply H'.
  - intros Hc. destruct (Inv0 a (or_intror Hc)) as (_ & H' & _).
    now apply H'.
  - intros x Hx. now destruct (Inv0 x Hx) as (_ & _ & H').
Qed.

Lemma chain_mono (ts ts' : list Task) :
  (forall i j, In j (depsOf ts' i) -> In j (depsOf ts i)) ->
  forall x y, chain ts' x y -> chain ts x y.
Proof.
  intros H x y Hc. induction Hc as [x y Hin | x y z Hin _ IH].
  - apply chain_edge. now apply H.
  - apply (chain_step ts x y z); [now apply H | exact IH].
Qed.

(** ** C4: a rejected edge leaves the store as it was *)

Lemma addTaskDependency_Return env a b st r st' :
  addTaskDependency env a b st = (Return r, st') ->
  r = true
  /\ st' = withTasks st (addEdgeTasks (now env) a b (tasks st))
  /\ (exists ta, getTask (tasks st) a = Some ta)
  /\ (exists tb, getTask (tasks st) b = Some tb)
  /\ wouldCreateCircularDependency (tasks st) a b = false.
Proof.
  rewrite addTaskDependency_run.
  destruct (tryAddEdge (now env) a b (tasks st)) as [e | ts'] eqn:E;
    [discriminate |].
  intros H. injection H as <- <-.
  apply tryAddEdge_inr in E. destruct E as (-> & Ha & Hb & Hw).
  repeat split; assumption.
Qed.

Lemma addTaskDependency_Throw env a b st e st' :
  addTaskDependency env a b st = (Throw e, st') -> st' = st.
Proof.
  rewrite addTaskDependency_run.
  destruct (tryAddEdge (now env) a b (tasks st)); [| discriminate].
  intros H. now injection H as _ <-.
Qed.

(** Two stored, distinct tasks, the second without dependencies of its own:
    the first edge between them is accepted. *)
Lemma addTaskDependency_accepts env (st : TM) (T1 T2 : Z) (t1 : Task) :
  getTask (tasks st) T1 = Some t1 ->
  In T2 (map id (tasks st)) ->
  depsOf (tasks st) T2 = [] ->
  T1 <> T2 ->
  addTaskDependency env T1 T2 st
  = (Return true,
     withTasks st (addEdgeTasks (now env) T1 T2 (tasks st))).
Proof.
  intros H1 H2 Hd Hne. rewrite addTaskDependency_run. unfold tryAddEdge.
  rewrite H1. destruct (getTask_In_ids _ _ H2) as [t2 Ht2]. rewrite Ht2.
  unfold depsOf in Hd. rewrite Ht2 in Hd.
  assert (wouldCreateCircularDependency (tasks st) T1 T2 = false) as ->;
    [| reflexivity].
  unfold wouldCreateCircularDependency. simpl.
  assert ((T2 =? T1) = false) as -> by (apply Z.eqb_neq; congruence).
  now rewrite Ht2, Hd.
Qed.

Lemma chain_snoc (ts : list Task) (x y z : Z) :
  chain ts x y -> In z (depsOf ts y) -> chain ts x z.
Proof.
  induction 1 as [x y H | x y w H Hc IH]; intros Hz.
  - eapply chain_step; [exact H | now apply chain_edge].
  - eapply chain_step; [exact H | now apply IH].
Qed.

Lemma someM_all_false {A} (f : A -> option bool) (l : list A) (r : bool) :
  (forall x, In x l -> forall b, f x = Some b -> b = false) ->
  someM f l = Some r -> r = false.
Proof.
  induction l as [| x l IH]; simpl; intros H E.
  - congruence.
  - destruct (f x) as [[|] |] eqn:Ex; try discriminate.
    + specialize (H x (or_introl eq_refl) true Ex). discriminate.
    + apply IH; [| exact E]. intros y Hy. apply H. now right.
Qed.

(** The walk started for the edge T1 -> T2 finds nothing when no chain leads
    from T2 to T1 and no task at or below T2 lies on a cycle. *)
Lemma wouldCreate_no_chain (ts : list Task) (T1 T2 : Z) :
  T1 <> T2 ->
  ~ chain ts T2 T1 ->
  (forall x, x = T2 \/ chain ts T2 x -> ~ chain ts x x) ->
  forall fuel b visited r,
    wouldCreate fuel ts T1 b visited = Some r ->
    b = T2 \/ chain ts T2 b ->
    (forall v, In v visited -> chain ts v b) ->
    r = false.
Proof.
  intros Hne Hno Hacyc.
  induction fuel as [| fuel IH]; intros b visited r E Hb Hv; simpl in E.
  - discriminate.
  - destruct (memZ b visited) eqn:Em.
    + apply memZ_In in Em. exfalso. apply (Hacyc b Hb). now apply Hv.
    + destruct (b =? T1) eqn:Eb.
      * apply Z.eqb_eq in Eb. subst b. exfalso.
        destruct Hb as [Hb | Hb]; [congruence | contradiction].
      * destruct (getTask ts b) as [dt |] eqn:Eg; [| congruence].
        assert (Hdeps : depsOf ts b = dependencies dt)
          by (unfold depsOf; now rewrite Eg).
        eapply someM_all_false; [| exact E].
        intros d Hd r' Er'. rewrite <- Hdeps in Hd.
        apply (IH d (b :: visited) r' Er').
        -- right. destruct Hb as [-> | Hb];
             [now apply chain_edge | now apply (chain_snoc ts T2 b d)].
        -- intros v [<- | Hin]; [now apply chain_edge |].
           apply (chain_snoc ts v b d); [now apply Hv | exact Hd].
Qed.

(** Two stored tasks in a store where no chain leads from T2 back to T1 and
    nothing at or below T2 lies on a cycle: the edge T1 -> T2 is accepted. *)
Lemma addTaskDependency_accepts_unlinked env (st : TM) (T1 T2 : Z) :
  In T1 (map id (tasks st)) ->
  In T2 (map id (tasks st)) ->
  T1 <> T2 ->
  ~ chain (tasks st) T2 T1 ->
  (forall x, x = T2 \/ chain (tasks st) T2 x -> ~ chain (tasks st) x x) ->
  addTaskDependency env T1 T2 st
  = (Return true,
     withTasks st (addEdgeTasks (now env) T1 T2 (tasks st))).
Proof.
  intros H1 H2 Hne Hno Hacyc. rewrite addTaskDependency_run.
  unfold tryAddEdge.
  destruct (getTask_In_ids _ _ H1) as [t1 ->].
  destruct (getTask_In_ids _ _ H2) as [t2 ->].
  assert (E := wouldCreateCircularDependency_total (tasks st) T1 T2).
  rewrite (wouldCreate_no_chain (tasks st) T1 T2 Hne Hno Hacyc _ _ _ _ E);
    [reflexivity | now left | intros v []].
Qed.

Lemma reverse_edge_rejected env1 env2 (st st1 : TM) (T1 T2 : Z) (r : bool) :
  addTaskDependency env1 T1 T2 st = (Return r, st1) ->
  In T2 (depsOf (tasks st1) T1)
  /\ In T1 (dependentsOf (tasks st1) T2)
  /\ addTaskDependency env2 T2 T1 st1 = (Throw DependencyCycle, st1).
Proof.
  intros H. apply addTaskDependency_Return in H.
  destruct H as (_ & -> & [ta Ha] & [tb Hb] & Hw).
  rewrite tasks_withTasks.
  assert (HE : In T2 (depsOf (addEdgeTasks (now env1) T1 T2 (tasks st)) T1)).
  { rewrite (depsOf_addEdgeTasks _ _ _ _ _ ta Ha), Z.eqb_refl.
    apply In_pushNew. now right. }
  split; [exact HE |]. split.
  - rewrite (dependentsOf_addEdgeTasks _ _ _ _ _ tb Hb), Z.eqb_refl.
    apply In_pushNew. now right.
  - rewrite addTaskDependency_run, tasks_withTasks. unfold tryAddEdge.
    assert (Hids := map_id_addEdgeTasks (now env1) T1 T2 (tasks st)).
    destruct (getTask_In_ids (addEdgeTasks (now env1) T1 T2 (tasks st)) T2)
      as [t2 ->].
    { rewrite Hids. destruct (getTask_Some _ _ _ Hb) as [Hin <-].
      now apply in_map. }
    destruct (getTask_In_ids (addEdgeTasks (now env1) T1 T2 (tasks st)) T1)
      as [t1 ->].
    { rewrite Hids. destruct (getTask_Some _ _ _ Ha) as [Hin <-].
      now apply in_map. }
    now rewrite (wouldCreateCircularDependency_back_edge _ _ _ HE).
Qed.

(** C4 (amended). For two stored, distinct tasks T1 and T2,
    [addTaskDependency(T1, T2)] returns when no dependency chain leads from
    T2 back to T1 and nothing at or below T2 lies on a cycle, and only then.
    Once it has returned, the edge is recorded on both sides and the call
    [addTaskDependency(T2, T1)] throws the circular-reference error, leaving
    the whole manager state as it was before that call: the check runs
    before either task is touched. *)
Theorem addTaskDependency_reverse_rejected env1 env2 (st : TM) (T1 T2 : Z) :
  (forall r st1,
     addTaskDependency env1 T1 T2 st = (Return r, st1) ->
     In T2 (depsOf (tasks st1) T1)
     /\ In T1 (dependentsOf (tasks st1) T2)
     /\ addTaskDependency env2 T2 T1 st1 = (Throw DependencyCycle, st1))
  /\ (In T1 (map id (tasks st)) ->
      In T2 (map id (tasks st)) ->
      T1 <> T2 ->
      ~ chain (tasks st) T2 T1 ->
      (forall x, x = T2 \/ chain (tasks st) T2 x -> ~ chain (tasks st) x x) ->
      exists st1,
        addTaskDependency env1 T1 T2 st = (Return true, st1)
        /\ addTaskDependency env2 T2 T1 st1 = (Throw DependencyCycle, st1))
  /\ (forall r st1,
        addTaskDependency env1 T1 T2 st = (Return r, st1) ->
        In T1 (map id (tasks st))
        /\ In T2 (map id (tasks st))
        /\ T1 <> T2
        /\ ~ chain (tasks st) T2 T1
        /\ (forall x, x = T2 \/ chain (tasks st) T2 x ->
              ~ chain (tasks st) x x)).
Proof.
  split; [| split].
  - intros r st1. apply reverse_edge_rejected.
  - intros H1 H2 Hne Hno Hacyc.
    assert (E := addTaskDependency_accepts_unlinked env1 st T1 T2
                   H1 H2 Hne Hno Hacyc).
    eexists. split; [exact E |].
    now apply (reverse_edge_rejected env1 env2 st _ T1 T2 true).
  - intros r st1. rewrite addTaskDependency_run.
    destruct (tryAddEdge (now env1) T1 T2 (tasks st)) as [e | ts'] eqn:E;
      [discriminate |].
    intros _. apply tryAddEdge_inr in E.
    destruct E as (_ & [t1 H1] & [t2 H2] & Hc).
    apply wouldCreateCircularDependency_false in Hc.
    destruct (getTask_Some _ _ _ H1) as [Hin1 <-].
    destruct (getTask_Some _ _ _ H2) as [Hin2 <-].
    split; [now apply in_map |]. split; [now apply in_map |]. exact Hc.
Qed.

(** C4, counterexample. Tasks 1, 2 and 3 with the edges 2 -> 3 and 3 -> 1:
    no edge joins 1 and 2, yet [addTaskDependency(1, 2)] throws the
    circular-reference error, since task 1 is reached from task 2, and the
    call [addTaskDependency(2, 1)] made after it returns and records the
    edge. *)
Lemma reverse_edge_accepted_after_rejection :
  exists st2,
    map id (tasks storeBelow) = [1; 2; 3]
    /\ depsOf (tasks storeBelow) 1 = []
    /\ depsOf (tasks storeBelow) 2 = [3]
    /\ depsOf (tasks storeBelow) 3 = [1]
    /\ dependentsOf (tasks storeBelow) 1 = [3]
    /\ dependentsOf (tasks storeBelow) 2 = []
    /\ addTaskDependency env0 1 2 storeBelow
       = (Throw DependencyCycle, storeBelow)
    /\ addTaskDependency env0 2 1 storeBelow = (Return true, st2)
    /\ depsOf (tasks st2) 2 = [3; 1]
    /\ dependentsOf (tasks st2) 1 = [3; 2].
Proof.
  eexists. repeat split; vm_compute; reflexivity.
Qed.

Lemma chain_nil_free (ts : list Task) (x y : Z) :
  (forall i, depsOf ts i = []) -> ~ chain ts x y.
Proof.
  intros H Hc. destruct Hc as [x y Hin | x y z Hin _];
    rewrite H in Hin; destruct Hin.
Qed.

Lemma storeTwo_no_edges (i : Z) : depsOf (tasks storeTwo) i = [].
Proof.
  unfold depsOf.
  destruct (getTask (tasks storeTwo) i) as [t |] eqn:E; [| reflexivity].
  apply getTask_Some in E. destruct E as [Hin _].
  vm_compute in Hin. destruct Hin as [<- | [<- | []]]; reflexivity.
Qed.

(** Scenario B of the specification, run on [storeTwo]. *)
Lemma addTaskDependency_reverse_rejected_witness :
  exists st1,
    addTaskDependency env0 1 2 storeTwo = (Return true, st1)
    /\ addTaskDependency env0 2 1 st1 = (Throw DependencyCycle, st1).
Proof.
  apply (addTaskDependency_reverse_rejected env0 env0 storeTwo 1 2).
  - vm_compute. tauto.
  - vm_compute. tauto.
  - discriminate.
  - apply chain_nil_free, storeTwo_no_edges.
  - intros x _. apply chain_nil_free, storeTwo_no_edges.
Defined.

(** ** The edge operations keep the store well formed *)

Lemma removeEdges_Inv nw a l ts : Inv ts -> Inv (removeEdges nw a l ts).
Proof.
  intros (Hnd & Hsym & Hirr).
  destruct (removeEdges_edges nw a l ts) as (Hids & HE & HR).
  apply (Inv_transfer _
           (fun i j => In j (depsOf ts i) /\ ~ (i = a /\ In j l))).
  - now rewrite Hids.
  - exact HE.
  - intros i j. rewrite HR, (Hsym i j). tauto.
  - intros i [H _]. now apply Hirr in H.
Qed.

Lemma addEdges_Inv nw a l ts : Inv ts -> Inv (snd (addEdges nw a l ts)).
Proof.
  intros (Hnd & Hsym & Hirr).
  destruct (addEdges_edges nw a l ts)
    as (done & rest & _ & Hids & HE & HR & Hne & _).
  apply (Inv_transfer _
           (fun i j => In j (depsOf ts i) \/ (i = a /\ In j done))).
  - now rewrite Hids.
  - exact HE.
  - intros i j. rewrite HR, (Hsym i j). tauto.
  - intros i [H | [-> H]]; [now apply Hirr in H | now apply Hne in H].
Qed.

Lemma updateDependenciesTasks_Inv nw a l ts :
  Inv ts -> Inv (snd (updateDependenciesTasks nw a l ts)).
Proof.
  intros H. unfold updateDependenciesTasks.
  destruct (getTask ts a); [| exact H].
  now apply addEdges_Inv, removeEdges_Inv.
Qed.

Lemma getTask_pushed (ts : list Task) (nt : Task) (nw x : Z) :
  getTask ts (id nt) = None ->
  getTask (updateTaskStatuses nw (ts ++ [nt])) x
  = if x =? id nt then Some (sweep1 nw nt)
    else option_map (sweep1 nw) (getTask ts x).
Proof.
  intros Hfresh. rewrite getTask_sweep, getTask_app.
  destruct (x =? id nt) eqn:E.
  - apply Z.eqb_eq in E. subst x. rewrite Hfresh. unfold getTask. simpl.
    now rewrite Z.eqb_refl.
  - destruct (getTask ts x); [reflexivity |].
    unfold getTask. simpl. rewrite Z.eqb_sym, E. reflexivity.
Qed.

Lemma depsOf_pushed (ts : list Task) (nt : Task) (nw x : Z) :
  getTask ts (id nt) = None ->
  depsOf (updateTaskStatuses nw (ts ++ [nt])) x
  = if x =? id nt then dependencies nt else depsOf ts x.
Proof.
  intros Hfresh. unfold depsOf. rewrite (getTask_pushed _ _ _ _ Hfresh).
  destruct (x =? id nt); [apply sweep1_dependencies |].
  destruct (getTask ts x); simpl; [apply sweep1_dependencies | reflexivity].
Qed.

Lemma dependentsOf_pushed (ts : list Task) (nt : Task) (nw x : Z) :
  getTask ts (id nt) = None ->
  dependentsOf (updateTaskStatuses nw (ts ++ [nt])) x
  = if x =? id nt then dependents nt else dependentsOf ts x.
Proof.
  intros Hfresh. unfold dependentsOf. rewrite (getTask_pushed _ _ _ _ Hfresh).
  destruct (x =? id nt); [apply sweep1_dependents |].
  destruct (getTask ts x); simpl; [apply sweep1_dependents | reflexivity].
Qed.

Lemma NoDup_ids_pushed (ts : list Task) :
  NoDup (map id ts) -> NoDup (map id ts ++ [getNextTaskId ts]).
Proof.
  intros Hnd. apply NoDup_app; [assumption | |].
  - constructor; [simpl; tauto | constructor].
  - intros x Hx [<- | []]. apply in_map_iff in Hx.
    destruct Hx as [t [E Hin]]. apply getNextTaskId_gt in Hin. lia.
Qed.

(** The state [createTask] reaches after pushing the record and clearing its
    dependency list: the record is in the array and carries no edge yet. *)
Lemma created_cleared_edges env taskData ts :
  Inv ts ->
  let nt := newTaskOf env ts taskData in
  let ts2 :=
    removeEdges (now env) (id nt) (dependencies nt)
      (updateTaskStatuses (now env) (ts ++ [nt])) in
  map id ts2 = map id ts ++ [getNextTaskId ts]
  /\ (forall i j, In j (depsOf ts2 i) <-> In j (depsOf ts i))
  /\ (forall i j, In i (dependentsOf ts2 j) <-> In i (dependentsOf ts j)).
Proof.
  intros (Hnd & Hsym & Hirr) nt ts2.
  assert (Hfresh : getTask ts (id nt) = None) by apply getNextTaskId_fresh.
  assert (HN : depsOf ts (id nt) = []) by (unfold depsOf; now rewrite Hfresh).
  destruct (removeEdges_edges (now env) (id nt) (dependencies nt)
              (updateTaskStatuses (now env) (ts ++ [nt]))) as (Hids & HE & HR).
  fold ts2 in Hids, HE, HR. split; [| split].
  - rewrite Hids, map_id_sweep, map_app. reflexivity.
  - intros i j. rewrite HE, (depsOf_pushed _ _ _ _ Hfresh).
    destruct (i =? id nt) eqn:E.
    + apply Z.eqb_eq in E. subst i. rewrite HN. simpl. tauto.
    + apply Z.eqb_neq in E. tauto.
  - intros i j. rewrite HR, (dependentsOf_pushed _ _ _ _ Hfresh).
    assert (Hnone : ~ In (id nt) (dependentsOf ts j)).
    { rewrite <- (Hsym (id nt) j), HN. simpl. tauto. }
    destruct (j =? id nt) eqn:E.
    + apply Z.eqb_eq in E. subst j.
      unfold dependentsOf. rewrite Hfresh. simpl. tauto.
    + split; [tauto |]. intros H. split; [assumption |].
      intros [-> _]. contradiction.
Qed.

Lemma createTaskTasks_Inv env taskData ts :
  Inv ts -> Inv (snd (createTaskTasks env taskData ts)).
Proof.
  intros HI. assert (HI' := HI). destruct HI' as (Hnd & Hsym & Hirr).
  unfold createTaskTasks.
  set (nt := newTaskOf env ts taskData).
  assert (Hfresh : getTask ts (id nt) = None) by apply getNextTaskId_fresh.
  destruct (dependencies nt) as [| d l] eqn:Ed.
  - simpl. apply (Inv_transfer _ (fun i j => In j (depsOf ts i))).
    + rewrite map_id_sweep, map_app. now apply NoDup_ids_pushed.
    + intros i j. rewrite (depsOf_pushed _ _ _ _ Hfresh).
      destruct (i =? id nt) eqn:E; [| tauto].
      apply Z.eqb_eq in E. subst i. rewrite Ed.
      unfold depsOf. rewrite Hfresh. tauto.
    + intros i j. rewrite (dependentsOf_pushed _ _ _ _ Hfresh).
      destruct (j =? id nt) eqn:E; [| symmetry; apply Hsym].
      apply Z.eqb_eq in E. subst j. change (dependents nt) with (@nil Z).
      rewrite (Hsym i (id nt)). unfold dependentsOf. rewrite Hfresh.
      tauto.
    + exact Hirr.
  - unfold updateDependenciesTasks.
    rewrite (getTask_pushed _ _ _ _ Hfresh), Z.eqb_refl.
    rewrite sweep1_dependencies, Ed. rewrite <- Ed.
    apply addEdges_Inv.
    destruct (created_cleared_edges env taskData ts HI) as (Hids & HE & HR).
    fold nt in Hids, HE, HR.
    apply (Inv_transfer _ (fun i j => In j (depsOf ts i))).
    + rewrite Hids. now apply NoDup_ids_pushed.
    + exact HE.
    + intros i j. rewrite HR. symmetry. apply Hsym.
    + exact Hirr.
Qed.

(** ** [updateTask] and [deleteTask] on the array *)

Lemma updateTask_run env (a : Z) (u : Updates) (st : TM) :
  exists (o : outcome Task) (nots : list Notification),
    updateTask env a u st
    = (o, mkTM (snd (updateTaskTasks (now env) a u (tasks st)))
            (recurringTasks st) nots)
    /\ match fst (updateTaskTasks (now env) a u (tasks st)) with
       | Some e => o = Throw e
       | None => exists t, o = Return t
       end.
Proof.
  unfold updateTask, updateTaskTasks, bind at 1, getTasks.
  destruct (findIndex (tasks st) a) as [i |].
  2:{ exists (Throw NotFound), (taskNotifications st).
      unfold throw. simpl. now rewrite TM_eta. }
  destruct (nth_error (tasks st) i) as [oldTask |].
  2:{ exists (Throw NotFound), (taskNotifications st).
      unfold throw. simpl. now rewrite TM_eta. }
  set (merged := merge (now env) oldTask u).
  assert (exists nots1,
    match u_status u with
    | Some s =>
        if Status_eqb s (status oldTask) then ret merged
        else handleStatusChange env merged (status oldTask) s
    | None => ret merged
    end st
    = (Return (updatedRecord (now env) oldTask u),
       mkTM (tasks st) (recurringTasks st) nots1)) as [nots1 E1].
  { unfold updatedRecord. fold merged.
    destruct (u_status u) as [s |].
    - destruct (Status_eqb s (status oldTask)).
      + exists (taskNotifications st). unfold ret. now destruct st.
      + unfold handleStatusChange, bind, sendTaskNotification, ret.
        eexists. reflexivity.
    - exists (taskNotifications st). unfold ret. now destruct st. }
  unfold bind at 1. rewrite E1.
  set (upd := updatedRecord (now env) oldTask u).
  assert (exists nots2,
    match u_assignedTo u with
    | Some a0 =>
        if list_eq_dec string_dec a0 (assignedTo oldTask) then ret tt
        else handleAssignmentChange env upd (assignedTo oldTask) a0
    | None => ret tt
    end (mkTM (tasks st) (recurringTasks st) nots1)
    = (Return tt, mkTM (tasks st) (recurringTasks st) nots2)) as [nots2 E2].
  { destruct (u_assignedTo u) as [a0 |].
    - destruct (list_eq_dec string_dec a0 (assignedTo oldTask)).
      + now exists nots1.
      + unfold handleAssignmentChange.
        destruct (forEach_notifications env upd
                    (filter (fun email => negb (includes email (assignedTo oldTask))) a0)
                    (mkTM (tasks st) (recurringTasks st) nots1)) as [n2 ->].
        now exists n2.
    - now exists nots1. }
  unfold bind at 1. rewrite E2.
  destruct (u_dependencies u) as [deps |].
  - unfold bind at 1. rewrite updateTaskDependencies_run.
    cbn [tasks].
    destruct (updateDependenciesTasks (now env) a deps (tasks st))
      as [[e |] ts3]; simpl.
    + eexists. eexists. split; reflexivity.
    + eexists. eexists. split; [reflexivity |]. eexists. reflexivity.
  - simpl. eexists. eexists. split; [reflexivity |]. eexists. reflexivity.
Qed.

Lemma findIndex_ids (ts ts' : list Task) (x : Z) :
  map id ts = map id ts' -> findIndex ts x = findIndex ts' x.
Proof.
  revert ts'. induction ts as [| t ts IH]; intros [| t' ts'] H; simpl in *;
    try discriminate; [reflexivity |].
  injection H as H1 H2. rewrite H1.
  destruct (id t' =? x); [reflexivity |]. now rewrite (IH ts' H2).
Qed.

Lemma findIndex_nth_id (ts : list Task) (x : Z) (i : nat) (t : Task) :
  findIndex ts x = Some i -> nth_error ts i = Some t -> id t = x.
Proof.
  intros Hi Hn. destruct (findIndex_Some _ _ _ Hi) as [t' [Hn' Hg]].
  assert (t' = t) as -> by congruence.
  now destruct (getTask_Some _ _ _ Hg).
Qed.

(** Replacing the record found under [a] by one with the same id. *)
Lemma replaced_lookup nw (ts : list Task) (a : Z) (i : nat) (v t : Task) (x : Z) :
  findIndex ts a = Some i -> nth_error ts i = Some t -> id v = a ->
  map id (updateTaskStatuses nw (setAt i v ts)) = map id ts
  /\ depsOf (updateTaskStatuses nw (setAt i v ts)) x
     = (if x =? a then dependencies v else depsOf ts x)
  /\ dependentsOf (updateTaskStatuses nw (setAt i v ts)) x
     = (if x =? a then dependents v else dependentsOf ts x).
Proof.
  intros Hi Hn Hv. split; [| split].
  - rewrite map_id_sweep. apply (map_id_setAt _ _ _ t Hn).
    rewrite Hv. symmetry. now apply (findIndex_nth_id ts a i).
  - rewrite depsOf_sweep. unfold depsOf.
    rewrite (getTask_setAt _ _ _ _ _ Hi Hv). now destruct (x =? a).
  - rewrite dependentsOf_sweep. unfold dependentsOf.
    rewrite (getTask_setAt _ _ _ _ _ Hi Hv). now destruct (x =? a).
Qed.

Lemma updatedRecord_dependents nw t u :
  u_dependents u = None -> dependents (updatedRecord nw t u) = dependents t.
Proof.
  intros H. unfold updatedRecord.
  destruct (u_status u) as [s |]; [| simpl; now rewrite H].
  destruct (Status_eqb s (status t)); [simpl; now rewrite H |].
  destruct (Status_eqb s COMPLETED); simpl; now rewrite H.
Qed.

Lemma updatedRecord_new_dependencies nw t u deps :
  u_dependencies u = Some deps -> dependencies (updatedRecord nw t u) = deps.
Proof.
  intros H. unfold updatedRecord.
  destruct (u_status u) as [s |]; [| simpl; now rewrite H].
  destruct (Status_eqb s (status t)); [simpl; now rewrite H |].
  destruct (Status_eqb s COMPLETED); simpl; now rewrite H.
Qed.

Lemma updateTaskTasks_Inv nw (a : Z) (u : Updates) (ts : list Task) :
  u_id u = None -> u_dependents u = None ->
  Inv ts -> Inv (snd (updateTaskTasks nw a u ts)).
Proof.
  intros Hid Hdts HI. assert (HI' := HI). destruct HI' as (Hnd & Hsym & Hirr).
  unfold updateTaskTasks.
  destruct (findIndex ts a) as [i |] eqn:Hi; [| exact HI].
  destruct (nth_error ts i) as [oldTask |] eqn:Hn; [| exact HI].
  destruct (findIndex_Some _ _ _ Hi) as [t' [Hn' Hg]].
  assert (t' = oldTask) as -> by congruence.
  assert (Hida : id (updatedRecord nw oldTask u) = a).
  { rewrite updatedRecord_id by assumption.
    now apply (findIndex_nth_id ts a i). }
  destruct (u_dependencies u) as [deps |] eqn:Hdeps.
  - destruct (updateDependenciesTasks nw a deps ts) as [[e |] ts3] eqn:Eu.
    + simpl. change ts3 with (snd (Some e, ts3)). rewrite <- Eu.
      now apply updateDependenciesTasks_Inv.
    + simpl.
      assert (HI3 : Inv ts3).
      { change ts3 with (snd (@None Error, ts3)). rewrite <- Eu.
        now apply updateDependenciesTasks_Inv. }
      unfold updateDependenciesTasks in Eu. rewrite Hg in Eu.
      set (ts2 := removeEdges nw a (dependencies oldTask) ts) in Eu.
      destruct (removeEdges_edges nw a (dependencies oldTask) ts)
        as (Hids2 & HE2 & HR2). fold ts2 in Hids2, HE2, HR2.
      destruct (addEdges_edges nw a deps ts2)
        as (done & rest & Hl & Hids3 & HE3 & HR3 & Hne & Hr).
      rewrite Eu in Hids3, HE3, HR3, Hr. simpl in Hids3, HE3, HR3, Hr.
      subst rest. rewrite app_nil_r in Hl. subst done.
      assert (Hi3 : findIndex ts3 a = Some i).
      { rewrite <- Hi. apply findIndex_ids. now rewrite Hids3, Hids2. }
      destruct (findIndex_Some _ _ _ Hi3) as [t3 [Hn3 Hg3]].
      destruct HI3 as (Hnd3 & Hsym3 & Hirr3).
      assert (Hda : depsOf ts a = dependencies oldTask)
        by (unfold depsOf; now rewrite Hg).
      assert (Hdta : dependentsOf ts a = dependents oldTask)
        by (unfold dependentsOf; now rewrite Hg).
      apply (Inv_transfer _ (fun i j => In j (depsOf ts3 i))).
      * destruct (replaced_lookup nw ts3 a i (updatedRecord nw oldTask u) t3 0
                    Hi3 Hn3 Hida) as (-> & _). exact Hnd3.
      * intros x j.
        destruct (replaced_lookup nw ts3 a i (updatedRecord nw oldTask u) t3 x
                    Hi3 Hn3 Hida) as (_ & -> & _).
        destruct (x =? a) eqn:E; [| tauto].
        apply Z.eqb_eq in E. subst x.
        rewrite (updatedRecord_new_dependencies _ _ _ _ Hdeps).
        rewrite HE3, HE2, Hda. tauto.
      * intros x j.
        destruct (replaced_lookup nw ts3 a i (updatedRecord nw oldTask u) t3 j
                    Hi3 Hn3 Hida) as (_ & _ & ->).
        destruct (j =? a) eqn:E; [| symmetry; apply Hsym3].
        apply Z.eqb_eq in E. subst j.
        rewrite (updatedRecord_dependents _ _ _ Hdts), (Hsym3 x a).
        rewrite HR3, HR2, Hdta. split.
        -- intros H. left. split; [assumption |].
           intros [_ H']. rewrite <- Hda in H'. now apply Hirr in H'.
        -- intros [[H _] | [-> H]]; [assumption |].
           apply Hne in H. congruence.
      * exact Hirr3.
  - simpl.
    apply (Inv_transfer _ (fun i j => In j (depsOf ts i))).
    + destruct (replaced_lookup nw ts a i (updatedRecord nw oldTask u) oldTask 0
                  Hi Hn Hida) as (-> & _). exact Hnd.
    + intros x j.
      destruct (replaced_lookup nw ts a i (updatedRecord nw oldTask u) oldTask x
                  Hi Hn Hida) as (_ & -> & _).
      destruct (x =? a) eqn:E; [| tauto].
      apply Z.eqb_eq in E. subst x.
      rewrite (updatedRecord_dependencies _ _ _ Hdeps).
      unfold depsOf. rewrite Hg. tauto.
    + intros x j.
      destruct (replaced_lookup nw ts a i (updatedRecord nw oldTask u) oldTask j
                  Hi Hn Hida) as (_ & _ & ->).
      destruct (j =? a) eqn:E; [| symmetry; apply Hsym].
      apply Z.eqb_eq in E. subst j.
      rewrite (updatedRecord_dependents _ _ _ Hdts), (Hsym x a).
      unfold dependentsOf. rewrite Hg. tauto.
    + exact Hirr.
Qed.

Lemma deleteTask_run env (a : Z) (st : TM) :
  deleteTask env a st
  = (finished (fst (deleteTaskTasks (now env) a (tasks st))) true,
     withTasks st (snd (deleteTaskTasks (now env) a (tasks st)))).
Proof.
  unfold deleteTask, deleteTaskTasks, bind at 1, getTasks.
  destruct (findIndex (tasks st) a) as [i |];
    [| unfold throw; simpl; now rewrite withTasks_same].
  destruct (nth_error (tasks st) i) as [task |];
    [| unfold throw; simpl; now rewrite withTasks_same].
  destruct (isRecurring task); reflexivity.
Qed.

Lemma splice1_ids (ts : list Task) (i : nat) (x : Z) :
  In x (map id (splice1 i ts)) -> In x (map id ts).
Proof.
  revert i. induction ts as [| t ts IH]; intros [| i]; simpl; try tauto.
  intros [H | H]; [now left | right; now apply (IH i)].
Qed.

Lemma splice1_NoDup (ts : list Task) (i : nat) :
  NoDup (map id ts) -> NoDup (map id (splice1 i ts)).
Proof.
  revert i. induction ts as [| t ts IH]; intros [| i] H; simpl;
    try assumption; inversion H as [| x l Hx Hnd]; subst; [assumption |].
  constructor; [| now apply IH].
  intros Hin. apply Hx. now apply (splice1_ids ts i).
Qed.

Lemma getTask_splice1 (ts : list Task) (a : Z) (i : nat) (x : Z) :
  NoDup (map id ts) -> findIndex ts a = Some i ->
  getTask (splice1 i ts) x = if x =? a then None else getTask ts x.
Proof.
  revert i. unfold getTask.
  induction ts as [| t ts IH]; intros i Hnd Hi; simpl in *; [discriminate |].
  inversion Hnd as [| y l Hy Hnd']; subst.
  destruct (id t =? a) eqn:E.
  - injection Hi as <-. apply Z.eqb_eq in E.
    destruct (x =? a) eqn:Ex.
    + apply Z.eqb_eq in Ex. subst x. simpl.
      change (getTask ts a = None). apply getTask_None.
      rewrite <- E. exact Hy.
    + apply Z.eqb_neq in Ex.
      assert ((id t =? x) = false) as -> by (apply Z.eqb_neq; congruence).
      reflexivity.
  - destruct (findIndex ts a) as [k |]; [| discriminate].
    injection Hi as <-. simpl.
    destruct (id t =? x) eqn:Ex.
    + apply Z.eqb_eq in Ex. apply Z.eqb_neq in E.
      assert ((x =? a) = false) as -> by (apply Z.eqb_neq; congruence).
      reflexivity.
    + now apply IH.
Qed.

Lemma deleteTaskTasks_Inv nw (a : Z) (ts : list Task) :
  (forall t, getTask ts a = Some t -> isRecurring t = false) ->
  Inv ts -> Inv (snd (deleteTaskTasks nw a ts)).
Proof.
  intros Hrec HI. assert (HI' := HI). destruct HI' as (Hnd & Hsym & Hirr).
  unfold deleteTaskTasks.
  destruct (findIndex ts a) as [i |] eqn:Hi; [| exact HI].
  destruct (nth_error ts i) as [task |] eqn:Hn; [| exact HI].
  destruct (findIndex_Some _ _ _ Hi) as [t' [Hn' Hg]].
  assert (t' = task) as -> by congruence.
  rewrite (Hrec task Hg). simpl.
  assert (Hids : map id (map (strip a) ts) = map id ts)
    by (rewrite map_map; now apply map_ext).
  assert (Hnd1 : NoDup (map id (map (strip a) ts))) by now rewrite Hids.
  assert (Hi1 : findIndex (map (strip a) ts) a = Some i).
  { rewrite <- Hi. now apply findIndex_ids. }
  assert (Hlook : forall x,
    getTask (updateTaskStatuses nw (splice1 i (map (strip a) ts))) x
    = if x =? a then None
      else option_map (fun t => sweep1 nw (strip a t)) (getTask ts x)).
  { intros x. rewrite getTask_sweep, (getTask_splice1 _ a i x Hnd1 Hi1).
    destruct (x =? a); [reflexivity |].
    rewrite (getTask_map (strip a)) by reflexivity.
    now destruct (getTask ts x). }
  apply (Inv_transfer _
           (fun i j => In j (depsOf ts i) /\ i <> a /\ j <> a)).
  - rewrite map_id_sweep. now apply splice1_NoDup.
  - intros x j. unfold depsOf at 1. rewrite Hlook.
    destruct (x =? a) eqn:E.
    + apply Z.eqb_eq in E. simpl. tauto.
    + apply Z.eqb_neq in E. unfold depsOf.
      destruct (getTask ts x) as [t |]; simpl; [| tauto].
      rewrite sweep1_dependencies. simpl. rewrite In_without. tauto.
  - intros x j. unfold dependentsOf at 1. rewrite Hlook.
    destruct (j =? a) eqn:E.
    + apply Z.eqb_eq in E. simpl. tauto.
    + apply Z.eqb_neq in E. rewrite (Hsym x j). unfold dependentsOf.
      destruct (getTask ts j) as [t |]; simpl; [| tauto].
      rewrite sweep1_dependents. simpl. rewrite In_without. tauto.
  - intros x [H _]. now apply Hirr in H.
Qed.

(** ** C3: the two edge lists stay mutual inverses *)

Lemma runOp_Inv env (op : Op) (st : TM) :
  plain st op -> Inv (tasks st) -> Inv (tasks (runOp env op st)).
Proof.
  intros Hp HI. destruct op as [taskData | a u | a | a b | a b]; unfold runOp.
  - rewrite tasks_createTask.
    exact (createTaskTasks_Inv env taskData (tasks st) HI).
  - destruct Hp as [Hid Hdts].
    destruct (updateTask_run env a u st) as (o & nots & -> & _). simpl.
    now apply updateTaskTasks_Inv.
  - rewrite deleteTask_run. simpl in *. now apply deleteTaskTasks_Inv.
  - rewrite addTaskDependency_run.
    destruct (tryAddEdge (now env) a b (tasks st)) as [e | ts'] eqn:E;
      simpl; [exact HI |].
    assert (H := addEdges_Inv (now env) a [b] (tasks st) HI).
    simpl in H. now rewrite E in H.
  - rewrite removeTaskDependency_run. simpl.
    apply (removeEdges_Inv (now env) a [b] (tasks st) HI).
Qed.

(** C3 (amended). Start from a well-formed store (distinct ids, inverse edge
    lists, no self-dependency; the empty store is one) and run any sequence
    of [createTask], [updateTask] with an update that sets neither [id] nor
    [dependents], [deleteTask] of a task that is not recurring,
    [addTaskDependency] and [removeTaskDependency], each returning or
    throwing.  Then for all tasks A and B in the store, B is in
    [A.dependencies] if and only if A is in [B.dependents]. *)
Theorem dependencies_dependents_inverse (ops : list (Env * Op)) (st : TM) :
  Inv (tasks st) ->
  allPlain ops st ->
  forall A B, In A (tasks (runOps ops st)) -> In B (tasks (runOps ops st)) ->
    (In (id B) (dependencies A) <-> In (id A) (dependents B)).
Proof.
  intros HI Hp. apply Inv_mutual_inverse.
  revert st HI Hp. induction ops as [| [env op] ops IH]; intros st HI Hp.
  - exact HI.
  - destruct Hp as [Hp1 Hp2]. simpl. apply IH; [| assumption].
    now apply runOp_Inv.
Qed.

(** The two tasks of [storeChain], reached from the empty store. *)
Lemma dependencies_dependents_inverse_witness :
  Inv (tasks emptyTM)
  /\ allPlain opsChain emptyTM
  /\ (In (id (nth 0 (tasks storeChain) blankTask))
         (dependencies (nth 1 (tasks storeChain) blankTask))
      <-> In (id (nth 1 (tasks storeChain) blankTask))
            (dependents (nth 0 (tasks storeChain) blankTask))).
Proof.
  split; [exact Inv_nil |].
  assert (Hp : allPlain opsChain emptyTM) by (repeat split).
  split; [exact Hp |].
  apply (dependencies_dependents_inverse opsChain emptyTM Inv_nil Hp);
    vm_compute; auto.
Defined.

(** C3, counterexample. A patch that sets [dependents] is merged into the
    record as it is: after [updateTask(1, { dependents: [2] })] task 1 lists
    task 2 as a dependent while task 2 does not depend on task 1. *)
Lemma dependents_patch_breaks_inverse :
  exists A B,
    getTask (tasks (runOp env0 (OpUpdateTask 1 dependentsPatch) storeTwo)) 2
    = Some A
    /\ getTask (tasks (runOp env0 (OpUpdateTask 1 dependentsPatch) storeTwo)) 1
       = Some B
    /\ ~ (In (id B) (dependencies A) <-> In (id A) (dependents B)).
Proof.
  eexists. eexists. split; [vm_compute; reflexivity |].
  split; [vm_compute; reflexivity |].
  simpl. intros [_ H]. destruct (H (or_introl eq_refl)).
Qed.

(** ** C1: a creation that fails on a cycle *)

(** C1, counterexample. With task 1 stored, [createTask] with dependencies
    [1; 2] (2 being the id the new task receives) throws the
    circular-reference error, yet the store has changed: the new record is in
    it and its edge to task 1 is recorded on both sides. *)
Lemma createTask_cycle_not_rolled_back :
  exists st',
    createTask env0 (dependingOn [1; 2]) storeOne = (Throw DependencyCycle, st')
    /\ tasks st' <> tasks storeOne
    /\ map id (tasks st') = [1; 2]
    /\ depsOf (tasks st') 2 = [1]
    /\ dependentsOf (tasks st') 1 = [2].
Proof.
  eexists. split; [vm_compute; reflexivity |].
  split; [| repeat split].
  intros H. apply (f_equal (@length Task)) in H. vm_compute in H.
  discriminate.
Qed.

Lemma tryAddEdge_error nw a b ts e :
  tryAddEdge nw a b ts = inl e -> e = NotFound \/ e = DependencyCycle.
Proof.
  unfold tryAddEdge.
  destruct (getTask ts a); [| intros [= <-]; now left].
  destruct (getTask ts b); [| intros [= <-]; now left].
  destruct (wouldCreateCircularDependency ts a b); [| discriminate].
  intros [= <-]. now right.
Qed.

Lemma tryAddEdge_cycle nw a b ts :
  tryAddEdge nw a b ts = inl DependencyCycle ->
  (exists ta, getTask ts a = Some ta)
  /\ (exists tb, getTask ts b = Some tb)
  /\ wouldCreateCircularDependency ts a b = true.
Proof.
  unfold tryAddEdge.
  destruct (getTask ts a) as [ta |]; [| discriminate].
  destruct (getTask ts b) as [tb |]; [| discriminate].
  destruct (wouldCreateCircularDependency ts a b); [| discriminate].
  intros _. split; [now exists ta |]. split; [now exists tb | reflexivity].
Qed.

Lemma someM_true_inv {A} (f : A -> option bool) (l : list A) :
  someM f l = Some true -> exists x, In x l /\ f x = Some true.
Proof.
  induction l as [| x l IH]; simpl; [discriminate |].
  destruct (f x) as [[|] |] eqn:E; [| | discriminate].
  - intros _. exists x. split; [now left | exact E].
  - intros H. destruct (IH H) as (y & Hy & Ey).
    exists y. split; [now right | exact Ey].
Qed.

(** A walk that answers [true] has met the target, a visited task, or a
    task that lies on a cycle. *)
Lemma wouldCreate_true_inv (ts : list Task) (a : Z) :
  forall fuel b visited,
    wouldCreate fuel ts a b visited = Some true ->
    exists y, (y = b \/ chain ts b y)
              /\ (y = a \/ In y visited \/ chain ts y y).
Proof.
  induction fuel as [| fuel IH]; intros b visited E; simpl in E;
    [discriminate |].
  destruct (memZ b visited) eqn:Em.
  { apply memZ_In in Em. exists b. split; [now left | right; now left]. }
  destruct (b =? a) eqn:Eb.
  { apply Z.eqb_eq in Eb. exists b. split; [now left | now left]. }
  destruct (getTask ts b) as [dt |] eqn:Eg; [| discriminate].
  apply someM_true_inv in E. destruct E as (d & Hd & Ed).
  assert (Hedge : In d (depsOf ts b)) by (unfold depsOf; now rewrite Eg).
  destruct (IH _ _ Ed) as (y & Hy & Hc).
  assert (Hby : chain ts b y).
  { destruct Hy as [-> | Hy];
      [now apply chain_edge | now apply chain_step with d]. }
  exists y. split; [now right |].
  destruct Hc as [Hc | [[Hc | Hc] | Hc]].
  - now left.
  - subst y. right. right. exact Hby.
  - right. now left.
  - right. now right.
Qed.

(** The cycle check answers [true] exactly for an entry that closes a
    cycle. *)
Lemma closesCycle_iff (ts : list Task) (a b : Z) :
  wouldCreateCircularDependency ts a b = true <-> closesCycle ts a b.
Proof.
  split.
  - intros H. assert (E := wouldCreateCircularDependency_total ts a b).
    rewrite H in E.
    destruct (wouldCreate_true_inv ts a _ _ _ E) as (y & Hy & Hc).
    destruct Hc as [-> | [[] | Hc]].
    + destruct Hy as [<- | Hy]; [now left | right; now left].
    + right. right. exists y. now split.
  - intros Hc.
    destruct (wouldCreateCircularDependency ts a b) eqn:E; [reflexivity |].
    apply wouldCreateCircularDependency_false in E.
    destruct E as (Hne & Hn & Hcyc).
    destruct Hc as [-> | [Hc | (y & Hy & Hc)]].
    + now destruct Hne.
    + now destruct (Hn Hc).
    + now destruct (Hcyc y Hy Hc).
Qed.

Lemma wouldCreateCircularDependency_no_chain (ts : list Task) (a b : Z) :
  a <> b ->
  ~ chain ts b a ->
  (forall x, x = b \/ chain ts b x -> ~ chain ts x x) ->
  wouldCreateCircularDependency ts a b = false.
Proof.
  intros H1 H2 H3.
  assert (E := wouldCreateCircularDependency_total ts a b).
  apply (wouldCreate_no_chain ts a b H1 H2 H3 _ b [] _ E);
    [now left | intros v []].
Qed.

Lemma chain_linking (ts0 : list Task) (n : Z) (ts : list Task) :
  linking ts0 n ts ->
  forall x y, chain ts x y -> x <> n -> chain ts0 x y \/ chain ts0 x n.
Proof.
  intros [_ Hb] x y H.
  induction H as [x y H | x y z H Hc IH]; intros Hx.
  - left. apply chain_edge. now apply Hb.
  - apply Hb in H; [| exact Hx].
    destruct (Z.eq_dec y n) as [-> | Hy].
    + right. now apply chain_edge.
    + destruct (IH Hy) as [IH' | IH']; [left | right];
        now apply chain_step with y.
Qed.

Lemma linking_mono (ts0 : list Task) (n : Z) (ts : list Task) :
  getTask ts0 n = None -> linking ts0 n ts ->
  forall x y, chain ts0 x y -> chain ts x y.
Proof.
  intros Hf [_ Hb]. apply chain_mono. intros i j Hj.
  destruct (Z.eq_dec i n) as [-> | Hi].
  - unfold depsOf in Hj. rewrite Hf in Hj. destruct Hj.
  - now apply Hb.
Qed.

(** The edges a new task has received so far do not change the answer of the
    cycle check for it. *)
Lemma check_linking (ts0 : list Task) (n : Z) (ts : list Task) (x : Z) :
  getTask ts0 n = None -> linking ts0 n ts ->
  wouldCreateCircularDependency ts n x
  = wouldCreateCircularDependency ts0 n x.
Proof.
  intros Hf HL.
  destruct (wouldCreateCircularDependency ts0 n x) eqn:E0.
  - destruct (wouldCreateCircularDependency ts n x) eqn:E; [reflexivity |].
    apply wouldCreateCircularDependency_false in E.
    destruct E as (Hne & Hn & Hcyc).
    rewrite <- E0. symmetry.
    apply wouldCreateCircularDependency_no_chain; [exact Hne | |].
    + intros Hc. apply Hn. now apply (linking_mono ts0 n ts Hf HL).
    + intros y Hy Hc. apply (Hcyc y).
      * destruct Hy as [-> | Hy]; [now left |].
        right. now apply (linking_mono ts0 n ts Hf HL).
      * now apply (linking_mono ts0 n ts Hf HL).
  - apply wouldCreateCircularDependency_false in E0.
    destruct E0 as (Hne & Hn & Hcyc).
    assert (Hx : x <> n) by congruence.
    assert (Hreach : forall y, chain ts x y -> chain ts0 x y /\ y <> n).
    { intros y Hy.
      destruct (chain_linking ts0 n ts HL x y Hy Hx) as [H | H];
        [| now destruct (Hn H)].
      split; [exact H |]. intros ->. now apply Hn. }
    apply wouldCreateCircularDependency_no_chain; [exact Hne | |].
    + intros Hc. now destruct (Hreach n Hc) as [_ H].
    + intros y [-> | Hy] Hc.
      * destruct (Hreach x Hc) as [H _]. apply (Hcyc x); [now left | exact H].
      * destruct (Hreach y Hy) as [H Hyn].
        destruct (chain_linking ts0 n ts HL y y Hc Hyn) as [H' | H'].
        -- apply (Hcyc y); [now right | exact H'].
        -- apply Hn. now apply chain_trans with y.
Qed.

Lemma stored_In_ids (ts : list Task) (x : Z) :
  (exists t, getTask ts x = Some t) <-> In x (map id ts).
Proof.
  split; [| apply getTask_In_ids].
  intros [t H]. destruct (getTask_Some _ _ _ H) as [Hin <-].
  now apply in_map.
Qed.

Lemma tryAddEdge_linking nw (ts0 : list Task) (n : Z) (ts : list Task)
    (p : Z) :
  getTask ts0 n = None -> linking ts0 n ts ->
  (exists t, getTask ts0 p = Some t) ->
  wouldCreateCircularDependency ts0 n p = false ->
  tryAddEdge nw n p ts = inr (addEdgeTasks nw n p ts)
  /\ linking ts0 n (addEdgeTasks nw n p ts).
Proof.
  intros Hf HL Hp Hc.
  assert (Hck := check_linking ts0 n ts p Hf HL). rewrite Hc in Hck.
  destruct HL as [Hids Hb].
  assert (Hn : exists t, getTask ts n = Some t).
  { apply stored_In_ids. rewrite Hids. apply in_or_app. right. now left. }
  assert (Hp' : exists t, getTask ts p = Some t).
  { apply stored_In_ids. rewrite Hids. apply in_or_app. left.
    now apply stored_In_ids. }
  destruct Hn as [tn Hn]. destruct Hp' as [tp Hp'].
  split.
  - unfold tryAddEdge. now rewrite Hn, Hp', Hck.
  - split; [now rewrite map_id_addEdgeTasks |].
    intros i j Hi. rewrite (depsOf_addEdgeTasks nw n p ts i tn Hn).
    apply Z.eqb_neq in Hi. rewrite Hi. apply Z.eqb_neq in Hi. now apply Hb.
Qed.

(** The loop of [updateTaskDependencies] for a task that is being created:
    it accepts the entries that name stored tasks closing no cycle and throws
    at the first entry that closes one. *)
Lemma addEdges_linking nw (ts0 : list Task) (n : Z) :
  getTask ts0 n = None ->
  forall pre ts d post,
    linking ts0 n ts ->
    (forall p, In p pre ->
       (exists t, getTask ts0 p = Some t)
       /\ wouldCreateCircularDependency ts0 n p = false) ->
    (d = n \/ exists t, getTask ts0 d = Some t) ->
    wouldCreateCircularDependency ts0 n d = true ->
    addEdges nw n (pre ++ d :: post) ts
    = (Some DependencyCycle, snd (addEdges nw n pre ts))
    /\ fst (addEdges nw n pre ts) = None
    /\ linking ts0 n (snd (addEdges nw n pre ts)).
Proof.
  intros Hf. induction pre as [| p pre IH]; intros ts d post HL Hpre Hd Hc.
  - cbn [app addEdges fst snd].
    assert (Hck := check_linking ts0 n ts d Hf HL). rewrite Hc in Hck.
    assert (Hids := proj1 HL).
    assert (Hn : exists t, getTask ts n = Some t).
    { apply stored_In_ids. rewrite Hids. apply in_or_app. right. now left. }
    assert (Hd' : exists t, getTask ts d = Some t).
    { destruct Hd as [-> | Hd]; [exact Hn |].
      apply stored_In_ids. rewrite Hids. apply in_or_app. left.
      now apply stored_In_ids. }
    destruct Hn as [tn Hn]. destruct Hd' as [td Hd'].
    unfold tryAddEdge. destruct Hd as [-> | Hd].
    + rewrite Hn, Hck. split; [reflexivity | split; [reflexivity | exact HL]].
    + rewrite Hn, Hd', Hck.
      split; [reflexivity | split; [reflexivity | exact HL]].
  - destruct (Hpre p (or_introl eq_refl)) as [Hp Hcp].
    destruct (tryAddEdge_linking nw ts0 n ts p Hf HL Hp Hcp) as [Ht HL'].
    cbn [app addEdges]. rewrite Ht.
    apply IH; [exact HL' | | exact Hd | exact Hc].
    intros q Hq. apply Hpre. now right.
Qed.

(** At an entry that names no stored task the loop throws the not-found
    error instead. *)
Lemma addEdges_linking_missing nw (ts0 : list Task) (n : Z) :
  getTask ts0 n = None ->
  forall pre ts d post,
    linking ts0 n ts ->
    (forall p, In p pre ->
       (exists t, getTask ts0 p = Some t)
       /\ wouldCreateCircularDependency ts0 n p = false) ->
    d <> n -> getTask ts0 d = None ->
    fst (addEdges nw n (pre ++ d :: post) ts) = Some NotFound.
Proof.
  intros Hf. induction pre as [| p pre IH]; intros ts d post HL Hpre Hd Hm.
  - cbn [app addEdges].
    assert (Hids := proj1 HL).
    assert (Hd' : getTask ts d = None).
    { apply getTask_None. rewrite Hids. intros Hin.
      apply in_app_or in Hin. destruct Hin as [Hin | [Hin | []]].
      - apply getTask_None in Hm. contradiction.
      - now apply Hd. }
    unfold tryAddEdge. rewrite Hd'.
    now destruct (getTask ts n).
  - destruct (Hpre p (or_introl eq_refl)) as [Hp Hcp].
    destruct (tryAddEdge_linking nw ts0 n ts p Hf HL Hp Hcp) as [Ht HL'].
    cbn [app addEdges]. rewrite Ht.
    apply IH; [exact HL' | | exact Hd | exact Hm].
    intros q Hq. apply Hpre. now right.
Qed.

Lemma addEdges_cycle_inv nw (ts0 : list Task) (n : Z) :
  getTask ts0 n = None ->
  forall l ts,
    linking ts0 n ts ->
    fst (addEdges nw n l ts) = Some DependencyCycle ->
    exists pre d post,
      l = pre ++ d :: post
      /\ (forall p, In p pre ->
            (exists t, getTask ts0 p = Some t)
            /\ wouldCreateCircularDependency ts0 n p = false)
      /\ (d = n \/ exists t, getTask ts0 d = Some t)
      /\ wouldCreateCircularDependency ts0 n d = true.
Proof.
  intros Hf. induction l as [| b l IH]; intros ts HL H;
    cbn [addEdges fst] in H; [discriminate |].
  assert (Hck := check_linking ts0 n ts b Hf HL).
  assert (Hids := proj1 HL).
  assert (Hst : (exists t, getTask ts b = Some t) ->
                b = n \/ exists t, getTask ts0 b = Some t).
  { intros Hb. apply stored_In_ids in Hb. rewrite Hids in Hb.
    apply in_app_or in Hb. destruct Hb as [Hb | [Hb | []]];
      [right; now apply stored_In_ids | now left]. }
  destruct (tryAddEdge nw n b ts) as [e | ts'] eqn:Et.
  - cbn [fst] in H. injection H as ->.
    apply tryAddEdge_cycle in Et. destruct Et as (_ & Hb & Hc).
    exists [], b, l. split; [reflexivity |].
    split; [intros p [] |]. split; [now apply Hst |].
    now rewrite <- Hck.
  - apply tryAddEdge_inr in Et. destruct Et as (-> & _ & Hb & Hc).
    rewrite Hck in Hc.
    assert (Hbn : b <> n).
    { intros ->. rewrite wouldCreateCircularDependency_self in Hc.
      discriminate. }
    assert (Hb0 : exists t, getTask ts0 b = Some t).
    { destruct (Hst Hb) as [-> | Hb0]; [now destruct Hbn | exact Hb0]. }
    destruct (tryAddEdge_linking nw ts0 n ts b Hf HL Hb0 Hc) as [_ HL'].
    destruct (IH _ HL' H) as (pre & d & post & -> & Hpre & Hd & Hcd).
    exists (b :: pre), d, post. split; [reflexivity |].
    split; [| now split].
    intros p [<- | Hp]; [now split | now apply Hpre].
Qed.

(** The dependency loop of [createTask] starts from the array with the new
    record pushed and its own entries removed again. *)
Lemma createTaskTasks_loop env taskData ts :
  let nt := newTaskOf env ts taskData in
  let ts2 := removeEdges (now env) (id nt) (dependencies nt)
               (updateTaskStatuses (now env) (ts ++ [nt])) in
  createTaskTasks env taskData ts
  = addEdges (now env) (id nt) (dependencies nt) ts2
  /\ linking ts (id nt) ts2
  /\ (forall j, ~ In j (depsOf ts2 (id nt))).
Proof.
  cbv zeta. unfold createTaskTasks.
  set (nt := newTaskOf env ts taskData).
  assert (Hfresh : getTask ts (id nt) = None) by apply getNextTaskId_fresh.
  set (ts1 := updateTaskStatuses (now env) (ts ++ [nt])).
  destruct (removeEdges_edges (now env) (id nt) (dependencies nt) ts1)
    as (Hids & HE2 & _).
  split; [| split].
  - destruct (dependencies nt) as [| d0 l0] eqn:Ed; [reflexivity |].
    rewrite <- Ed. unfold updateDependenciesTasks. unfold ts1.
    rewrite (getTask_pushed _ _ _ _ Hfresh), Z.eqb_refl.
    now rewrite sweep1_dependencies.
  - split.
    + rewrite Hids. unfold ts1. now rewrite map_id_sweep, map_app.
    + intros i j Hi. rewrite HE2. unfold ts1.
      rewrite (depsOf_pushed _ _ _ _ Hfresh).
      apply Z.eqb_neq in Hi. rewrite Hi. apply Z.eqb_neq in Hi. tauto.
  - intros j Hj. apply HE2 in Hj. destruct Hj as [Hj Hn].
    apply Hn. split; [reflexivity |].
    unfold ts1 in Hj. rewrite (depsOf_pushed _ _ _ _ Hfresh) in Hj.
    now rewrite Z.eqb_refl in Hj.
Qed.

(** C1 (amended). Let n be the id the new task receives.  [createTask] fails
    with the circular-reference error exactly when the supplied list reaches
    an entry that closes a cycle (n itself, or a stored task from which n or
    a cycle of the store is reached along dependency edges) after entries
    that all name stored tasks closing none; an entry that names no stored
    task, reached first, makes it fail with the not-found error instead.
    Nothing is rolled back on a cycle:
    the new record stays in the store under n, so the store differs from the
    one before the call; the entries before the offending one are recorded as
    edges on both sides and are the only dependencies of the new record; the
    dependencies of every other task are as before; the offending entry is
    one the cycle check rejects in the store left behind.  Schedules and
    notifications are untouched. *)
Theorem createTask_cycle_keeps_record env (taskData : TaskData) (st : TM) :
  (forall pre d post,
     orElse (d_dependencies taskData) [] = pre ++ d :: post ->
     (forall p, In p pre ->
        (exists t, getTask (tasks st) p = Some t)
        /\ ~ closesCycle (tasks st) (getNextTaskId (tasks st)) p) ->
     (d = getNextTaskId (tasks st)
      \/ exists t, getTask (tasks st) d = Some t) ->
     closesCycle (tasks st) (getNextTaskId (tasks st)) d ->
     exists st',
       createTask env taskData st = (Throw DependencyCycle, st')
       /\ map id (tasks st') = map id (tasks st) ++ [getNextTaskId (tasks st)]
       /\ tasks st' <> tasks st
       /\ recurringTasks st' = recurringTasks st
       /\ taskNotifications st' = taskNotifications st
       /\ (forall p, In p pre ->
             In p (depsOf (tasks st') (getNextTaskId (tasks st)))
             /\ In (getNextTaskId (tasks st)) (dependentsOf (tasks st') p))
       /\ (forall x, In x (depsOf (tasks st') (getNextTaskId (tasks st))) ->
             In x pre)
       /\ (forall i j, i <> getNextTaskId (tasks st) ->
             (In j (depsOf (tasks st') i) <-> In j (depsOf (tasks st) i)))
       /\ wouldCreateCircularDependency (tasks st')
            (getNextTaskId (tasks st)) d = true)
  /\ (forall st',
        createTask env taskData st = (Throw DependencyCycle, st') ->
        exists pre d post,
          orElse (d_dependencies taskData) [] = pre ++ d :: post
          /\ (forall p, In p pre ->
                (exists t, getTask (tasks st) p = Some t)
                /\ ~ closesCycle (tasks st) (getNextTaskId (tasks st)) p)
          /\ (d = getNextTaskId (tasks st)
              \/ exists t, getTask (tasks st) d = Some t)
          /\ closesCycle (tasks st) (getNextTaskId (tasks st)) d)
  /\ (forall pre d post,
        orElse (d_dependencies taskData) [] = pre ++ d :: post ->
        (forall p, In p pre ->
           (exists t, getTask (tasks st) p = Some t)
           /\ ~ closesCycle (tasks st) (getNextTaskId (tasks st)) p) ->
        d <> getNextTaskId (tasks st) ->
        getTask (tasks st) d = None ->
        fst (createTask env taskData st) = Throw NotFound).
Proof.
  assert (Hfresh : getTask (tasks st) (getNextTaskId (tasks st)) = None)
    by apply getNextTaskId_fresh.
  destruct (createTaskTasks_loop env taskData (tasks st))
    as (Hrun & HL & Hempty).
  cbv zeta in Hrun, HL, Hempty.
  change (dependencies (newTaskOf env (tasks st) taskData))
    with (orElse (d_dependencies taskData) []) in Hrun, HL, Hempty.
  change (id (newTaskOf env (tasks st) taskData))
    with (getNextTaskId (tasks st)) in Hrun, HL, Hempty.
  set (n := getNextTaskId (tasks st)) in *.
  set (ts2 := removeEdges (now env) n (orElse (d_dependencies taskData) [])
                (updateTaskStatuses (now env)
                   (tasks st ++ [newTaskOf env (tasks st) taskData]))) in *.
  assert (Haccepted : forall pre : list Z,
            (forall p, In p pre ->
               (exists t, getTask (tasks st) p = Some t)
               /\ ~ closesCycle (tasks st) n p) ->
            forall p, In p pre ->
              (exists t, getTask (tasks st) p = Some t)
              /\ wouldCreateCircularDependency (tasks st) n p = false).
  { intros pre Hpre p Hp. destruct (Hpre p Hp) as [Hs Hn].
    split; [exact Hs |].
    destruct (wouldCreateCircularDependency (tasks st) n p) eqn:E;
      [| reflexivity].
    apply closesCycle_iff in E. contradiction. }
  split; [| split].
  - intros pre d post Hl Hpre Hd Hc.
    assert (Hpre' := Haccepted pre Hpre).
    apply closesCycle_iff in Hc.
    destruct (addEdges_linking (now env) (tasks st) n Hfresh pre ts2 d post
                HL Hpre' Hd Hc) as (Ha & Hnone & HL3).
    rewrite Hl, Ha in Hrun.
    set (ts3 := snd (addEdges (now env) n pre ts2)) in *.
    exists (withTasks st ts3).
    split; [rewrite createTask_run; cbv zeta; now rewrite Hrun |].
    rewrite tasks_withTasks.
    split; [exact (proj1 HL3) |]. split.
    { intros E. apply (f_equal (@length Task)) in E.
      assert (Hlen := f_equal (@length Z) (proj1 HL3)).
      rewrite length_app, !length_map in Hlen. simpl in Hlen. lia. }
    split; [reflexivity |]. split; [reflexivity |].
    destruct (addEdges_edges (now env) n pre ts2)
      as (done & rest & Hsplit & _ & HE3 & HR3 & _ & Hr).
    rewrite Hnone in Hr. subst rest. rewrite app_nil_r in Hsplit.
    subst done. fold ts3 in HE3, HR3.
    split.
    { intros p Hp. split; [apply HE3 | apply HR3]; right; now split. }
    split.
    { intros x Hx. apply HE3 in Hx. destruct Hx as [Hx | [_ Hx]];
        [now apply Hempty in Hx | exact Hx]. }
    split; [exact (proj2 HL3) |].
    now rewrite (check_linking (tasks st) n ts3 d Hfresh HL3).
  - intros st' H. apply createTask_Throw in H. cbv zeta in H.
    destruct H as [_ [H | (_ & H & _)]]; [| discriminate].
    rewrite Hrun in H.
    destruct (addEdges_cycle_inv (now env) (tasks st) n Hfresh _ ts2 HL H)
      as (pre & d & post & Hl & Hpre & Hd & Hc).
    exists pre, d, post. split; [exact Hl |].
    split; [| split; [exact Hd | now apply closesCycle_iff]].
    intros p Hp. destruct (Hpre p Hp) as [Hs Hn]. split; [exact Hs |].
    intros Hcl. apply closesCycle_iff in Hcl. congruence.
  - intros pre d post Hl Hpre Hd Hm.
    assert (He := addEdges_linking_missing (now env) (tasks st) n Hfresh
                    pre ts2 d post HL (Haccepted pre Hpre) Hd Hm).
    rewrite <- Hl, <- Hrun in He.
    rewrite createTask_run. cbv zeta.
    destruct (createTaskTasks env taskData (tasks st)) as [[e |] ts3];
      cbn [fst] in He; [| discriminate].
    now injection He as ->.
Qed.

(** The failing creation above, in [storeOne]: task 1 is accepted, the id 2
    of the new task itself closes a cycle. *)
Lemma createTask_cycle_keeps_record_witness :
  exists st',
    createTask env0 (dependingOn [1; 2]) storeOne
    = (Throw DependencyCycle, st')
    /\ map id (tasks st')
       = map id (tasks storeOne) ++ [getNextTaskId (tasks storeOne)]
    /\ tasks st' <> tasks storeOne
    /\ (forall x, In x (depsOf (tasks st') 2) -> In x [1]).
Proof.
  destruct (proj1 (createTask_cycle_keeps_record env0 (dependingOn [1; 2])
                     storeOne) [1] 2 [] eq_refl)
    as (st' & H1 & H2 & H3 & _ & _ & _ & H6 & _).
  - intros p [<- | []]. split; [eexists; vm_compute; reflexivity |].
    intros Hc. apply closesCycle_iff in Hc. vm_compute in Hc. discriminate.
  - left. reflexivity.
  - left. reflexivity.
  - exists st'. split; [exact H1 |]. split; [exact H2 |].
    split; [exact H3 | exact H6].
Defined.

(** ** C6: overdue tasks *)

(** What [getOverdueTasks] returns: the tasks with a due date before [nw]
    whose status is not COMPLETED. *)
Lemma getOverdueTasks_spec (nw : Z) (ts : list Task) (t : Task) :
  In t (getOverdueTasks nw ts)
  <-> In t ts /\ status t <> COMPLETED
      /\ exists d, dueDate t = Some d /\ d < nw.
Proof.
  unfold getOverdueTasks. rewrite filter_In. split.
  - intros [Hin H]. split; [assumption |].
    destruct (dueDate t) as [d |]; [| discriminate].
    destruct (Status_eqb (status t) COMPLETED) eqn:E; [discriminate |].
    apply Status_eqb_neq in E. split; [assumption |].
    exists d. split; [reflexivity | now apply Z.ltb_lt].
  - intros (Hin & Hs & d & Hd & Hlt). split; [assumption |].
    rewrite Hd. apply Status_eqb_neq in Hs. rewrite Hs.
    now apply Z.ltb_lt.
Qed.

Lemma getOverdueTasks_cancelled (nw : Z) (ts : list Task) (t : Task) (d : Z) :
  In t ts -> status t = CANCELLED -> dueDate t = Some d -> d < nw ->
  In t (getOverdueTasks nw ts).
Proof.
  intros Hin Hs Hd Hlt. apply getOverdueTasks_spec.
  split; [assumption |]. split; [rewrite Hs; discriminate |].
  now exists d.
Qed.

(** C6, at the failing input. The store holds one CANCELLED task whose due
    date lies before [now]; the sweep of [saveTasks] has left it CANCELLED,
    and [getOverdueTasks] returns it. *)
Theorem getOverdueTasks_returns_cancelled :
  exists t,
    tasks storeCancelled = [t]
    /\ status t = CANCELLED
    /\ dueDate t = Some 500
    /\ 500 < now env0
    /\ getOverdueTasks (now env0) (tasks storeCancelled) = [t].
Proof.
  eexists. split; [vm_compute; reflexivity |]. repeat split.
Qed.

(** ** C5: progress updates *)

Lemma nth_sweep_setAt nw (ts : list Task) (i : nat) (v t : Task) :
  nth_error ts i = Some t ->
  nth i (updateTaskStatuses nw (setAt i v ts)) v = sweep1 nw v.
Proof.
  intros Hn. apply nth_error_nth. unfold updateTaskStatuses.
  rewrite nth_error_map. revert i Hn.
  induction ts as [| t0 l IH]; intros [| i] Hn; simpl in *;
    try discriminate; [reflexivity | now apply IH].
Qed.

Lemma sweep1_progress nw t : progress (sweep1 nw t) = progress t.
Proof. unfold sweep1. now destruct (isLate nw t). Qed.

Lemma sweep1_completedAt nw t : completedAt (sweep1 nw t) = completedAt t.
Proof. unfold sweep1. now destruct (isLate nw t). Qed.

Lemma sweep1_status nw t :
  status (sweep1 nw t) = status t \/ status (sweep1 nw t) = OVERDUE.
Proof. unfold sweep1. destruct (isLate nw t); [now right | now left]. Qed.

(** What [updateTaskProgress] stores for an existing task: the clamped
    progress in every case; COMPLETED with a completion time when the
    argument is exactly 100; no completion when the argument exceeds 100 and
    the task was PENDING. *)
Lemma updateTaskProgress_stored env (a p : Z) (hours : option Z) (st : TM)
    (task : Task) :
  getTask (tasks st) a = Some task ->
  exists r st',
    updateTaskProgress env a p hours st = (Return r, st')
    /\ getTask (tasks st') a = Some r
    /\ progress r = clamp p
    /\ (p = 100 -> status task <> COMPLETED ->
        status r = COMPLETED /\ completedAt r = Some (now env))
    /\ (100 < p -> status task = PENDING ->
        status r <> COMPLETED /\ completedAt r = completedAt task).
Proof.
  intros Hg. unfold updateTaskProgress, bind at 1, getTasks. rewrite Hg.
  destruct (findIndex (tasks st) a) as [i |] eqn:Hi.
  2:{ apply findIndex_None in Hi. congruence. }
  destruct (findIndex_Some _ _ _ Hi) as [t' [Hn Hg']].
  assert (t' = task) as -> by congruence.
  match goal with
  | |- context [updateTask env a ?u st] => set (u0 := u)
  end.
  destruct (updateTask_plain env a u0 st i task Hi Hn eq_refl) as [nots ->].
  set (upd := updatedRecord (now env) task u0).
  assert (Hida : id upd = a).
  { unfold upd. rewrite updatedRecord_id by reflexivity.
    now destruct (getTask_Some _ _ _ Hg). }
  eexists. eexists. split; [reflexivity |].
  rewrite (nth_sweep_setAt _ _ _ _ _ Hn). cbn [tasks].
  split.
  { rewrite getTask_sweep, (getTask_setAt _ _ _ _ _ Hi Hida), Z.eqb_refl.
    reflexivity. }
  rewrite sweep1_progress, sweep1_completedAt.
  unfold upd, updatedRecord, u0. cbn [u_status].
  destruct ((p =? 100) && negb (Status_eqb (status task) COMPLETED)) eqn:E1.
  - apply andb_prop in E1. destruct E1 as [Ep Es].
    apply Z.eqb_eq in Ep. apply negb_true_iff in Es.
    assert ((Status_eqb COMPLETED (status task)) = false) as ->.
    { apply Status_eqb_neq. apply Status_eqb_neq in Es. congruence. }
    rewrite Status_eqb_refl. cbn. split; [subst p; reflexivity |].
    split; [| lia].
    intros _ _. split; [| reflexivity].
    apply sweep1_completed. reflexivity.
  - destruct ((0 <? p) && Status_eqb (status task) PENDING) eqn:E2.
    + apply andb_prop in E2. destruct E2 as [Ep Es].
      apply Status_eqb_eq in Es. rewrite Es. cbn.
      split; [reflexivity |]. split.
      * intros -> Hs. rewrite Es in E1. discriminate.
      * intros _ _. split; [| reflexivity].
        match goal with
        | |- status (sweep1 ?n ?t) <> _ =>
            destruct (sweep1_status n t) as [-> | ->]; discriminate
        end.
    + cbn. split; [reflexivity |]. split.
      * intros -> Hs. apply Status_eqb_neq in Hs. rewrite Hs in E1.
        discriminate.
      * intros Hp Hs. rewrite Hs in E2.
        assert ((0 <? p) = true) by (apply Z.ltb_lt; lia).
        rewrite H in E2. discriminate.
Qed.

(** C5, at the failing input. Task 1 is PENDING; [updateTaskProgress(1, 150)]
    stores the clamped progress 100, but the status becomes IN_PROGRESS and
    no completion time is set: the test for completion reads the argument,
    not the clamped value. *)
Theorem updateTaskProgress_above_100 :
  exists t r st',
    getTask (tasks storeOne) 1 = Some t
    /\ status t = PENDING
    /\ updateTaskProgress env0 1 150 None storeOne = (Return r, st')
    /\ getTask (tasks st') 1 = Some r
    /\ clamp 150 = 100
    /\ progress r = 100
    /\ status r = IN_PROGRESS
    /\ completedAt r = None.
Proof.
  do 3 eexists. split; [vm_compute; reflexivity |].
  split; [reflexivity |].
  split; [vm_compute; reflexivity |].
  repeat split.
Qed.

(** ** C8: deleting a task *)

(** A recurring task cannot be deleted: the call of the missing method
    [cancelRecurringTask] throws once the edges have been stripped, the
    record stays in the array and the schedules are not touched. *)
Lemma deleteTask_recurring env (a : Z) (st : TM) (t : Task) :
  getTask (tasks st) a = Some t -> isRecurring t = true ->
  deleteTask env a st
  = (Throw TypeError, withTasks st (map (strip a) (tasks st))).
Proof.
  intros Hg Hr. rewrite deleteTask_run. unfold deleteTaskTasks.
  destruct (findIndex (tasks st) a) as [i |] eqn:Hi.
  2:{ apply findIndex_None in Hi. congruence. }
  destruct (findIndex_Some _ _ _ Hi) as [t' [Hn Hg']].
  assert (t' = t) as -> by congruence.
  now rewrite Hn, Hr.
Qed.

(** Deleting a stored task that is not recurring returns; afterwards the id
    resolves to nothing and occurs in no edge list, and every other task is
    what it was, up to the two filtered lists and the status sweep of
    [saveTasks]. *)
Lemma deleteTask_plain env (a : Z) (st : TM) (t : Task) :
  NoDup (map id (tasks st)) ->
  getTask (tasks st) a = Some t -> isRecurring t = false ->
  exists st',
    deleteTask env a st = (Return true, st')
    /\ recurringTasks st' = recurringTasks st
    /\ forall x,
         getTask (tasks st') x
         = if x =? a then None
           else option_map (fun u => sweep1 (now env) (strip a u))
                  (getTask (tasks st) x).
Proof.
  intros Hnd Hg Hr. rewrite deleteTask_run. unfold deleteTaskTasks.
  destruct (findIndex (tasks st) a) as [i |] eqn:Hi.
  2:{ apply findIndex_None in Hi. congruence. }
  destruct (findIndex_Some _ _ _ Hi) as [t' [Hn Hg']].
  assert (t' = t) as -> by congruence.
  rewrite Hn, Hr. eexists. split; [reflexivity |].
  split; [reflexivity |]. intros x. cbn [snd tasks withTasks].
  assert (Hids : map id (map (strip a) (tasks st)) = map id (tasks st))
    by (rewrite map_map; now apply map_ext).
  rewrite getTask_sweep.
  rewrite (getTask_splice1 _ a i x).
  - destruct (x =? a); [reflexivity |].
    rewrite (getTask_map (strip a)) by reflexivity.
    now destruct (getTask (tasks st) x).
  - now rewrite Hids.
  - rewrite <- Hi. now apply findIndex_ids.
Qed.

(** C8, at the failing input. Task 1 is a recurring parent and task 2 depends
    on it.  [deleteTask(1)] throws a TypeError; task 1 is still stored, its
    schedule is still active, and the edge has been removed from task 2 only. *)
Theorem deleteTask_recurring_parent_throws :
  exists t1 st',
    getTask (tasks storeRecurring) 1 = Some t1
    /\ isRecurring t1 = true
    /\ depsOf (tasks storeRecurring) 2 = [1]
    /\ deleteTask env0 1 storeRecurring = (Throw TypeError, st')
    /\ map id (tasks st') = [1; 2]
    /\ map parentTaskId (recurringTasks st') = [1]
    /\ map isActive (recurringTasks st') = [true]
    /\ depsOf (tasks st') 2 = []
    /\ dependentsOf (tasks st') 1 = [2].
Proof.
  do 2 eexists. split; [vm_compute; reflexivity |].
  split; [reflexivity |]. split; [reflexivity |].
  split; [vm_compute; reflexivity |]. repeat split.
Qed.

(** ** C2: the scheduler tick *)

Lemma createTaskTasks_edges env taskData ts :
  exists done rest,
    dependencies (newTaskOf env ts taskData) = done ++ rest
    /\ (fst (createTaskTasks env taskData ts) = None -> rest = [])
    /\ (forall e, fst (createTaskTasks env taskData ts) = Some e ->
          e = NotFound \/ e = DependencyCycle)
    /\ (forall j, In j (depsOf (snd (createTaskTasks env taskData ts))
                          (getNextTaskId ts)) <-> In j done)
    /\ (forall i j, i <> getNextTaskId ts ->
          (In j (depsOf (snd (createTaskTasks env taskData ts)) i)
           <-> In j (depsOf ts i)))
    /\ (forall i, ~ In i (dependentsOf (snd (createTaskTasks env taskData ts))
                            (getNextTaskId ts)))
    /\ (forall j, In j done ->
          j <> getNextTaskId ts
          /\ In (getNextTaskId ts)
               (dependentsOf (snd (createTaskTasks env taskData ts)) j)
          /\ exists d, getTask ts j = Some d).
Proof.
  assert (Hids := map_id_createTaskTasks env taskData ts).
  unfold createTaskTasks in *.
  set (nt := newTaskOf env ts taskData) in *.
  change (getNextTaskId ts) with (id nt) in *.
  assert (Hfresh : getTask ts (id nt) = None) by apply getNextTaskId_fresh.
  set (ts1 := updateTaskStatuses (now env) (ts ++ [nt])) in *.
  assert (HE1 : forall x, depsOf ts1 x
                = if x =? id nt then dependencies nt else depsOf ts x)
    by (intros x; apply (depsOf_pushed _ _ _ _ Hfresh)).
  assert (HR1 : forall x, dependentsOf ts1 x
                = if x =? id nt then [] else dependentsOf ts x)
    by (intros x; apply (dependentsOf_pushed _ _ _ _ Hfresh)).
  destruct (dependencies nt) as [| d0 l0] eqn:Ed.
  { exists [], []. cbn [fst snd]. split; [reflexivity |].
    split; [reflexivity |]. split; [discriminate |].
    split; [intros j; rewrite HE1, Z.eqb_refl; tauto |].
    split.
    { intros i j Hi. rewrite HE1. apply Z.eqb_neq in Hi. rewrite Hi. tauto. }
    split; [intros i; rewrite HR1, Z.eqb_refl; tauto |].
    intros j []. }
  rewrite <- Ed in *. clear Ed d0 l0.
  unfold updateDependenciesTasks in *.
  assert (Hg1 : getTask ts1 (id nt) = Some (sweep1 (now env) nt)).
  { unfold ts1. now rewrite (getTask_pushed _ _ _ _ Hfresh), Z.eqb_refl. }
  rewrite Hg1, sweep1_dependencies in *.
  set (ts2 := removeEdges (now env) (id nt) (dependencies nt) ts1) in *.
  destruct (removeEdges_edges (now env) (id nt) (dependencies nt) ts1)
    as (_ & HE2 & HR2). fold ts2 in HE2, HR2.
  destruct (addEdges_edges (now env) (id nt) (dependencies nt) ts2)
    as (done & rest & Hl & _ & HE3 & HR3 & Hne & Hr).
  set (ts3 := snd (addEdges (now env) (id nt) (dependencies nt) ts2)) in *.
  exists done, rest. split; [exact Hl |].
  split; [intros E; now rewrite E in Hr |].
  split.
  { intros e E. rewrite E in Hr. destruct Hr as (d & rest' & _ & Ht).
    now apply (tryAddEdge_error _ _ _ _ _ Ht). }
  split.
  { intros j. rewrite HE3, HE2, HE1, Z.eqb_refl. tauto. }
  split.
  { intros i j Hi. rewrite HE3, HE2, HE1. apply Z.eqb_neq in Hi.
    rewrite Hi. apply Z.eqb_neq in Hi. tauto. }
  split.
  { intros i Hin. apply HR3 in Hin. destruct Hin as [Hin | [_ Hin]].
    - apply HR2 in Hin. rewrite HR1, Z.eqb_refl in Hin. tauto.
    - now apply Hne in Hin. }
  intros j Hj. assert (Hjn := Hne j Hj). split; [exact Hjn |].
  assert (Hin : In (id nt) (dependentsOf ts3 j)) by (apply HR3; now right).
  split; [exact Hin |].
  unfold dependentsOf in Hin.
  destruct (getTask ts3 j) as [d |] eqn:Eg; [| destruct Hin].
  apply getTask_In_ids.
  destruct (getTask_Some _ _ _ Eg) as [Hd <-].
  apply (in_map id) in Hd. rewrite Hids in Hd.
  apply in_app_or in Hd. destruct Hd as [Hd | [Hd | []]]; [exact Hd |].
  congruence.
Qed.

Lemma core_sweep1 nw t : core (sweep1 nw t) = core t.
Proof. unfold sweep1. now destruct (isLate nw t). Qed.

Lemma coreOf_sweep nw ts x : coreOf (updateTaskStatuses nw ts) x = coreOf ts x.
Proof.
  unfold coreOf. rewrite getTask_sweep.
  destruct (getTask ts x); simpl; [now rewrite core_sweep1 | reflexivity].
Qed.

Lemma coreOf_removeEdgeTasks nw a b ts x :
  coreOf (removeEdgeTasks nw a b ts) x = coreOf ts x.
Proof.
  unfold removeEdgeTasks. rewrite coreOf_sweep. unfold coreOf.
  rewrite getTask_two_modify by reflexivity.
  destruct (getTask ts x); simpl; [| reflexivity].
  now destruct (x =? b), (x =? a).
Qed.

Lemma coreOf_addEdgeTasks nw a b ts x :
  coreOf (addEdgeTasks nw a b ts) x = coreOf ts x.
Proof.
  unfold addEdgeTasks. rewrite coreOf_sweep. unfold coreOf.
  rewrite getTask_two_modify by reflexivity.
  destruct (getTask ts x); simpl; [| reflexivity].
  now destruct (x =? b), (x =? a).
Qed.

Lemma coreOf_removeEdges nw a l ts x :
  coreOf (removeEdges nw a l ts) x = coreOf ts x.
Proof.
  unfold removeEdges. revert ts.
  induction l as [| b l IH]; intros ts; simpl; [reflexivity |].
  rewrite IH. apply coreOf_removeEdgeTasks.
Qed.

Lemma coreOf_addEdges nw a l ts x :
  coreOf (snd (addEdges nw a l ts)) x = coreOf ts x.
Proof.
  revert ts. induction l as [| b l IH]; intros ts; simpl; [reflexivity |].
  destruct (tryAddEdge nw a b ts) as [e | ts'] eqn:E; [reflexivity |].
  rewrite IH. apply tryAddEdge_inr in E. destruct E as [-> _].
  apply coreOf_addEdgeTasks.
Qed.

Lemma coreOf_updateDependenciesTasks nw a l ts x :
  coreOf (snd (updateDependenciesTasks nw a l ts)) x = coreOf ts x.
Proof.
  unfold updateDependenciesTasks.
  destruct (getTask ts a); [| reflexivity].
  rewrite coreOf_addEdges. apply coreOf_removeEdges.
Qed.

(** The record [createTask] has appended is found under its id, and only its
    status and edge lists can differ from the record literal. *)
Lemma coreOf_createTaskTasks env taskData ts :
  coreOf (snd (createTaskTasks env taskData ts)) (getNextTaskId ts)
  = Some (core (newTaskOf env ts taskData)).
Proof.
  unfold createTaskTasks.
  set (nt := newTaskOf env ts taskData).
  assert (Hfresh : getTask ts (id nt) = None) by apply getNextTaskId_fresh.
  assert (E : coreOf (updateTaskStatuses (now env) (ts ++ [nt]))
                (getNextTaskId ts) = Some (core nt)).
  { unfold coreOf. change (getNextTaskId ts) with (id nt).
    rewrite (getTask_pushed _ _ _ _ Hfresh), Z.eqb_refl. simpl.
    now rewrite core_sweep1. }
  destruct (dependencies nt); [exact E |].
  now rewrite coreOf_updateDependenciesTasks.
Qed.

Lemma getTask_last (l : list Task) (ids : list Z) (n : Z) (dflt : Task) :
  map id l = ids ++ [n] -> ~ In n ids ->
  getTask l n = Some (last l dflt).
Proof.
  revert ids. unfold getTask.
  induction l as [| t l IH]; intros ids H Hn.
  - destruct ids; discriminate.
  - destruct ids as [| i ids]; simpl in H.
    + injection H as H1 H2. destruct l; [| discriminate].
      simpl. rewrite H1, Z.eqb_refl. reflexivity.
    + injection H as H1 H2. simpl.
      assert ((id t =? n) = false) as ->.
      { apply Z.eqb_neq. rewrite H1. intros ->. apply Hn. now left. }
      rewrite (IH ids H2) by (intros Hin; apply Hn; now right).
      destruct l; [destruct ids; discriminate | reflexivity].
Qed.

Lemma createTaskTasks_last env taskData ts :
  core (last (snd (createTaskTasks env taskData ts)) (newTaskOf env ts taskData))
  = core (newTaskOf env ts taskData)
  /\ id (last (snd (createTaskTasks env taskData ts))
           (newTaskOf env ts taskData)) = getNextTaskId ts
  /\ getTask (snd (createTaskTasks env taskData ts)) (getNextTaskId ts)
     = Some (last (snd (createTaskTasks env taskData ts))
               (newTaskOf env ts taskData)).
Proof.
  assert (Hids := map_id_createTaskTasks env taskData ts).
  assert (Hg := getTask_last _ _ _ (newTaskOf env ts taskData) Hids).
  assert (Hn : ~ In (getNextTaskId ts) (map id ts)).
  { apply getTask_None, getNextTaskId_fresh. }
  specialize (Hg Hn).
  assert (Hc := coreOf_createTaskTasks env taskData ts).
  unfold coreOf in Hc. rewrite Hg in Hc. simpl in Hc.
  split; [congruence |]. split; [| exact Hg].
  eapply last_map_id. exact Hids.
Qed.

Lemma mapM_inactive env (l l' : list RecurringSchedule) (st : TM) :
  Forall inactive l ->
  mapM (processSchedule env) (l ++ l') st
  = match mapM (processSchedule env) l' st with
    | (Return ys, st') => (Return (l ++ ys), st')
    | (Throw e, st') => (Throw e, st')
    end.
Proof.
  induction 1 as [| s l Hs Hl IH]; simpl.
  - now destruct (mapM (processSchedule env) l' st) as [[ys | e] st'].
  - unfold bind at 1. unfold processSchedule at 1. rewrite Hs. simpl.
    unfold bind at 1. rewrite IH.
    now destruct (mapM (processSchedule env) l' st) as [[ys | e] st'].
Qed.

Lemma mapM_all_inactive env (l : list RecurringSchedule) (st : TM) :
  Forall inactive l ->
  mapM (processSchedule env) l st = (Return l, st).
Proof.
  intros H. rewrite <- (app_nil_r l) at 1.
  rewrite (mapM_inactive env l [] st H). simpl. now rewrite app_nil_r.
Qed.

Lemma coreOf_createTaskTasks_old env taskData ts x :
  x <> getNextTaskId ts ->
  coreOf (snd (createTaskTasks env taskData ts)) x = coreOf ts x.
Proof.
  intros Hx. unfold createTaskTasks.
  set (nt := newTaskOf env ts taskData).
  assert (Hfresh : getTask ts (id nt) = None) by apply getNextTaskId_fresh.
  assert (E : coreOf (updateTaskStatuses (now env) (ts ++ [nt])) x
              = coreOf ts x).
  { unfold coreOf. rewrite (getTask_pushed _ _ _ _ Hfresh).
    change (id nt) with (getNextTaskId ts).
    apply Z.eqb_neq in Hx. rewrite Hx.
    destruct (getTask ts x); simpl; [now rewrite core_sweep1 | reflexivity]. }
  destruct (dependencies nt); [exact E |].
  now rewrite coreOf_updateDependenciesTasks.
Qed.

Lemma isDue_iff nw s :
  isDue nw s = true
  <-> isActive s = true /\ expired nw s = false /\ nextDue s <= nw.
Proof.
  unfold isDue. rewrite !andb_true_iff, negb_true_iff, Z.leb_le. tauto.
Qed.

Lemma tickSchedule_due nw s newId :
  isDue nw s = true ->
  tickSchedule nw s newId
  = advanced s newId (dateAfter (template s) (nextDue s)).
Proof.
  intros H. apply isDue_iff in H. destruct H as (Ha & He & Hd).
  apply Z.leb_le in Hd. unfold tickSchedule. now rewrite Ha, He, Hd.
Qed.

Lemma tickSchedule_not_due nw s newId :
  isActive s = true -> expired nw s = false -> nw < nextDue s ->
  tickSchedule nw s newId = s.
Proof.
  intros Ha He Hd. unfold tickSchedule. rewrite Ha, He. simpl.
  assert ((nextDue s <=? nw) = false) as -> by (apply Z.leb_gt; lia).
  reflexivity.
Qed.

(** One callback of the tick as a function of the store.  For a schedule
    that is due, [createTask] runs on the instance data; when it has
    returned, [calculateNextDueDate] runs and may still throw. *)
Lemma processSchedule_run env (s : RecurringSchedule) (st : TM) :
  processSchedule env s st =
  if isDue (now env) s then
    match createTaskTasks env (instanceData s) (tasks st) with
    | (Some e, ts3) => (Throw e, withTasks st ts3)
    | (None, ts3) =>
        let st1 :=
          mkTM ts3 (recurringTasks st)
            (taskNotifications st ++
               [mkNotification (now env) (getNextTaskId (tasks st)) created
                  None (now env) (priority (template s))]) in
        if nextDateValid (template s) (nextDue s)
        then (Return (tickSchedule (now env) s (getNextTaskId (tasks st))),
              st1)
        else (Throw RangeError, st1)
    end
  else (Return (tickSchedule (now env) s 0), st).
Proof.
  destruct (isDue (now env) s) eqn:Hdue.
  - rewrite (tickSchedule_due _ _ _ Hdue).
    apply isDue_iff in Hdue. destruct Hdue as (Ha & He & Hd).
    apply Z.leb_le in Hd.
    unfold processSchedule. rewrite Ha, He, Hd. cbn [negb].
    unfold createRecurringTaskInstance.
    destruct (createTaskTasks_last env (instanceData s) (tasks st))
      as (Hcore & Hid & _).
    assert (Hrun := createTask_run env (instanceData s) st).
    cbv zeta in Hrun.
    destruct (createTaskTasks env (instanceData s) (tasks st))
      as [[e |] ts3]; cbn [snd] in *.
    + unfold bind. now rewrite Hrun.
    + set (t := last ts3 (newTaskOf env (tasks st) (instanceData s))) in *.
      assert (Hrec : isRecurring t = false).
      { change (isRecurring (core t) = false). now rewrite Hcore. }
      assert (Hpri : priority t = priority (template s)).
      { change (priority (core t) = priority (template s)).
        now rewrite Hcore. }
      rewrite Hrec in Hrun. cbn [andb] in Hrun. cbv iota in Hrun.
      unfold bind at 1. unfold bind at 1. rewrite Hrun.
      unfold bind. rewrite calculateNextDueDate_run.
      rewrite Hid, Hpri.
      destruct (nextDateValid (template s) (nextDue s)); reflexivity.
  - unfold processSchedule, tickSchedule.
    unfold isDue in Hdue.
    destruct (isActive s); cbn [negb andb] in *; [| reflexivity].
    destruct (expired (now env) s); cbn [negb andb] in *; [reflexivity |].
    now rewrite Hdue.
Qed.

(** What one callback of the tick does to the store. *)
Lemma processSchedule_step env (s : RecurringSchedule) (st : TM) :
  recurringTasks (snd (processSchedule env s st)) = recurringTasks st
  /\ (forall x, x <> getNextTaskId (tasks st) ->
        coreOf (tasks (snd (processSchedule env s st))) x
        = coreOf (tasks st) x)
  /\ (isDue (now env) s = false ->
      processSchedule env s st = (Return (tickSchedule (now env) s 0), st))
  /\ (isDue (now env) s = true ->
      map id (tasks (snd (processSchedule env s st)))
      = map id (tasks st) ++ [getNextTaskId (tasks st)]
      /\ coreOf (tasks (snd (processSchedule env s st)))
           (getNextTaskId (tasks st))
         = Some (core (newTaskOf env (tasks st) (instanceData s)))
      /\ match fst (processSchedule env s st) with
         | Return s' =>
             s' = tickSchedule (now env) s (getNextTaskId (tasks st))
             /\ nextDateValid (template s) (nextDue s) = true
             /\ fst (createTaskTasks env (instanceData s) (tasks st)) = None
         | Throw e => e = NotFound \/ e = DependencyCycle \/ e = RangeError
         end).
Proof.
  rewrite processSchedule_run.
  destruct (isDue (now env) s) eqn:Hdue.
  - assert (Hids := map_id_createTaskTasks env (instanceData s) (tasks st)).
    assert (Hco := coreOf_createTaskTasks env (instanceData s) (tasks st)).
    assert (Hold := fun x => coreOf_createTaskTasks_old env (instanceData s)
                               (tasks st) x).
    destruct (createTaskTasks_edges env (instanceData s) (tasks st))
      as (done & rest & _ & _ & Herr & _).
    destruct (createTaskTasks env (instanceData s) (tasks st))
      as [[e |] ts3]; cbn [fst snd] in *.
    + split; [reflexivity |]. split; [exact Hold |].
      split; [discriminate |]. intros _.
      split; [exact Hids |]. split; [exact Hco |].
      destruct (Herr e eq_refl) as [-> | ->]; [now left | right; now left].
    + cbv zeta.
      destruct (nextDateValid (template s) (nextDue s));
        cbn [fst snd tasks recurringTasks].
      * split; [reflexivity |]. split; [exact Hold |].
        split; [discriminate |]. intros _.
        split; [exact Hids |]. split; [exact Hco |]. now repeat split.
      * split; [reflexivity |]. split; [exact Hold |].
        split; [discriminate |]. intros _.
        split; [exact Hids |]. split; [exact Hco |]. right. now right.
  - cbn [fst snd]. split; [reflexivity |]. split; [reflexivity |].
    split; [reflexivity | discriminate].
Qed.

Lemma mapM_cons {A B} (f : A -> M B) (x : A) (l : list A) (st : TM) :
  mapM f (x :: l) st
  = match f x st with
    | (Return y, st1) =>
        match mapM f l st1 with
        | (Return ys, st2) => (Return (y :: ys), st2)
        | (Throw e, st2) => (Throw e, st2)
        end
    | (Throw e, st1) => (Throw e, st1)
    end.
Proof.
  simpl. unfold bind. destruct (f x st) as [[y | e] st1]; [| reflexivity].
  now destruct (mapM f l st1) as [[ys | e] st2].
Qed.

Lemma coreOf_stored (ts : list Task) (x : Z) (c : Task) :
  coreOf ts x = Some c -> exists t, getTask ts x = Some t /\ core t = c.
Proof.
  unfold coreOf. destruct (getTask ts x) as [t |]; simpl; [| discriminate].
  intros [= <-]. now exists t.
Qed.

(** The loop of the tick.  It appends one record for each due schedule it
    reaches, leaves the stored schedules and the records it found (status
    and edge lists apart) as they are, and maps every schedule to what the
    callback makes of it; the instance of a due schedule is stored under a
    new id, with the schedule's [nextDue] as its due date. *)
Lemma mapM_tick env (l : list RecurringSchedule) (st : TM) :
  exists added,
    map id (tasks (snd (mapM (processSchedule env) l st)))
    = map id (tasks st) ++ added
    /\ recurringTasks (snd (mapM (processSchedule env) l st))
       = recurringTasks st
    /\ (forall x, In x (map id (tasks st)) ->
          coreOf (tasks (snd (mapM (processSchedule env) l st))) x
          = coreOf (tasks st) x)
    /\ match fst (mapM (processSchedule env) l st) with
       | Return l' =>
           length added = length (filter (isDue (now env)) l)
           /\ Forall2
                (fun s s' =>
                   exists newId,
                     s' = tickSchedule (now env) s newId
                     /\ (isDue (now env) s = true ->
                         In newId added
                         /\ getTask (tasks st) newId = None
                         /\ nextDateValid (template s) (nextDue s) = true
                         /\ exists inst,
                              getTask
                                (tasks (snd (mapM (processSchedule env) l st)))
                                newId = Some inst
                              /\ dueDate inst = Some (nextDue s)
                              /\ isRecurring inst = false
                              /\ parentRecurringId inst
                                 = truthyZ (Some (sid s))))
                l l'
       | Throw e =>
           added <> []
           /\ (e = NotFound \/ e = DependencyCycle \/ e = RangeError)
       end.
Proof.
  revert st. induction l as [| s l IH]; intros st.
  - exists []. simpl. rewrite app_nil_r. repeat split. constructor.
  - destruct (processSchedule_step env s st) as (Hrec & Hold & Hno & Hyes).
    assert (Hfresh : ~ In (getNextTaskId (tasks st)) (map id (tasks st))).
    { apply getTask_None, getNextTaskId_fresh. }
    rewrite mapM_cons. cbn [filter].
    destruct (isDue (now env) s) eqn:Ed.
    + destruct (Hyes eq_refl) as (Hids & Hco & Hres). clear Hno Hyes.
      destruct (processSchedule env s st) as [[s' | e] st1];
        cbn [fst snd] in *.
      * destruct (IH st1) as (added & Hids' & Hrec' & Hold' & Hres').
        assert (Hkeep : forall x, In x (map id (tasks st)) ->
                  coreOf (tasks (snd (mapM (processSchedule env) l st1))) x
                  = coreOf (tasks st) x).
        { intros x Hx. rewrite Hold'.
          - apply Hold. intros ->. contradiction.
          - rewrite Hids. apply in_or_app. now left. }
        destruct (mapM (processSchedule env) l st1) as [[l' | e] st2] eqn:Em;
          cbn [fst snd] in *.
        -- exists (getNextTaskId (tasks st) :: added).
           split; [rewrite Hids', Hids, <- app_assoc; reflexivity |].
           split; [congruence |]. split; [exact Hkeep |].
           destruct Hres' as [Hlen HF]. split; [simpl; now rewrite Hlen |].
           destruct Hres as (Hs' & Hvalid & _).
           constructor.
           ++ exists (getNextTaskId (tasks st)). split; [exact Hs' |].
              intros _. split; [now left |].
              split; [apply getNextTaskId_fresh |].
              split; [exact Hvalid |].
              assert (Hc2 : coreOf (tasks st2) (getNextTaskId (tasks st))
                            = Some (core (newTaskOf env (tasks st)
                                            (instanceData s)))).
              { rewrite Hold'; [exact Hco |].
                rewrite Hids. apply in_or_app. right. now left. }
              apply coreOf_stored in Hc2. destruct Hc2 as (inst & Hg & Hc).
              exists inst. split; [exact Hg |].
              split; [change (dueDate (core inst) = Some (nextDue s));
                      now rewrite Hc |].
              split; [change (isRecurring (core inst) = false);
                      now rewrite Hc |].
              change (parentRecurringId (core inst)
                      = truthyZ (Some (sid s))).
              now rewrite Hc.
           ++ eapply Forall2_impl; [| exact HF].
              intros a b [newId [Hb Hin]]. exists newId.
              split; [exact Hb |]. intros Hd.
              destruct (Hin Hd) as (H1 & H2 & H3 & H4).
              split; [now right |]. split; [| now split].
              apply getTask_None. intros Hx. apply getTask_None in H2.
              apply H2. rewrite Hids. apply in_or_app. now left.
        -- exists (getNextTaskId (tasks st) :: added).
           split; [rewrite Hids', Hids, <- app_assoc; reflexivity |].
           split; [congruence |]. split; [exact Hkeep |].
           split; [discriminate | apply Hres'].
      * exists [getNextTaskId (tasks st)].
        split; [exact Hids |]. split; [exact Hrec |].
        split; [intros x Hx; apply Hold; intros ->; contradiction |].
        split; [discriminate | exact Hres].
    + rewrite (Hno eq_refl). clear Hrec Hold Hno Hyes.
      destruct (IH st) as (added & Hids' & Hrec' & Hold' & Hres').
      destruct (mapM (processSchedule env) l st) as [[l' | e] st2];
        cbn [fst snd] in *.
      * exists added. split; [exact Hids' |]. split; [exact Hrec' |].
        split; [exact Hold' |].
        destruct Hres' as [Hlen HF]. split; [exact Hlen |].
        constructor; [| exact HF].
        exists 0. split; [reflexivity |]. congruence.
      * exists added. now repeat split.
Qed.

Lemma processSchedule_not_due env (sch : RecurringSchedule) (st : TM) :
  isActive sch = true ->
  expired (now env) sch = false ->
  now env < nextDue sch ->
  processSchedule env sch st = (Return sch, st).
Proof.
  intros Ha He Hd. unfold processSchedule. rewrite Ha, He. simpl.
  assert ((nextDue sch <=? now env) = false) as -> by (apply Z.leb_gt; lia).
  reflexivity.
Qed.

Lemma processRecurringTasks_run env (st : TM) :
  processRecurringTasks env st
  = match mapM (processSchedule env) (recurringTasks st) st with
    | (Return l, st') =>
        (Return tt, mkTM (tasks st') l (taskNotifications st'))
    | (Throw e, st') => (Throw e, st')
    end.
Proof.
  unfold processRecurringTasks.
  rewrite (bind_Return loadRecurringTasks _ st (recurringTasks st) st eq_refl).
  unfold bind.
  now destruct (mapM (processSchedule env) (recurringTasks st) st)
    as [[l | e] st'].
Qed.

(** From a template without dependencies the instance is always created. *)
Lemma instance_without_dependencies env (sch : RecurringSchedule)
    (ts : list Task) :
  dependencies (template sch) = [] ->
  fst (createTaskTasks env (instanceData sch) ts) = None.
Proof.
  intros H. unfold createTaskTasks.
  change (dependencies (newTaskOf env ts (instanceData sch)))
    with (dependencies (template sch)).
  now rewrite H.
Qed.

(** The callback leaves an inactive schedule as it is. *)
Lemma Forall2_tick_inactive nw (P : RecurringSchedule -> Z -> Prop)
    (l l' : list RecurringSchedule) :
  Forall inactive l ->
  Forall2 (fun s s' => exists newId, s' = tickSchedule nw s newId /\ P s newId)
    l l' ->
  l' = l.
Proof.
  intros Hl HF. induction HF as [| s s' l l' (newId & -> & _) HF IH];
    [reflexivity |].
  inversion Hl as [| ? ? Hs Hl']; subst.
  rewrite (IH Hl'). unfold tickSchedule. unfold inactive in Hs.
  now rewrite Hs.
Qed.

(** One period of a DAILY schedule with interval [n]. *)
Lemma dateAfter_daily (n : Z) (sch : RecurringSchedule) :
  dailyEvery n sch ->
  dateAfter (template sch) (nextDue sch) = nextDue sch + n * msPerDay.
Proof.
  intros (Hty & Hiv & Htty & Htiv). unfold dateAfter.
  rewrite Htty, Hty, Htiv, Hiv. reflexivity.
Qed.

(** The tick returns when every due schedule has a template without
    dependencies and a next due date that is a time value. *)
Lemma mapM_returns env (l : list RecurringSchedule) :
  (forall s, In s l -> isDue (now env) s = true ->
     dependencies (template s) = []
     /\ nextDateValid (template s) (nextDue s) = true) ->
  forall st, exists l' st',
    mapM (processSchedule env) l st = (Return l', st').
Proof.
  induction l as [| s l IH]; intros H st.
  - exists [], st. reflexivity.
  - rewrite mapM_cons, processSchedule_run.
    assert (IH' := IH (fun s' Hs' => H s' (or_intror Hs'))).
    destruct (isDue (now env) s) eqn:Ed.
    + destruct (H s (or_introl eq_refl) Ed) as [Hdeps Hv].
      assert (Hc := instance_without_dependencies env s (tasks st) Hdeps).
      destruct (createTaskTasks env (instanceData s) (tasks st))
        as [[e |] ts3]; [discriminate |].
      cbv zeta. rewrite Hv.
      match goal with
      | |- context [mapM _ l ?st1] =>
          destruct (IH' st1) as (l' & st' & ->)
      end.
      eexists. eexists. reflexivity.
    + destruct (IH' st) as (l' & st' & ->).
      eexists. eexists. reflexivity.
Qed.

(** C2 (amended). Take an active DAILY schedule with interval 2 whose
    [nextDue] is D and whose end date is unset or not before D, among any
    other stored schedules, and a tick at [now] = D.  The tick returns
    unless the callback of some due schedule throws ([createTask] fails on a
    dependency of the template, or the next due date is no time value); it
    does return when every due schedule has a template without dependencies
    and a next due date that is a time value.  When it returns, it has
    appended one task record for each schedule that was due; exactly one of
    the new ids is recorded for this schedule, its record has [dueDate] = D
    and is not recurring, and [nextDue] has become D plus 2 days, counted
    from the previous [nextDue].  A second tick at the same [now], whatever
    its outcome, leaves this schedule as it is and so creates no further
    instance of it.  When the other schedules are inactive, the first tick
    appends exactly one record, under the next id, and the second tick
    returns and leaves the whole state as it is. *)
Theorem tick_daily_every_two_days env (st : TM)
    (pre post : list RecurringSchedule) (sch : RecurringSchedule) :
  recurringTasks st = pre ++ sch :: post ->
  isActive sch = true ->
  dailyEvery 2 sch ->
  nextDue sch = now env ->
  expired (now env) sch = false ->
  ((forall s, In s (recurringTasks st) -> isDue (now env) s = true ->
      dependencies (template s) = []
      /\ nextDateValid (template s) (nextDue s) = true) ->
   exists st1, processRecurringTasks env st = (Return tt, st1))
  /\ forall st1,
       processRecurringTasks env st = (Return tt, st1) ->
       exists newId inst pre' post' added,
         map id (tasks st1) = map id (tasks st) ++ added
         /\ length added
            = length (filter (isDue (now env)) (recurringTasks st))
         /\ In newId added
         /\ getTask (tasks st) newId = None
         /\ getTask (tasks st1) newId = Some inst
         /\ dueDate inst = Some (nextDue sch)
         /\ isRecurring inst = false
         /\ recurringTasks st1
            = pre' ++ advanced sch newId (nextDue sch + 2 * msPerDay)
                      :: post'
         /\ length pre' = length pre
         /\ (forall o st2,
               processRecurringTasks env st1 = (o, st2) ->
               exists pre'' post'',
                 recurringTasks st2
                 = pre'' ++ advanced sch newId (nextDue sch + 2 * msPerDay)
                            :: post''
                 /\ length pre'' = length pre)
         /\ (Forall inactive pre -> Forall inactive post ->
             newId = getNextTaskId (tasks st)
             /\ added = [newId]
             /\ pre' = pre /\ post' = post
             /\ processRecurringTasks env st1 = (Return tt, st1)).
Proof.
  intros Hl Ha Hdaily Hdue He.
  split.
  { intros Hall. rewrite processRecurringTasks_run.
    destruct (mapM_returns env (recurringTasks st) Hall st)
      as (l' & st' & ->).
    eexists. reflexivity. }
  intros st1 Hret.
  assert (Hisdue : isDue (now env) sch = true).
  { apply isDue_iff. split; [exact Ha |]. split; [exact He | lia]. }
  assert (Hnext := dateAfter_daily 2 sch Hdaily).
  rewrite processRecurringTasks_run in Hret.
  destruct (mapM_tick env (recurringTasks st) st)
    as (added & Hids & Hrec & Hold & Hres).
  destruct (mapM (processSchedule env) (recurringTasks st) st)
    as [[l' | e] stm] eqn:Em; [| discriminate].
  injection Hret as <-. cbn [fst snd tasks recurringTasks] in *.
  destruct Hres as [Hlen HF]. rewrite Hl in HF.
  apply Forall2_app_inv_l in HF.
  destruct HF as (pre' & rest' & HFpre & HFrest & ->).
  inversion HFrest as [| s s' l0 post' Hrel HFpost]; subst.
  destruct Hrel as (newId & Hs' & Hin).
  rewrite (tickSchedule_due _ _ _ Hisdue), Hnext in Hs'. subst s'.
  destruct (Hin Hisdue) as (Hadded & Hnew & Hvalid & inst & Hg & Hdd & Hir & _).
  set (sch' := advanced sch newId (nextDue sch + 2 * msPerDay)) in *.
  assert (Hlater : now env < nextDue sch').
  { unfold sch'. cbn [nextDue advanced]. unfold msPerDay. lia. }
  assert (Ha' : isActive sch' = true) by exact Ha.
  assert (He' : expired (now env) sch' = false) by exact He.
  assert (Hlenpre : length pre' = length pre)
    by (symmetry; exact (Forall2_length HFpre)).
  exists newId, inst, pre', post', added.
  split; [exact Hids |]. split; [exact Hlen |]. split; [exact Hadded |].
  split; [exact Hnew |]. split; [exact Hg |]. split; [exact Hdd |].
  split; [exact Hir |]. split; [reflexivity |]. split; [exact Hlenpre |].
  split.
  - intros o st2 H2. rewrite processRecurringTasks_run in H2.
    cbn [recurringTasks] in H2.
    destruct (mapM_tick env (pre' ++ sch' :: post')
                (mkTM (tasks stm) (pre' ++ sch' :: post')
                   (taskNotifications stm)))
      as (added2 & _ & Hrec2 & _ & Hres2).
    destruct (mapM (processSchedule env) (pre' ++ sch' :: post') _)
      as [[l2 | e2] stm2]; injection H2 as <- <-;
      cbn [fst snd recurringTasks] in *.
    + destruct Hres2 as [_ HF2]. apply Forall2_app_inv_l in HF2.
      destruct HF2 as (pre2 & rest2 & HFpre2 & HFrest2 & ->).
      inversion HFrest2 as [| s s2 l0 post2 Hrel2 HFpost2]; subst.
      destruct Hrel2 as (newId2 & Hs2 & _).
      rewrite (tickSchedule_not_due _ _ _ Ha' He' Hlater) in Hs2. subst s2.
      exists pre2, post2. split; [reflexivity |].
      rewrite <- (Forall2_length HFpre2). exact Hlenpre.
    + exists pre', post'. split; [exact Hrec2 | exact Hlenpre].
  - intros Hpre Hpost.
    assert (Epre : pre' = pre)
      by exact (Forall2_tick_inactive _ _ _ _ Hpre HFpre).
    assert (Epost : post' = post)
      by exact (Forall2_tick_inactive _ _ _ _ Hpost HFpost).
    subst pre' post'.
    assert (Hrun1 := processSchedule_run env sch st).
    rewrite Hisdue in Hrun1.
    rewrite Hl, (mapM_inactive env pre (sch :: post) st Hpre) in Em.
    rewrite mapM_cons in Em.
    assert (Hids1 := map_id_createTaskTasks env (instanceData sch) (tasks st)).
    destruct (createTaskTasks env (instanceData sch) (tasks st))
      as [[e |] ts3]; cbv zeta in Hrun1; rewrite Hrun1 in Em;
      [discriminate |].
    destruct (nextDateValid (template sch) (nextDue sch)); [| discriminate].
    rewrite (mapM_all_inactive env post _ Hpost) in Em.
    injection Em as Em1 Em2.
    apply app_inv_head in Em1. injection Em1 as Em1.
    rewrite (tickSchedule_due _ _ _ Hisdue), Hnext in Em1.
    assert (HnewId : newId = getNextTaskId (tasks st)).
    { apply (f_equal createdInstances) in Em1. cbn in Em1.
      apply app_inv_head in Em1. now injection Em1. }
    split; [exact HnewId |].
    split.
    { rewrite <- Em2 in Hids. cbn [tasks snd] in Hids, Hids1.
      rewrite Hids1 in Hids. apply app_inv_head in Hids.
      now rewrite HnewId. }
    split; [reflexivity |]. split; [reflexivity |].
    rewrite processRecurringTasks_run. cbn [recurringTasks].
    rewrite (mapM_inactive env pre (sch' :: post) _ Hpre).
    rewrite mapM_cons.
    rewrite (processSchedule_not_due env sch' _ Ha' He' Hlater).
    rewrite (mapM_all_inactive env post _ Hpost).
    reflexivity.
Qed.

(** Scenario C of the specification, run on a store with two such schedules:
    the tick due for both creates the instances 3 and 4, and the second
    schedule records the instance 4. *)
Lemma tick_daily_every_two_days_witness :
  exists st1 newId inst pre' post' added,
    processRecurringTasks envDue storeTwoDaily = (Return tt, st1)
    /\ map id (tasks st1) = map id (tasks storeTwoDaily) ++ added
    /\ length added = 2%nat
    /\ getTask (tasks storeTwoDaily) newId = None
    /\ getTask (tasks st1) newId = Some inst
    /\ dueDate inst = Some (1000 + 2 * msPerDay)
    /\ recurringTasks st1
       = pre'
         ++ advanced (nth 1 (recurringTasks storeTwoDaily) schDaily) newId
              (1000 + 2 * msPerDay + 2 * msPerDay)
         :: post'
    /\ length pre' = 1%nat.
Proof.
  destruct (tick_daily_every_two_days envDue storeTwoDaily
              [nth 0 (recurringTasks storeTwoDaily) schDaily] []
              (nth 1 (recurringTasks storeTwoDaily) schDaily))
    as [Hret Hfacts].
  - reflexivity.
  - reflexivity.
  - repeat split.
  - reflexivity.
  - reflexivity.
  - destruct Hret as [st1 E].
    { intros s [<- | [<- | []]] _; split; reflexivity. }
    destruct (Hfacts st1 E)
      as (newId & inst & pre' & post' & added
          & H1 & H2 & _ & H4 & H5 & H6 & _ & H8 & H9 & _).
    exists st1, newId, inst, pre', post', added.
    split; [exact E |]. split; [exact H1 |]. split; [exact H2 |].
    split; [exact H4 |]. split; [exact H5 |]. split; [exact H6 |].
    split; [exact H8 | exact H9].
Defined.

(** C2, counterexample. The schedule is active, DAILY with interval 2, not
    past an end date, and due at D.  The tick at D throws while adding the
    template's dependency: a task record has been appended but the schedule
    is not written back, so [nextDue] is still D, and a second tick at the
    same time appends one more record. *)
Lemma tick_repeats_failed_instance :
  exists sch st1 st2,
    recurringTasks storeOrphan = [sch]
    /\ isActive sch = true
    /\ dailyEvery 2 sch
    /\ nextDue sch = now envDue
    /\ expired (now envDue) sch = false
    /\ map id (tasks storeOrphan) = [2]
    /\ processRecurringTasks envDue storeOrphan = (Throw NotFound, st1)
    /\ map id (tasks st1) = [2; 3]
    /\ recurringTasks st1 = [sch]
    /\ processRecurringTasks envDue st1 = (Throw NotFound, st2)
    /\ map id (tasks st2) = [2; 3; 4]
    /\ map dueDate (tasks st2) = [None; Some (now envDue); Some (now envDue)].
Proof.
  do 3 eexists.
  split; [vm_compute; reflexivity |].
  split; [reflexivity |]. split; [repeat split |].
  split; [reflexivity |]. split; [reflexivity |]. split; [reflexivity |].
  split; [vm_compute; reflexivity |].
  split; [reflexivity |]. split; [reflexivity |].
  split; [vm_compute; reflexivity |].
  split; reflexivity.
Qed.

(** * Further properties *)

(** ** The cycle check, exactly *)

(** X1. [wouldCreateCircularDependency(taskId, dependsOnId)] answers [false]
    exactly when the two ids differ, no dependency chain leads from
    [dependsOnId] back to [taskId], and no task at or below [dependsOnId]
    lies on a cycle; in every other case it answers [true]. *)
Theorem wouldCreateCircularDependency_exact (ts : list Task)
    (taskId dependsOnId : Z) :
  wouldCreateCircularDependency ts taskId dependsOnId = false
  <-> taskId <> dependsOnId
      /\ ~ chain ts dependsOnId taskId
      /\ (forall x, x = dependsOnId \/ chain ts dependsOnId x ->
            ~ chain ts x x).
Proof.
  split.
  - apply wouldCreateCircularDependency_false.
  - intros (Hne & Hno & Hacyc).
    assert (E := wouldCreateCircularDependency_total ts taskId dependsOnId).
    apply (wouldCreate_no_chain ts taskId dependsOnId Hne Hno Hacyc _ _ _ _ E);
      [now left | intros v []].
Qed.

(** ** No operation introduces a cycle *)

Lemma acyclic_mono (ts ts' : list Task) :
  (forall i j, In j (depsOf ts' i) -> In j (depsOf ts i)) ->
  acyclic ts -> acyclic ts'.
Proof.
  intros H Ha x Hc. apply (Ha x). now apply (chain_mono ts ts' H).
Qed.

(** A chain of the graph with the edge a -> b added either exists already or
    passes through the new edge. *)
Lemma chain_added_edge (ts ts' : list Task) (a b : Z) :
  (forall i j, In j (depsOf ts' i) ->
     In j (depsOf ts i) \/ (i = a /\ j = b)) ->
  forall x y, chain ts' x y ->
    chain ts x y
    \/ ((x = a \/ chain ts x a) /\ (y = b \/ chain ts b y)).
Proof.
  intros H x y Hc. induction Hc as [x y Hin | x w y Hin _ IH].
  - destruct (H x y Hin) as [Hold | [-> ->]].
    + left. now apply chain_edge.
    + right. split; now left.
  - destruct (H x w Hin) as [Hold | [-> ->]].
    + destruct IH as [IH | [Hwa Hby]].
      * left. now apply (chain_step ts x w y).
      * right. split; [| exact Hby]. right.
        destruct Hwa as [-> | Hwa];
          [now apply chain_edge | now apply (chain_step ts x w a)].
    + right. split; [now left |].
      destruct IH as [IH | [_ Hby]]; [now right | exact Hby].
Qed.

Lemma acyclic_added_edge (ts ts' : list Task) (a b : Z) :
  (forall i j, In j (depsOf ts' i) ->
     In j (depsOf ts i) \/ (i = a /\ j = b)) ->
  a <> b -> ~ chain ts b a ->
  acyclic ts -> acyclic ts'.
Proof.
  intros H Hne Hno Ha x Hc.
  destruct (chain_added_edge ts ts' a b H x x Hc) as [Hold | [Hxa Hbx]].
  - now apply (Ha x).
  - apply Hno. destruct Hxa as [-> | Hxa], Hbx as [Hb | Hbx].
    + congruence.
    + exact Hbx.
    + now subst x.
    + now apply (chain_trans ts b x a).
Qed.

Lemma tryAddEdge_acyclic nw a b ts ts' :
  tryAddEdge nw a b ts = inr ts' -> acyclic ts -> acyclic ts'.
Proof.
  intros E Ha. apply tryAddEdge_inr in E.
  destruct E as (-> & [ta Hta] & _ & Hw).
  apply wouldCreateCircularDependency_false in Hw.
  destruct Hw as (Hne & Hno & _).
  apply (acyclic_added_edge ts _ a b); try assumption.
  intros i j. rewrite (depsOf_addEdgeTasks _ _ _ _ _ ta Hta).
  destruct (i =? a) eqn:Ei; [| now left].
  apply Z.eqb_eq in Ei. rewrite In_pushNew. intros [Hin | ->];
    [now left | right; now split].
Qed.

Lemma addEdges_acyclic nw a l ts :
  acyclic ts -> acyclic (snd (addEdges nw a l ts)).
Proof.
  revert ts. induction l as [| b l IH]; intros ts Ha; simpl; [exact Ha |].
  destruct (tryAddEdge nw a b ts) as [e | ts'] eqn:E; [exact Ha |].
  apply IH. now apply (tryAddEdge_acyclic nw a b ts).
Qed.

Lemma removeEdges_acyclic nw a l ts :
  acyclic ts -> acyclic (removeEdges nw a l ts).
Proof.
  apply acyclic_mono. intros i j Hin.
  destruct (removeEdges_edges nw a l ts) as (_ & HE & _).
  now apply HE in Hin.
Qed.

Lemma updateDependenciesTasks_acyclic nw a l ts :
  acyclic ts -> acyclic (snd (updateDependenciesTasks nw a l ts)).
Proof.
  intros Ha. unfold updateDependenciesTasks.
  destruct (getTask ts a); [| exact Ha].
  now apply addEdges_acyclic, removeEdges_acyclic.
Qed.

Lemma createTaskTasks_acyclic env taskData ts :
  acyclic ts -> acyclic (snd (createTaskTasks env taskData ts)).
Proof.
  intros Ha. unfold createTaskTasks.
  set (nt := newTaskOf env ts taskData).
  assert (Hfresh : getTask ts (id nt) = None) by apply getNextTaskId_fresh.
  assert (HN : depsOf ts (id nt) = []) by (unfold depsOf; now rewrite Hfresh).
  destruct (dependencies nt) as [| d l] eqn:Ed.
  - simpl. apply (acyclic_mono ts); [| exact Ha].
    intros i j. rewrite (depsOf_pushed _ _ _ _ Hfresh).
    destruct (i =? id nt); [rewrite Ed; intros [] | tauto].
  - unfold updateDependenciesTasks.
    rewrite (getTask_pushed _ _ _ _ Hfresh), Z.eqb_refl.
    rewrite sweep1_dependencies, Ed. rewrite <- Ed.
    apply addEdges_acyclic. apply (acyclic_mono ts); [| exact Ha].
    intros i j Hin.
    destruct (removeEdges_edges (now env) (id nt) (dependencies nt)
                (updateTaskStatuses (now env) (ts ++ [nt]))) as (_ & HE & _).
    apply HE in Hin. destruct Hin as [Hin Hn].
    rewrite (depsOf_pushed _ _ _ _ Hfresh) in Hin.
    destruct (i =? id nt) eqn:Ei; [| exact Hin].
    apply Z.eqb_eq in Ei. exfalso. apply Hn. now split.
Qed.

Lemma map_id_updateTaskTasks nw a u ts :
  u_id u = None -> map id (snd (updateTaskTasks nw a u ts)) = map id ts.
Proof.
  intros Hid. unfold updateTaskTasks.
  destruct (findIndex ts a) as [i |] eqn:Hi; [| reflexivity].
  destruct (nth_error ts i) as [oldTask |] eqn:Hn; [| reflexivity].
  assert (Hida : id (updatedRecord nw oldTask u) = a).
  { rewrite updatedRecord_id by assumption.
    now apply (findIndex_nth_id ts a i). }
  destruct (u_dependencies u) as [deps |].
  - assert (Hids := map_id_updateDependenciesTasks nw a deps ts).
    destruct (updateDependenciesTasks nw a deps ts) as [[e |] ts3];
      simpl in *; [exact Hids |].
    assert (Hi3 : findIndex ts3 a = Some i).
    { rewrite <- Hi. now apply findIndex_ids. }
    destruct (findIndex_Some _ _ _ Hi3) as [t3 [Hn3 _]].
    destruct (replaced_lookup nw ts3 a i (updatedRecord nw oldTask u) t3 0
                Hi3 Hn3 Hida) as (-> & _). exact Hids.
  - simpl.
    now destruct (replaced_lookup nw ts a i (updatedRecord nw oldTask u)
                    oldTask 0 Hi Hn Hida) as (-> & _).
Qed.

Lemma updateTaskTasks_acyclic nw a u ts :
  u_id u = None ->
  acyclic ts -> acyclic (snd (updateTaskTasks nw a u ts)).
Proof.
  intros Hid Ha. unfold updateTaskTasks.
  destruct (findIndex ts a) as [i |] eqn:Hi; [| exact Ha].
  destruct (nth_error ts i) as [oldTask |] eqn:Hn; [| exact Ha].
  destruct (findIndex_Some _ _ _ Hi) as [t' [Hn' Hg]].
  assert (t' = oldTask) as -> by congruence.
  assert (Hida : id (updatedRecord nw oldTask u) = a).
  { rewrite updatedRecord_id by assumption.
    now apply (findIndex_nth_id ts a i). }
  destruct (u_dependencies u) as [deps |] eqn:Hdeps.
  - assert (Ha3 := updateDependenciesTasks_acyclic nw a deps ts Ha).
    assert (Hids := map_id_updateDependenciesTasks nw a deps ts).
    unfold updateDependenciesTasks in Ha3, Hids |- *. rewrite Hg in *.
    destruct (addEdges_edges nw a deps
                (removeEdges nw a (dependencies oldTask) ts))
      as (done & rest & Hl & _ & HE3 & _ & _ & Hr).
    destruct (addEdges nw a deps (removeEdges nw a (dependencies oldTask) ts))
      as [[e |] ts3]; simpl in *; [exact Ha3 |].
    subst rest. rewrite app_nil_r in Hl. subst done.
    assert (Hi3 : findIndex ts3 a = Some i).
    { rewrite <- Hi. now apply findIndex_ids. }
    destruct (findIndex_Some _ _ _ Hi3) as [t3 [Hn3 _]].
    apply (acyclic_mono ts3); [| exact Ha3].
    intros x j.
    destruct (replaced_lookup nw ts3 a i (updatedRecord nw oldTask u) t3 x
                Hi3 Hn3 Hida) as (_ & -> & _).
    destruct (x =? a) eqn:E; [| tauto].
    apply Z.eqb_eq in E. subst x.
    rewrite (updatedRecord_new_dependencies _ _ _ _ Hdeps).
    intros Hin. apply HE3. right. now split.
  - simpl. apply (acyclic_mono ts); [| exact Ha].
    intros x j.
    destruct (replaced_lookup nw ts a i (updatedRecord nw oldTask u) oldTask x
                Hi Hn Hida) as (_ & -> & _).
    destruct (x =? a) eqn:E; [| tauto].
    apply Z.eqb_eq in E. subst x.
    rewrite (updatedRecord_dependencies _ _ _ Hdeps).
    unfold depsOf. now rewrite Hg.
Qed.

Lemma depsOf_strip (a : Z) (ts : list Task) (x : Z) :
  depsOf (map (strip a) ts) x = without a (depsOf ts x).
Proof.
  unfold depsOf. rewrite (getTask_map (strip a)) by reflexivity.
  now destruct (getTask ts x).
Qed.

Lemma deleteTaskTasks_wf nw a ts :
  NoDup (map id ts) -> acyclic ts ->
  NoDup (map id (snd (deleteTaskTasks nw a ts)))
  /\ acyclic (snd (deleteTaskTasks nw a ts)).
Proof.
  intros Hnd Ha. unfold deleteTaskTasks.
  destruct (findIndex ts a) as [i |] eqn:Hi; [| now split].
  destruct (nth_error ts i) as [task |] eqn:Hn; [| now split].
  assert (Hids : map id (map (strip a) ts) = map id ts)
    by (rewrite map_map; now apply map_ext).
  assert (Hstrip : acyclic (map (strip a) ts)).
  { apply (acyclic_mono ts); [| exact Ha].
    intros x j. rewrite depsOf_strip, In_without. tauto. }
  destruct (isRecurring task); simpl.
  - split; [now rewrite Hids | exact Hstrip].
  - assert (Hnd1 : NoDup (map id (map (strip a) ts))) by now rewrite Hids.
    split; [rewrite map_id_sweep; now apply splice1_NoDup |].
    apply (acyclic_mono (map (strip a) ts)); [| exact Hstrip].
    intros x j. rewrite depsOf_sweep. unfold depsOf at 1.
    rewrite (getTask_splice1 _ a i x Hnd1)
      by (rewrite <- Hi; now apply findIndex_ids).
    destruct (x =? a); [intros [] | tauto].
Qed.

Lemma runOp_wf env (op : Op) (st : TM) :
  keepsId (env, op) ->
  NoDup (map id (tasks st)) -> acyclic (tasks st) ->
  NoDup (map id (tasks (runOp env op st)))
  /\ acyclic (tasks (runOp env op st)).
Proof.
  intros Hk Hnd Ha.
  destruct op as [taskData | a u | a | a b | a b]; unfold runOp.
  - rewrite tasks_createTask.
    assert (H1 := map_id_createTaskTasks env taskData (tasks st)).
    assert (H2 := createTaskTasks_acyclic env taskData (tasks st) Ha).
    split; [rewrite H1; now apply NoDup_ids_pushed | exact H2].
  - simpl in Hk.
    destruct (updateTask_run env a u st) as (o & nots & -> & _). simpl.
    split; [now rewrite map_id_updateTaskTasks |
            now apply updateTaskTasks_acyclic].
  - rewrite deleteTask_run. simpl. now apply deleteTaskTasks_wf.
  - rewrite addTaskDependency_run.
    destruct (tryAddEdge (now env) a b (tasks st)) as [e | ts'] eqn:E;
      simpl; [now split |].
    split; [| now apply (tryAddEdge_acyclic _ _ _ _ _ E)].
    apply tryAddEdge_inr in E. destruct E as (-> & _).
    now rewrite map_id_addEdgeTasks.
  - rewrite removeTaskDependency_run. simpl.
    split; [now rewrite map_id_removeEdgeTasks |].
    apply (removeEdges_acyclic (now env) a [b] (tasks st) Ha).
Qed.

(** X2. Start from a store with distinct ids and no dependency cycle (the
    empty store is one) and run any sequence of [createTask], [updateTask]
    with an update that does not set [id], [deleteTask],
    [addTaskDependency] and [removeTaskDependency], each returning or
    throwing: the ids stay distinct and no task ever reaches itself along
    dependency edges. *)
Theorem operations_keep_acyclic (ops : list (Env * Op)) (st : TM) :
  NoDup (map id (tasks st)) ->
  acyclic (tasks st) ->
  Forall keepsId ops ->
  NoDup (map id (tasks (runOps ops st))) /\ acyclic (tasks (runOps ops st)).
Proof.
  intros Hnd Ha Hk. revert st Hnd Ha.
  induction Hk as [| [env op] ops Hop _ IH]; intros st Hnd Ha.
  - now split.
  - simpl. destruct (runOp_wf env op st Hop Hnd Ha) as [Hnd' Ha'].
    now apply IH.
Qed.

Lemma acyclic_nil : acyclic [].
Proof.
  intros x Hc. destruct (chain_first _ _ _ Hc) as (y & Hy & _). destruct Hy.
Qed.

(** Scenario B of the specification with its rejected edge in the middle,
    followed by a replacement of task 2's dependencies. *)
Lemma operations_keep_acyclic_witness :
  acyclic
    (tasks
       (runOps
          [(env0, OpCreateTask plainData);
           (env0, OpCreateTask (dependingOn [1]));
           (env0, OpAddEdge 1 2);
           (env0, OpUpdateTask 2 (dependOn []))]
          emptyTM)).
Proof.
  apply (operations_keep_acyclic _ emptyTM).
  - constructor.
  - exact acyclic_nil.
  - repeat constructor.
Defined.

(** ** The overdue sweep of [saveTasks] *)

Lemma isLate_sweep1 (n1 n2 : Z) (t : Task) :
  n1 <= n2 -> sweep1 n2 (sweep1 n1 t) = sweep1 n2 t.
Proof.
  intros Hle. unfold sweep1 at 2 3.
  destruct (isLate n1 t) eqn:E1.
  - assert (E2 : isLate n2 t = true).
    { unfold isLate in *. destruct (dueDate t) as [d |]; [| discriminate].
      apply andb_prop in E1. destruct E1 as [E1 E1c].
      apply andb_prop in E1. destruct E1 as [E1 E1b].
      apply andb_prop in E1. destruct E1 as [E1 E1a].
      rewrite E1a, E1b, E1c. apply Z.ltb_lt in E1.
      assert ((d <? n2) = true) as -> by (apply Z.ltb_lt; lia).
      reflexivity. }
    rewrite E2. unfold sweep1, isLate. simpl.
    destruct (dueDate t); [| reflexivity].
    now rewrite ?andb_false_r.
  - reflexivity.
Qed.

Lemma isLate_after_sweep1 (nw : Z) (t : Task) : isLate nw (sweep1 nw t) = false.
Proof.
  unfold sweep1. destruct (isLate nw t) eqn:E; [| exact E].
  unfold isLate. simpl. destruct (dueDate t); [| reflexivity].
  now rewrite ?andb_false_r.
Qed.

Lemma updateTaskStatuses_twice (n1 n2 : Z) (ts : list Task) :
  n1 <= n2 ->
  updateTaskStatuses n2 (updateTaskStatuses n1 ts) = updateTaskStatuses n2 ts.
Proof.
  intros Hle. unfold updateTaskStatuses. rewrite map_map.
  apply map_ext. intros t. now apply isLate_sweep1.
Qed.

(** X3. The sweep [updateTaskStatuses] run by every [saveTasks]: a sweep at a
    later time absorbs an earlier one (so sweeping twice at the same time is
    sweeping once); after a sweep no stored task is left that the sweep
    would mark; a task that is COMPLETED or CANCELLED is never touched; a
    task whose record changes ends up OVERDUE with a due date before the
    sweep time and every other field as before. *)
Theorem updateTaskStatuses_settles (nw : Z) (ts : list Task) :
  (forall later, nw <= later ->
     updateTaskStatuses later (updateTaskStatuses nw ts)
     = updateTaskStatuses later ts)
  /\ (forall t, In t (updateTaskStatuses nw ts) -> isLate nw t = false)
  /\ map id (updateTaskStatuses nw ts) = map id ts
  /\ (forall t, status t = COMPLETED \/ status t = CANCELLED ->
        sweep1 nw t = t)
  /\ (forall t, sweep1 nw t <> t ->
        sweep1 nw t = set_status OVERDUE t
        /\ exists d, dueDate t = Some d /\ d < nw).
Proof.
  split; [intros later; apply updateTaskStatuses_twice |].
  split.
  { intros t Hin. unfold updateTaskStatuses in Hin. apply in_map_iff in Hin.
    destruct Hin as [t0 [<- _]]. apply isLate_after_sweep1. }
  split; [apply map_id_sweep |]. split.
  - intros t Hs. unfold sweep1, isLate.
    destruct (dueDate t); [| reflexivity].
    destruct Hs as [-> | ->]; simpl; now rewrite ?andb_false_r.
  - intros t Hne. unfold sweep1 in *.
    destruct (isLate nw t) eqn:E; [| congruence].
    split; [reflexivity |]. unfold isLate in E.
    destruct (dueDate t) as [d |]; [| discriminate].
    exists d. split; [reflexivity |].
    apply andb_prop in E. destruct E as [E _].
    apply andb_prop in E. destruct E as [E _].
    apply andb_prop in E. destruct E as [E _]. now apply Z.ltb_lt.
Qed.

(** ** Edges: removing and adding twice *)

Lemma set_dependencies_same (t : Task) : set_dependencies (dependencies t) t = t.
Proof. now destruct t. Qed.

Lemma set_dependents_same (t : Task) : set_dependents (dependents t) t = t.
Proof. now destruct t. Qed.

Lemma modifyTask_fix (a : Z) (f : Task -> Task) (ts : list Task) :
  (forall t, getTask ts a = Some t -> f t = t) -> modifyTask a f ts = ts.
Proof.
  unfold getTask. induction ts as [| t ts IH]; simpl; intros H.
  - reflexivity.
  - destruct (id t =? a).
    + now rewrite (H t eq_refl).
    + now rewrite IH.
Qed.

Lemma without_notin (x : Z) (l : list Z) : ~ In x l -> without x l = l.
Proof.
  unfold without. induction l as [| y l IH]; simpl; intros H.
  - reflexivity.
  - assert ((y =? x) = false) as -> by (apply Z.eqb_neq; intuition congruence).
    simpl. rewrite IH; [reflexivity | tauto].
Qed.

Lemma pushNew_in (x : Z) (l : list Z) : In x l -> pushNew x l = l.
Proof.
  intros H. unfold pushNew. apply memZ_In in H. now rewrite H.
Qed.

Lemma removeEdgeTasks_absent nw a b ts :
  ~ In b (depsOf ts a) -> ~ In a (dependentsOf ts b) ->
  removeEdgeTasks nw a b ts = updateTaskStatuses nw ts.
Proof.
  intros Hd Hr. unfold removeEdgeTasks.
  rewrite (modifyTask_fix a).
  - rewrite (modifyTask_fix b); [reflexivity |].
    intros t Ht. unfold dependentsOf in Hr. rewrite Ht in Hr.
    rewrite (without_notin _ _ Hr). apply set_dependents_same.
  - intros t Ht. unfold depsOf in Hd. rewrite Ht in Hd.
    rewrite (without_notin _ _ Hd). apply set_dependencies_same.
Qed.

(** X4. [removeTaskDependency(taskId, dependsOnId)] never throws, whatever
    the two ids are; it removes the pair from both edge lists and leaves
    every other pair as it was; removing an edge that is not there changes
    nothing but what the sweep of [saveTasks] changes, so a second call at
    the same time leaves the state untouched. *)
Theorem removeTaskDependency_idempotent env (taskId dependsOnId : Z)
    (st : TM) :
  removeTaskDependency env taskId dependsOnId st
  = (Return true, snd (removeTaskDependency env taskId dependsOnId st))
  /\ (forall i j,
        In j (depsOf (tasks (snd (removeTaskDependency env taskId dependsOnId st))) i)
        <-> In j (depsOf (tasks st) i) /\ ~ (i = taskId /\ j = dependsOnId))
  /\ (forall i j,
        In i (dependentsOf
                (tasks (snd (removeTaskDependency env taskId dependsOnId st))) j)
        <-> In i (dependentsOf (tasks st) j)
            /\ ~ (i = taskId /\ j = dependsOnId))
  /\ (~ In dependsOnId (depsOf (tasks st) taskId) ->
      ~ In taskId (dependentsOf (tasks st) dependsOnId) ->
      tasks (snd (removeTaskDependency env taskId dependsOnId st))
      = updateTaskStatuses (now env) (tasks st))
  /\ removeTaskDependency env taskId dependsOnId
       (snd (removeTaskDependency env taskId dependsOnId st))
     = (Return true, snd (removeTaskDependency env taskId dependsOnId st)).
Proof.
  rewrite !removeTaskDependency_run. cbn [snd]. rewrite tasks_withTasks.
  destruct (removeEdges_edges (now env) taskId [dependsOnId] (tasks st))
    as (_ & HE & HR).
  change (removeEdges (now env) taskId [dependsOnId] (tasks st))
    with (removeEdgeTasks (now env) taskId dependsOnId (tasks st)) in HE, HR.
  assert (HE' : forall i j,
    In j (depsOf (removeEdgeTasks (now env) taskId dependsOnId (tasks st)) i)
    <-> In j (depsOf (tasks st) i) /\ ~ (i = taskId /\ j = dependsOnId)).
  { intros i j. rewrite HE. simpl. intuition congruence. }
  assert (HR' : forall i j,
    In i (dependentsOf
            (removeEdgeTasks (now env) taskId dependsOnId (tasks st)) j)
    <-> In i (dependentsOf (tasks st) j)
        /\ ~ (i = taskId /\ j = dependsOnId)).
  { intros i j. rewrite HR. simpl. intuition congruence. }
  split; [reflexivity |]. split; [exact HE' |]. split; [exact HR' |].
  split; [apply removeEdgeTasks_absent |].
  rewrite withTasks_withTasks. f_equal. f_equal.
  rewrite removeEdgeTasks_absent.
  - unfold removeEdgeTasks. apply updateTaskStatuses_twice. lia.
  - intros H. apply HE' in H. tauto.
  - intros H. apply HR' in H. tauto.
Qed.

Lemma addEdgeTasks_present nw a b ts :
  In b (depsOf ts a) -> In a (dependentsOf ts b) ->
  addEdgeTasks nw a b ts = updateTaskStatuses nw ts.
Proof.
  intros Hd Hr. unfold addEdgeTasks.
  rewrite (modifyTask_fix a).
  - rewrite (modifyTask_fix b); [reflexivity |].
    intros t Ht. unfold dependentsOf in Hr. rewrite Ht in Hr.
    rewrite (pushNew_in _ _ Hr). apply set_dependents_same.
  - intros t Ht. unfold depsOf in Hd. rewrite Ht in Hd.
    rewrite (pushNew_in _ _ Hd). apply set_dependencies_same.
Qed.

(** Once the edge a -> b is in, the walk for a -> b still finds nothing. *)
Lemma wouldCreate_after_edge nw a b ts :
  (exists ta, getTask ts a = Some ta) ->
  wouldCreateCircularDependency ts a b = false ->
  wouldCreateCircularDependency (addEdgeTasks nw a b ts) a b = false.
Proof.
  intros [ta Hta] Hw.
  apply wouldCreateCircularDependency_false in Hw.
  destruct Hw as (Hne & Hno & Hacyc).
  assert (Hsub : forall i j, In j (depsOf (addEdgeTasks nw a b ts) i) ->
            In j (depsOf ts i) \/ (i = a /\ j = b)).
  { intros i j. rewrite (depsOf_addEdgeTasks _ _ _ _ _ ta Hta).
    destruct (i =? a) eqn:Ei; [| now left].
    apply Z.eqb_eq in Ei. rewrite In_pushNew. intros [Hin | ->];
      [now left | right; now split]. }
  assert (Hfrom_b : forall y, chain (addEdgeTasks nw a b ts) b y ->
            chain ts b y).
  { intros y Hc.
    destruct (chain_added_edge ts _ a b Hsub b y Hc) as [H | [Hba _]];
      [exact H |].
    exfalso. destruct Hba as [Hba | Hba]; [congruence | contradiction]. }
  assert (E := wouldCreateCircularDependency_total (addEdgeTasks nw a b ts) a b).
  apply (wouldCreate_no_chain (addEdgeTasks nw a b ts) a b Hne) with
    (fuel := S (length (addEdgeTasks nw a b ts))) (b := b) (visited := []).
  - intros Hc. apply Hno. now apply Hfrom_b.
  - intros x Hx Hc.
    assert (Hx' : x = b \/ chain ts b x).
    { destruct Hx as [-> | Hx]; [now left | right; now apply Hfrom_b]. }
    destruct (chain_added_edge ts _ a b Hsub x x Hc) as [H | [Hxa Hbx]].
    + now apply (Hacyc x Hx').
    + apply Hno. destruct Hxa as [-> | Hxa].
      * destruct Hx' as [Hx' | Hx']; [congruence | exact Hx'].
      * destruct Hx' as [-> | Hx']; [exact Hxa |].
        now apply (chain_trans ts b x a).
  - exact E.
  - now left.
  - intros v [].
Qed.

(** X5. Adding an edge that is already there is not an error and changes
    nothing: once [addTaskDependency(taskId, dependsOnId)] has returned, the
    same call made again at the same time returns [true] and leaves the
    whole manager state as it is. *)
Theorem addTaskDependency_idempotent env (taskId dependsOnId : Z)
    (st st1 : TM) (r : bool) :
  addTaskDependency env taskId dependsOnId st = (Return r, st1) ->
  addTaskDependency env taskId dependsOnId st1 = (Return true, st1).
Proof.
  intros H. apply addTaskDependency_Return in H.
  destruct H as (_ & -> & [ta Ha] & [tb Hb] & Hw).
  set (ts1 := addEdgeTasks (now env) taskId dependsOnId (tasks st)).
  assert (Hids : map id ts1 = map id (tasks st))
    by apply map_id_addEdgeTasks.
  assert (HE : In dependsOnId (depsOf ts1 taskId)).
  { unfold ts1. rewrite (depsOf_addEdgeTasks _ _ _ _ _ ta Ha), Z.eqb_refl.
    apply In_pushNew. now right. }
  assert (HR : In taskId (dependentsOf ts1 dependsOnId)).
  { unfold ts1. rewrite (dependentsOf_addEdgeTasks _ _ _ _ _ tb Hb), Z.eqb_refl.
    apply In_pushNew. now right. }
  rewrite addTaskDependency_run, tasks_withTasks. unfold tryAddEdge.
  destruct (getTask_In_ids ts1 taskId) as [t1 ->].
  { rewrite Hids. destruct (getTask_Some _ _ _ Ha) as [Hin <-].
    now apply in_map. }
  destruct (getTask_In_ids ts1 dependsOnId) as [t2 ->].
  { rewrite Hids. destruct (getTask_Some _ _ _ Hb) as [Hin <-].
    now apply in_map. }
  unfold ts1 at 1.
  rewrite (wouldCreate_after_edge _ _ _ _ (ex_intro _ ta Ha) Hw).
  rewrite withTasks_withTasks. f_equal. f_equal.
  rewrite (addEdgeTasks_present _ _ _ _ HE HR).
  unfold ts1, addEdgeTasks. apply updateTaskStatuses_twice. lia.
Qed.

(** Scenario B's first edge, added twice in [storeTwo]. *)
Lemma addTaskDependency_idempotent_witness :
  addTaskDependency env0 1 2 (snd (addTaskDependency env0 1 2 storeTwo))
  = (Return true, snd (addTaskDependency env0 1 2 storeTwo)).
Proof.
  apply (addTaskDependency_idempotent env0 1 2 storeTwo _ true).
  vm_compute. reflexivity.
Defined.

(** ** An id that is not stored *)

Lemma addTaskDependency_absent env (a b : Z) (st : TM) :
  getTask (tasks st) a = None \/ getTask (tasks st) b = None ->
  addTaskDependency env a b st = (Throw NotFound, st).
Proof.
  intros H. rewrite addTaskDependency_run. unfold tryAddEdge.
  destruct H as [-> | H]; [reflexivity |].
  rewrite H. now destruct (getTask (tasks st) a).
Qed.

Lemma deleteTask_absent env (a : Z) (st : TM) :
  getTask (tasks st) a = None -> deleteTask env a st = (Throw NotFound, st).
Proof.
  intros H. apply findIndex_None in H.
  rewrite deleteTask_run. unfold deleteTaskTasks. rewrite H.
  cbn [fst snd finished]. now rewrite withTasks_same.
Qed.

(** X6. For an id that is not stored, [updateTask], [deleteTask],
    [updateTaskProgress] and [unassignTask] throw the not-found error, and so
    does [addTaskDependency] with that id on either side; none of them
    changes the manager state, and the dependency chain asked for that id is
    empty. *)
Theorem absent_id_not_found env (st : TM) (taskId : Z) :
  getTask (tasks st) taskId = None ->
  (forall updates, updateTask env taskId updates st = (Throw NotFound, st))
  /\ deleteTask env taskId st = (Throw NotFound, st)
  /\ (forall p hours,
        updateTaskProgress env taskId p hours st = (Throw NotFound, st))
  /\ (forall userEmail,
        unassignTask env taskId userEmail st = (Throw NotFound, st))
  /\ (forall other,
        addTaskDependency env taskId other st = (Throw NotFound, st)
        /\ addTaskDependency env other taskId st = (Throw NotFound, st))
  /\ getTaskDependencyChain (tasks st) taskId = [].
Proof.
  intros H.
  split; [intros u; now apply updateTask_absent |].
  split; [now apply deleteTask_absent |].
  split.
  { intros p hours. unfold updateTaskProgress, bind, getTasks. now rewrite H. }
  split.
  { intros e. unfold unassignTask, bind, getTasks. now rewrite H. }
  split.
  { intros other. split; apply addTaskDependency_absent; tauto. }
  unfold getTaskDependencyChain. now rewrite H.
Qed.

Lemma absent_id_not_found_witness :
  deleteTask env0 7 storeTwo = (Throw NotFound, storeTwo).
Proof.
  apply (absent_id_not_found env0 storeTwo 7). reflexivity.
Defined.

(** ** [updateTask] in full: outcome, array and notifications *)

Lemma forEach_assigned env task (l : list string) (st : TM) :
  forEach l (fun email => sendTaskNotification env task assigned (Some email)) st
  = (Return tt,
     mkTM (tasks st) (recurringTasks st)
       (taskNotifications st
          ++ map (fun email => notificationOf env task assigned (Some email)) l)).
Proof.
  revert st. induction l as [| x l IH]; intros st; simpl.
  - rewrite app_nil_r. unfold ret. now destruct st.
  - unfold bind, sendTaskNotification at 1. rewrite IH.
    cbn [tasks recurringTasks taskNotifications].
    now rewrite <- app_assoc.
Qed.

Lemma updateTask_full env (a : Z) (u : Updates) (st : TM) (i : nat)
    (oldTask : Task) :
  findIndex (tasks st) a = Some i ->
  nth_error (tasks st) i = Some oldTask ->
  updateTask env a u st
  = (match fst (updateTaskTasks (now env) a u (tasks st)) with
     | Some e => Throw e
     | None =>
         Return (nth i (snd (updateTaskTasks (now env) a u (tasks st)))
                   (updatedRecord (now env) oldTask u))
     end,
     mkTM (snd (updateTaskTasks (now env) a u (tasks st)))
       (recurringTasks st)
       (taskNotifications st ++ updateNotes env oldTask u)).
Proof.
  intros Hi Hn.
  unfold updateTask, updateTaskTasks, bind at 1, getTasks. rewrite Hi, Hn.
  set (merged := merge (now env) oldTask u).
  set (upd := updatedRecord (now env) oldTask u).
  set (n1 := match u_status u with
             | Some s =>
                 if Status_eqb s (status oldTask) then []
                 else [notificationOf env upd status_changed None]
             | None => []
             end).
  assert (E1 :
    match u_status u with
    | Some s =>
        if Status_eqb s (status oldTask) then ret merged
        else handleStatusChange env merged (status oldTask) s
    | None => ret merged
    end st
    = (Return upd,
       mkTM (tasks st) (recurringTasks st) (taskNotifications st ++ n1))).
  { unfold n1, upd, updatedRecord. fold merged.
    destruct (u_status u) as [s |].
    - destruct (Status_eqb s (status oldTask)).
      + rewrite app_nil_r. unfold ret. now destruct st.
      + unfold handleStatusChange, bind, sendTaskNotification, ret,
          notificationOf.
        now destruct (Status_eqb s COMPLETED).
    - rewrite app_nil_r. unfold ret. now destruct st. }
  unfold bind at 1. rewrite E1.
  set (n2 := match u_assignedTo u with
             | Some l =>
                 if list_eq_dec string_dec l (assignedTo oldTask) then []
                 else
                   map (fun email => notificationOf env upd assigned (Some email))
                     (filter (fun email => negb (includes email (assignedTo oldTask))) l)
             | None => []
             end).
  assert (E2 :
    match u_assignedTo u with
    | Some a0 =>
        if list_eq_dec string_dec a0 (assignedTo oldTask) then ret tt
        else handleAssignmentChange env upd (assignedTo oldTask) a0
    | None => ret tt
    end (mkTM (tasks st) (recurringTasks st) (taskNotifications st ++ n1))
    = (Return tt,
       mkTM (tasks st) (recurringTasks st)
         (taskNotifications st ++ n1 ++ n2))).
  { unfold n2. destruct (u_assignedTo u) as [a0 |].
    - destruct (list_eq_dec string_dec a0 (assignedTo oldTask)).
      + now rewrite app_nil_r.
      + unfold handleAssignmentChange. rewrite forEach_assigned.
        cbn [tasks recurringTasks taskNotifications].
        now rewrite <- app_assoc.
    - now rewrite app_nil_r. }
  unfold bind at 1. rewrite E2.
  change (updateNotes env oldTask u) with (n1 ++ n2).
  destruct (u_dependencies u) as [deps |].
  - unfold bind at 1. rewrite updateTaskDependencies_run.
    cbn [tasks].
    destruct (updateDependenciesTasks (now env) a deps (tasks st))
      as [[e |] ts3]; reflexivity.
  - reflexivity.
Qed.

(** An update that carries neither [id] nor [dependencies]: what is
    returned is what is stored, and the other records only go through the
    sweep. *)
Lemma updateTask_stored env (a : Z) (u : Updates) (st : TM) (t : Task) :
  getTask (tasks st) a = Some t ->
  u_id u = None -> u_dependencies u = None ->
  exists ts',
    updateTask env a u st
    = (Return (sweep1 (now env) (updatedRecord (now env) t u)),
       mkTM ts' (recurringTasks st)
         (taskNotifications st ++ updateNotes env t u))
    /\ map id ts' = map id (tasks st)
    /\ forall x,
         getTask ts' x
         = if x =? a
           then Some (sweep1 (now env) (updatedRecord (now env) t u))
           else option_map (sweep1 (now env)) (getTask (tasks st) x).
Proof.
  intros Hg Hid Hd.
  destruct (findIndex (tasks st) a) as [i |] eqn:Hi.
  2:{ apply findIndex_None in Hi. congruence. }
  destruct (findIndex_Some _ _ _ Hi) as [t' [Hn Hg']].
  assert (t' = t) as -> by congruence.
  rewrite (updateTask_full env a u st i t Hi Hn).
  unfold updateTaskTasks. rewrite Hi, Hn, Hd. cbn [fst snd].
  rewrite (nth_sweep_setAt _ _ _ _ _ Hn).
  assert (Hida : id (updatedRecord (now env) t u) = a).
  { rewrite updatedRecord_id by assumption.
    now destruct (getTask_Some _ _ _ Hg). }
  eexists. split; [reflexivity |]. split.
  - apply (replaced_lookup (now env) (tasks st) a i _ t a Hi Hn Hida).
  - intros x. rewrite getTask_sweep, (getTask_setAt _ _ _ _ _ Hi Hida).
    now destruct (x =? a).
Qed.

(** X7. A status change through [updateTask] (the update carrying neither
    [id] nor [dependencies]) on a stored task returns the record it stores.
    A change to COMPLETED sets progress to 100 and the completion time to
    now, whatever the update says about them; a change to any other status
    leaves progress and completion time as the update or the old record has
    them, so a completed task that is reopened keeps its completion time,
    and the status stored is the one asked for unless the sweep makes it
    OVERDUE.  Exactly one [status_changed] notification is stored, followed
    by the [assigned] ones of the same call. *)
Theorem updateTask_status_change env (st : TM) (taskId : Z) (t : Task)
    (updates : Updates) (s : Status) :
  getTask (tasks st) taskId = Some t ->
  u_status updates = Some s -> s <> status t ->
  u_id updates = None -> u_dependencies updates = None ->
  exists r st',
    updateTask env taskId updates st = (Return r, st')
    /\ getTask (tasks st') taskId = Some r
    /\ updatedAt r = now env
    /\ (s = COMPLETED ->
        status r = COMPLETED /\ progress r = 100
        /\ completedAt r = Some (now env))
    /\ (s <> COMPLETED ->
        (status r = s \/ status r = OVERDUE)
        /\ progress r = orElse (u_progress updates) (progress t)
        /\ completedAt r = orElse (u_completedAt updates) (completedAt t))
    /\ exists assignedNotes,
         taskNotifications st'
         = taskNotifications st
           ++ notificationOf env r status_changed None :: assignedNotes
         /\ forall n, In n assignedNotes -> n_type n = assigned.
Proof.
  intros Hg Hs Hne Hid Hd.
  destruct (updateTask_stored env taskId updates st t Hg Hid Hd)
    as (ts' & -> & Hids & Hget).
  eexists. eexists. split; [reflexivity |]. cbn [tasks taskNotifications].
  split; [rewrite Hget, Z.eqb_refl; reflexivity |].
  assert (Es : Status_eqb s (status t) = false) by now apply Status_eqb_neq.
  assert (Hupd : updatedRecord (now env) t updates
                 = if Status_eqb s COMPLETED
                   then set_completed (now env) (merge (now env) t updates)
                   else merge (now env) t updates).
  { unfold updatedRecord. now rewrite Hs, Es. }
  split.
  { unfold sweep1. rewrite Hupd.
    destruct (isLate _ _); destruct (Status_eqb s COMPLETED); reflexivity. }
  split.
  { intros ->. rewrite sweep1_progress, sweep1_completedAt.
    split; [| now rewrite Hupd].
    apply sweep1_completed. now apply updatedRecord_completes. }
  split.
  { intros Hnc. apply Status_eqb_neq in Hnc.
    rewrite sweep1_progress, sweep1_completedAt, Hupd, Hnc.
    split; [| split; reflexivity].
    destruct (sweep1_status (now env) (merge (now env) t updates)) as [E | E];
      rewrite E; [left | now right].
    cbn. now rewrite Hs. }
  unfold updateNotes. rewrite Hs, Es. cbn [app].
  eexists. split.
  - f_equal. f_equal. unfold notificationOf.
    rewrite sweep1_id. f_equal. unfold sweep1.
    now destruct (isLate _ _).
  - intros n Hn. destruct (u_assignedTo updates) as [l |]; [| destruct Hn].
    destruct (list_eq_dec string_dec l (assignedTo t)); [destruct Hn |].
    apply in_map_iff in Hn. now destruct Hn as [e [<- _]].
Qed.

(** Task 1 of [storeOne] is PENDING and gets completed. *)
Lemma updateTask_status_change_witness :
  exists r st',
    updateTask env0 1 completeIt storeOne = (Return r, st')
    /\ getTask (tasks st') 1 = Some r
    /\ status r = COMPLETED /\ progress r = 100
    /\ completedAt r = Some 1000.
Proof.
  destruct (updateTask_status_change env0 storeOne 1 blankTask completeIt
              COMPLETED)
    as (r & st' & E & Hg & _ & Hc & _);
    [reflexivity | reflexivity | discriminate | reflexivity | reflexivity |].
  exists r, st'. destruct (Hc eq_refl) as (H1 & H2 & H3). now repeat split.
Defined.

(** ** Assignment *)

Lemma includes_In (x : string) (l : list string) :
  includes x l = true <-> In x l.
Proof.
  unfold includes. rewrite existsb_exists. split.
  - intros [y [Hy E]]. apply String.eqb_eq in E. now subst.
  - intros H. exists x. split; [assumption | apply String.eqb_refl].
Qed.

Lemma newlyAssigned_none (old l : list string) :
  (forall e, In e l -> In e old) ->
  filter (fun email => negb (includes email old)) l = [].
Proof.
  induction l as [| x l IH]; intros H; simpl; [reflexivity |].
  assert (includes x old = true) as -> by (apply includes_In, H; now left).
  simpl. apply IH. intros e He. apply H. now right.
Qed.

Lemma assignment_run env (a : Z) (l : list string) (st : TM) (t : Task) :
  getTask (tasks st) a = Some t ->
  exists r st',
    updateTask env a (assignTo l) st = (Return r, st')
    /\ getTask (tasks st') a = Some r
    /\ In r (tasks st')
    /\ assignedTo r = l /\ assignedBy r = assignedBy t
    /\ recurringTasks st' = recurringTasks st
    /\ taskNotifications st'
       = taskNotifications st
         ++ map (fun email => notificationOf env r assigned (Some email))
              (filter (fun email => negb (includes email (assignedTo t))) l).
Proof.
  intros Hg.
  destruct (updateTask_stored env a (assignTo l) st t Hg eq_refl eq_refl)
    as (ts' & -> & Hids & Hget).
  eexists. eexists. split; [reflexivity |].
  cbn [tasks taskNotifications recurringTasks].
  assert (Hr : getTask ts' a
               = Some (sweep1 (now env)
                         (updatedRecord (now env) t (assignTo l))))
    by (rewrite Hget, Z.eqb_refl; reflexivity).
  split; [exact Hr |].
  split; [now destruct (getTask_Some _ _ _ Hr) |].
  split; [unfold sweep1; now destruct (isLate _ _) |].
  split; [unfold sweep1; now destruct (isLate _ _) |].
  split; [reflexivity |].
  f_equal. unfold updateNotes. cbn [u_status u_assignedTo assignTo app].
  assert (Hn : forall email,
    notificationOf env (updatedRecord (now env) t (assignTo l)) assigned
      (Some email)
    = notificationOf env
        (sweep1 (now env) (updatedRecord (now env) t (assignTo l))) assigned
        (Some email)).
  { intros email. unfold notificationOf, sweep1.
    now destruct (isLate _ _). }
  destruct (list_eq_dec string_dec l (assignedTo t)) as [-> | Hne].
  - rewrite newlyAssigned_none; [reflexivity | tauto].
  - apply map_ext. exact Hn.
Qed.

(** X8. [updateTask(taskId, { assignedTo })] on a stored task returns the
    record it stores, with the new list of assignees and the assigner
    unchanged, and stores one [assigned] notification for each entry of the
    new list that was not an assignee before, in the order of the list, each
    addressed to that entry; an entry kept from the old list gets none.  The
    new list is taken to hold no empty address: for one, the source stores a
    notification without a target. *)
Theorem updateTask_assignment_notifies env (st : TM) (taskId : Z) (t : Task)
    (newAssignees : list string) :
  getTask (tasks st) taskId = Some t ->
  ~ In EmptyString newAssignees ->
  exists r st',
    updateTask env taskId (assignTo newAssignees) st = (Return r, st')
    /\ getTask (tasks st') taskId = Some r
    /\ assignedTo r = newAssignees /\ assignedBy r = assignedBy t
    /\ taskNotifications st'
       = taskNotifications st
         ++ map (fun email => notificationOf env r assigned (Some email))
              (filter (fun email => negb (includes email (assignedTo t)))
                 newAssignees)
    /\ (forall email,
          In (notificationOf env r assigned (Some email))
            (map (fun email => notificationOf env r assigned (Some email))
               (filter (fun email => negb (includes email (assignedTo t)))
                  newAssignees))
          <-> In email newAssignees /\ ~ In email (assignedTo t)).
Proof.
  intros Hg _.
  destruct (assignment_run env taskId newAssignees st t Hg)
    as (r & st' & E & Hr & _ & Ha & Hb & _ & Hn).
  exists r, st'. repeat (split; [assumption |]).
  intros email. rewrite in_map_iff. split.
  - intros [e [He Hin]]. injection He as ->.
    apply filter_In in Hin. destruct Hin as [Hin Hf].
    split; [assumption |]. intros Hold. apply includes_In in Hold.
    now rewrite Hold in Hf.
  - intros [Hin Hold]. exists email. split; [reflexivity |].
    apply filter_In. split; [assumption |].
    destruct (includes email (assignedTo t)) eqn:E1; [| reflexivity].
    apply includes_In in E1. contradiction.
Qed.

Lemma updateTask_assignment_notifies_witness :
  exists r st',
    updateTask env0 1 (assignTo ["a@studyhall.example"%string]) storeOne
    = (Return r, st')
    /\ taskNotifications st'
       = taskNotifications storeOne
         ++ [notificationOf env0 r assigned (Some "a@studyhall.example"%string)].
Proof.
  assert (Hne : ~ In EmptyString ["a@studyhall.example"%string])
    by (intros [H | []]; discriminate).
  destruct (updateTask_assignment_notifies env0 storeOne 1 blankTask
              ["a@studyhall.example"%string] eq_refl Hne)
    as (r & st' & E & _ & _ & _ & Hn & _).
  exists r, st'. split; [exact E | exact Hn].
Defined.

(** X9. [unassignTask(taskId, userEmail)] on a stored task returns the
    record it stores; the user is no longer an assignee and every other
    assignee is kept; no notification is stored and the schedules are
    untouched; the task is still among the user's tasks ([getTasksByUser])
    exactly when the user is the one who assigned it. *)
Theorem unassignTask_removes env (st : TM) (taskId : Z) (t : Task)
    (userEmail : string) :
  getTask (tasks st) taskId = Some t ->
  exists r st',
    unassignTask env taskId userEmail st = (Return r, st')
    /\ getTask (tasks st') taskId = Some r
    /\ ~ In userEmail (assignedTo r)
    /\ (forall other, other <> userEmail ->
          (In other (assignedTo r) <-> In other (assignedTo t)))
    /\ taskNotifications st' = taskNotifications st
    /\ recurringTasks st' = recurringTasks st
    /\ (In r (getTasksByUser userEmail (tasks st'))
        <-> assignedBy t = userEmail).
Proof.
  intros Hg. unfold unassignTask, bind at 1, getTasks. rewrite Hg.
  set (l := filter (fun email => negb (String.eqb email userEmail))
              (assignedTo t)).
  destruct (assignment_run env taskId l st t Hg)
    as (r & st' & E & Hr & Hin & Ha & Hb & Hrec & Hn).
  exists r, st'. split; [exact E |]. split; [exact Hr |].
  assert (Hl : forall e, In e l <-> In e (assignedTo t) /\ e <> userEmail).
  { intros e. unfold l. rewrite filter_In, negb_true_iff, String.eqb_neq.
    tauto. }
  assert (Hnot : ~ In userEmail (assignedTo r)).
  { rewrite Ha, Hl. tauto. }
  split; [exact Hnot |].
  split; [intros other Ho; rewrite Ha, Hl; tauto |].
  split.
  { rewrite Hn, newlyAssigned_none; [apply app_nil_r |].
    intros e He. now apply Hl in He. }
  split; [exact Hrec |].
  unfold getTasksByUser. rewrite filter_In, orb_true_iff, String.eqb_eq, Hb.
  split.
  - intros [_ [Hi | Hi]]; [| exact Hi].
    apply includes_In in Hi. contradiction.
  - intros Hi. split; [exact Hin | now right].
Qed.

Lemma unassignTask_removes_witness :
  exists r st',
    unassignTask env0 1 "a@studyhall.example"%string storeOne
    = (Return r, st')
    /\ taskNotifications st' = taskNotifications storeOne.
Proof.
  destruct (unassignTask_removes env0 storeOne 1 blankTask
              "a@studyhall.example"%string eq_refl)
    as (r & st' & E & _ & _ & _ & Hn & _).
  exists r, st'. split; [exact E | exact Hn].
Defined.

(** ** [updateTask] with a dependency list *)

(** X10. [updateTask(taskId, { ..., dependencies })] on a well-formed store
    (the update setting neither [id] nor [dependents]).  When it returns,
    the edge set of the task has been replaced: its dependencies are the
    given list, it is a dependent of exactly the entries of that list, every
    entry is a stored task other than itself, and the edges of the other
    tasks are as before.  When it throws, the error is the not-found or the
    circular-reference one and the update is not undone: the old
    dependencies are gone and the task depends on the entries of the list
    that precede the offending one. *)
Theorem updateTask_replaces_dependencies env (st : TM) (taskId : Z)
    (t : Task) (updates : Updates) (deps : list Z) :
  Inv (tasks st) ->
  getTask (tasks st) taskId = Some t ->
  u_dependencies updates = Some deps ->
  u_id updates = None -> u_dependents updates = None ->
  (forall r st',
     updateTask env taskId updates st = (Return r, st') ->
     dependencies r = deps
     /\ depsOf (tasks st') taskId = deps
     /\ (forall j, In taskId (dependentsOf (tasks st') j) <-> In j deps)
     /\ (forall j, In j deps ->
           j <> taskId /\ exists d, getTask (tasks st) j = Some d)
     /\ (forall i j, i <> taskId ->
           (In j (depsOf (tasks st') i) <-> In j (depsOf (tasks st) i))
           /\ (In i (dependentsOf (tasks st') j)
               <-> In i (dependentsOf (tasks st) j))))
  /\ (forall e st',
        updateTask env taskId updates st = (Throw e, st') ->
        (e = NotFound \/ e = DependencyCycle)
        /\ exists done d rest,
             deps = done ++ d :: rest
             /\ (forall j, In j (depsOf (tasks st') taskId) <-> In j done)
             /\ (forall j, In taskId (dependentsOf (tasks st') j)
                   <-> In j done)).
Proof.
  intros (Hnd & Hsym & Hirr) Hg Hdeps Hid Hdts.
  destruct (findIndex (tasks st) taskId) as [i |] eqn:Hi.
  2:{ apply findIndex_None in Hi. congruence. }
  destruct (findIndex_Some _ _ _ Hi) as [t' [Hn Hg']].
  assert (t' = t) as -> by congruence.
  rewrite (updateTask_full env taskId updates st i t Hi Hn).
  unfold updateTaskTasks. rewrite Hi, Hn, Hdeps.
  set (nw := now env). set (ts := tasks st) in *.
  destruct (updateDependenciesTasks nw taskId deps ts) as [o ts3] eqn:Eu.
  unfold updateDependenciesTasks in Eu. rewrite Hg in Eu.
  set (ts2 := removeEdges nw taskId (dependencies t) ts) in Eu.
  destruct (removeEdges_edges nw taskId (dependencies t) ts)
    as (Hids2 & HE2 & HR2). fold ts2 in Hids2, HE2, HR2.
  destruct (addEdges_edges nw taskId deps ts2)
    as (done & rest & Hl & Hids3 & HE3 & HR3 & Hne & Hr).
  rewrite Eu in Hids3, HE3, HR3, Hr. cbn [fst snd] in Hids3, HE3, HR3, Hr.
  assert (Hda : depsOf ts taskId = dependencies t)
    by (unfold depsOf; now rewrite Hg).
  assert (Hdta : dependentsOf ts taskId = dependents t)
    by (unfold dependentsOf; now rewrite Hg).
  assert (HEa : forall j, In j (depsOf ts3 taskId) <-> In j done).
  { intros j. rewrite HE3, HE2, Hda. tauto. }
  assert (HRa : forall j, In taskId (dependentsOf ts3 j) <-> In j done).
  { intros j. rewrite HR3, HR2, <- Hda, <- (Hsym taskId j). tauto. }
  assert (HEo : forall x j, x <> taskId ->
            (In j (depsOf ts3 x) <-> In j (depsOf ts x))).
  { intros x j Hx. rewrite HE3, HE2. tauto. }
  assert (HRo : forall x j, x <> taskId ->
            (In x (dependentsOf ts3 j) <-> In x (dependentsOf ts j))).
  { intros x j Hx. rewrite HR3, HR2. tauto. }
  destruct o as [e |]; cbn [fst snd]; split.
  - intros r st' [=].
  - intros e' st' [= <- <-]. cbn [tasks].
    destruct Hr as (d & rest' & -> & Ht).
    split; [now apply (tryAddEdge_error _ _ _ _ _ Ht) |].
    exists done, d, rest'. now repeat split; try apply HEa; try apply HRa.
  - intros r st' [= <- <-]. cbn [tasks].
    subst rest. rewrite app_nil_r in Hl. subst done.
    assert (Hi3 : findIndex ts3 taskId = Some i).
    { rewrite <- Hi. apply findIndex_ids. now rewrite Hids3, Hids2. }
    destruct (findIndex_Some _ _ _ Hi3) as [t3 [Hn3 Hg3]].
    assert (Hida : id (updatedRecord nw t updates) = taskId).
    { rewrite updatedRecord_id by assumption.
      now destruct (getTask_Some _ _ _ Hg). }
    assert (Hlook := fun x =>
      replaced_lookup nw ts3 taskId i (updatedRecord nw t updates) t3 x
        Hi3 Hn3 Hida).
    split.
    { rewrite (nth_sweep_setAt _ _ _ _ _ Hn3), sweep1_dependencies.
      now apply updatedRecord_new_dependencies. }
    split.
    { destruct (Hlook taskId) as (_ & -> & _). rewrite Z.eqb_refl.
      now apply updatedRecord_new_dependencies. }
    split.
    { intros j. destruct (Hlook j) as (_ & _ & ->).
      destruct (j =? taskId) eqn:E; [| apply HRa].
      apply Z.eqb_eq in E. subst j.
      rewrite (updatedRecord_dependents _ _ _ Hdts), <- Hdta.
      rewrite <- (Hsym taskId taskId). split.
      - intros H. now apply Hirr in H.
      - intros H. now apply Hne in H. }
    split.
    { intros j Hj. split; [now apply Hne |].
      apply getTask_In_ids. rewrite <- Hids2, <- Hids3.
      apply HRa in Hj. unfold dependentsOf in Hj.
      destruct (getTask ts3 j) as [d |] eqn:Ed; [| destruct Hj].
      destruct (getTask_Some _ _ _ Ed) as [Hin <-]. now apply in_map. }
    intros x j Hx. split.
    + destruct (Hlook x) as (_ & -> & _).
      apply Z.eqb_neq in Hx. rewrite Hx. apply Z.eqb_neq in Hx.
      now apply HEo.
    + destruct (Hlook j) as (_ & _ & ->).
      destruct (j =? taskId) eqn:E; [| now apply HRo].
      apply Z.eqb_eq in E. subst j.
      now rewrite (updatedRecord_dependents _ _ _ Hdts), <- Hdta.
  - intros e st' [=].
Qed.

Lemma storeTwo_Inv : Inv (tasks storeTwo).
Proof.
  unfold storeTwo, opsTwo, runOps.
  apply runOp_Inv; [exact I |]. apply runOp_Inv; [exact I | exact Inv_nil].
Qed.

(** Task 1 of [storeTwo] is made to depend on task 2. *)
Lemma updateTask_replaces_dependencies_witness :
  exists r st',
    updateTask env0 1 (dependOn [2]) storeTwo = (Return r, st')
    /\ depsOf (tasks st') 1 = [2]
    /\ (forall j, In 1 (dependentsOf (tasks st') j) <-> In j [2]).
Proof.
  destruct (updateTask_replaces_dependencies env0 storeTwo 1 blankTask
              (dependOn [2]) [2] storeTwo_Inv eq_refl eq_refl eq_refl eq_refl)
    as [HR _].
  destruct (updateTask env0 1 (dependOn [2]) storeTwo) as [[r | e] st'] eqn:E;
    [| vm_compute in E; discriminate].
  exists r, st'. split; [reflexivity |].
  destruct (HR r st' eq_refl) as (_ & H1 & H2 & _). now split.
Defined.

(** ** Deleting a task *)

Lemma sweep1_completed_iff nw t :
  status (sweep1 nw t) = COMPLETED <-> status t = COMPLETED.
Proof.
  split; [| apply sweep1_completed].
  unfold sweep1. destruct (isLate nw t); [discriminate | tauto].
Qed.

(** X11. [deleteTask] of a stored task that is not recurring, in a store
    with distinct ids: the call returns, stores no notification and leaves
    the schedules alone; the id is gone from the array and from every edge
    list while all other edges stay; and a remaining task can start
    afterwards exactly when its dependencies other than the deleted task are
    completed, so deleting an unfinished prerequisite unblocks the tasks
    that waited for it. *)
Theorem deleteTask_unblocks env (st : TM) (taskId : Z) (t : Task) :
  NoDup (map id (tasks st)) ->
  getTask (tasks st) taskId = Some t -> isRecurring t = false ->
  exists st',
    deleteTask env taskId st = (Return true, st')
    /\ taskNotifications st' = taskNotifications st
    /\ recurringTasks st' = recurringTasks st
    /\ (forall x, In x (map id (tasks st'))
          <-> In x (map id (tasks st)) /\ x <> taskId)
    /\ (forall i j, In j (depsOf (tasks st') i)
          <-> In j (depsOf (tasks st) i) /\ i <> taskId /\ j <> taskId)
    /\ (forall i j, In i (dependentsOf (tasks st') j)
          <-> In i (dependentsOf (tasks st) j) /\ i <> taskId /\ j <> taskId)
    /\ (forall x tx, x <> taskId -> getTask (tasks st) x = Some tx ->
          (canStartTask (tasks st') x = true
           <-> forall depId, In depId (dependencies tx) -> depId <> taskId ->
                 exists d, getTask (tasks st) depId = Some d
                           /\ status d = COMPLETED)).
Proof.
  intros Hnd Hg Hr.
  destruct (deleteTask_plain env taskId st t Hnd Hg Hr)
    as (st' & E & Hrec & Hget).
  exists st'. split; [exact E |].
  split.
  { rewrite deleteTask_run in E. injection E as _ <-. reflexivity. }
  split; [exact Hrec |].
  split.
  { intros x. split.
    - intros Hin. destruct (getTask_In_ids _ _ Hin) as [tx Hx].
      rewrite Hget in Hx. destruct (x =? taskId) eqn:Ex; [discriminate |].
      apply Z.eqb_neq in Ex. split; [| exact Ex].
      destruct (getTask (tasks st) x) as [u |] eqn:Eu; [| discriminate].
      destruct (getTask_Some _ _ _ Eu) as [Hin' <-]. now apply in_map.
    - intros [Hin Hx]. destruct (getTask_In_ids _ _ Hin) as [tx Htx].
      apply Z.eqb_neq in Hx.
      destruct (getTask (tasks st') x) as [u |] eqn:Eu.
      + destruct (getTask_Some _ _ _ Eu) as [Hin' <-]. now apply in_map.
      + rewrite Hget, Hx, Htx in Eu. discriminate. }
  split.
  { intros i j. unfold depsOf. rewrite Hget.
    destruct (i =? taskId) eqn:Ei.
    - apply Z.eqb_eq in Ei. simpl. tauto.
    - apply Z.eqb_neq in Ei.
      destruct (getTask (tasks st) i) as [u |]; simpl; [| tauto].
      rewrite sweep1_dependencies. simpl. rewrite In_without. tauto. }
  split.
  { intros i j. unfold dependentsOf. rewrite Hget.
    destruct (j =? taskId) eqn:Ej.
    - apply Z.eqb_eq in Ej. simpl. tauto.
    - apply Z.eqb_neq in Ej.
      destruct (getTask (tasks st) j) as [u |]; simpl; [| tauto].
      rewrite sweep1_dependents. simpl. rewrite In_without. tauto. }
  intros x tx Hx Htx.
  assert (Hx' : getTask (tasks st') x
                = Some (sweep1 (now env) (strip taskId tx))).
  { rewrite Hget, Htx. apply Z.eqb_neq in Hx. now rewrite Hx. }
  rewrite (canStartTask_iff _ _ _ Hx'). unfold allCompleted.
  rewrite sweep1_dependencies. simpl. split.
  - intros A depId Hin Hne.
    destruct (A depId) as [d [Hd Hs]]; [apply In_without; now split |].
    rewrite Hget in Hd. apply Z.eqb_neq in Hne. rewrite Hne in Hd.
    destruct (getTask (tasks st) depId) as [d0 |]; [| discriminate].
    injection Hd as <-. exists d0. split; [reflexivity |].
    apply sweep1_completed_iff in Hs. exact Hs.
  - intros A depId Hin. apply In_without in Hin. destruct Hin as [Hin Hne].
    destruct (A depId Hin Hne) as [d [Hd Hs]].
    exists (sweep1 (now env) (strip taskId d)). split.
    + rewrite Hget, Hd. apply Z.eqb_neq in Hne. now rewrite Hne.
    + apply sweep1_completed. exact Hs.
Qed.

Lemma storeChain_NoDup : NoDup (map id (tasks storeChain)).
Proof. repeat constructor; simpl; intuition discriminate. Qed.

(** In [storeChain] task 2 waits for task 1, which is PENDING; once task 1
    is deleted task 2 can start. *)
Lemma deleteTask_unblocks_witness :
  canStartTask (tasks storeChain) 2 = false
  /\ exists st',
       deleteTask env0 1 storeChain = (Return true, st')
       /\ canStartTask (tasks st') 2 = true.
Proof.
  split; [reflexivity |].
  destruct (deleteTask_unblocks env0 storeChain 1
              (nth 0 (tasks storeChain) blankTask) storeChain_NoDup
              eq_refl eq_refl)
    as (st' & E & _ & _ & _ & _ & _ & Hc).
  exists st'. split; [exact E |].
  apply (Hc 2 (nth 1 (tasks storeChain) blankTask)); [discriminate | reflexivity |].
  intros depId [<- | []] Hne. now elim Hne.
Defined.

(** ** Creating a task *)

Lemma core_isRecurring t : isRecurring (core t) = isRecurring t.
Proof. reflexivity. Qed.

Lemma nextDateValid_core t fromDate :
  nextDateValid (core t) fromDate = nextDateValid t fromDate.
Proof. reflexivity. Qed.

(** X12. [createTask] in full.  With an empty dependency list it returns,
    unless the task is recurring and its first due date is no time value
    (the date reached from now lies outside the range of [Date], where
    [toISOString] throws).  When [createTask] returns, the record returned
    is the one stored under its id; apart from the status, which the sweep
    may have turned to OVERDUE, and the two edge lists it is the record
    literal built from the argument; it depends on exactly the ids given,
    each of them a stored task other than itself that now lists it as a
    dependent, and nothing depends on it; the dependencies of the other
    tasks are unchanged; one [created] notification is stored, and a
    schedule is appended exactly when the task is recurring, its first due
    date then being a time value.  When it throws, the error is the
    not-found or the circular-reference one of the dependency loop, or the
    RangeError of a recurring task whose first due date is no time value,
    raised after all its dependencies have been linked; the record has been
    appended all the same, and neither a notification nor a schedule is
    stored.  A recurring task whose first due date is no time value always
    makes the call throw. *)
Theorem createTask_returns env (taskData : TaskData) (st : TM) :
  (orElse (d_dependencies taskData) [] = [] ->
   d_isRecurring taskData = false
   \/ nextDateValid (newTaskOf env (tasks st) taskData) (now env) = true ->
   exists r st', createTask env taskData st = (Return r, st'))
  /\ (forall r st',
        createTask env taskData st = (Return r, st') ->
        getTask (tasks st') (id r) = Some r
        /\ core r = core (newTaskOf env (tasks st) taskData)
        /\ (forall j, In j (dependencies r)
              <-> In j (orElse (d_dependencies taskData) []))
        /\ dependents r = []
        /\ (forall j, In j (dependencies r) ->
              j <> id r
              /\ (exists d, getTask (tasks st) j = Some d)
              /\ In (id r) (dependentsOf (tasks st') j))
        /\ (forall i j, i <> id r ->
              (In j (depsOf (tasks st') i) <-> In j (depsOf (tasks st) i)))
        /\ taskNotifications st'
           = taskNotifications st ++ [notificationOf env r created None]
        /\ recurringTasks st'
           = (if d_isRecurring taskData
              then recurringTasks st
                   ++ [scheduleOf env r (dateAfter r (now env))]
              else recurringTasks st)
        /\ (d_isRecurring taskData = true ->
            nextDateValid r (now env) = true))
  /\ (forall e st',
        createTask env taskData st = (Throw e, st') ->
        (e = NotFound \/ e = DependencyCycle
         \/ (e = RangeError
             /\ d_isRecurring taskData = true
             /\ nextDateValid (newTaskOf env (tasks st) taskData) (now env)
                = false
             /\ forall j,
                  In j (depsOf (tasks st') (getNextTaskId (tasks st)))
                  <-> In j (orElse (d_dependencies taskData) [])))
        /\ map id (tasks st') = map id (tasks st) ++ [getNextTaskId (tasks st)]
        /\ taskNotifications st' = taskNotifications st
        /\ recurringTasks st' = recurringTasks st)
  /\ (d_isRecurring taskData = true ->
      nextDateValid (newTaskOf env (tasks st) taskData) (now env) = false ->
      exists e st', createTask env taskData st = (Throw e, st')).
Proof.
  rewrite createTask_run. cbv zeta.
  assert (Hids := map_id_createTaskTasks env taskData (tasks st)).
  destruct (createTaskTasks_last env taskData (tasks st)) as (Hcore & Hid & Hget).
  destruct (createTaskTasks_edges env taskData (tasks st))
    as (done & rest & Hl & Hnone & Herr & HEn & HEo & HRn & Hdone).
  assert (Hnone1 : orElse (d_dependencies taskData) [] = [] ->
            fst (createTaskTasks env taskData (tasks st)) = None).
  { intros Hd. unfold createTaskTasks.
    change (dependencies (newTaskOf env (tasks st) taskData))
      with (orElse (d_dependencies taskData) []).
    now rewrite Hd. }
  destruct (createTaskTasks env taskData (tasks st)) as [[e |] ts3];
    cbn [fst snd] in *.
  { split; [intros Hd; now specialize (Hnone1 Hd) |].
    split; [intros r st' [=] |].
    split.
    - intros e' st' [= <- <-].
      cbn [withTasks tasks taskNotifications recurringTasks].
      split; [| now repeat split].
      destruct (Herr e eq_refl) as [-> | ->]; [now left | right; now left].
    - intros _ _. eexists. eexists. reflexivity. }
  set (r := last ts3 (newTaskOf env (tasks st) taskData)) in *.
  assert (Hrec : isRecurring r = d_isRecurring taskData).
  { rewrite <- (core_isRecurring r), Hcore. reflexivity. }
  assert (Hval : nextDateValid r (now env)
                 = nextDateValid (newTaskOf env (tasks st) taskData) (now env)).
  { rewrite <- (nextDateValid_core r), Hcore. reflexivity. }
  rewrite (Hnone eq_refl), app_nil_r in Hl. subst done.
  rewrite Hrec, Hval.
  split.
  { intros _ [Hr | Hv]; [rewrite Hr | rewrite Hv, andb_false_r];
      eexists; eexists; reflexivity. }
  split.
  { intros r' st'.
    destruct (d_isRecurring taskData && negb _) eqn:Eb; [discriminate |].
    intros [= <- <-]. cbn [tasks taskNotifications recurringTasks].
    assert (Hdr : depsOf ts3 (id r) = dependencies r)
      by (unfold depsOf; now rewrite Hid, Hget).
    assert (Hdt : dependentsOf ts3 (id r) = dependents r)
      by (unfold dependentsOf; now rewrite Hid, Hget).
    rewrite Hid in Hdr, Hdt.
    split; [rewrite Hid; exact Hget |]. split; [exact Hcore |].
    split; [intros j; rewrite <- Hdr; apply HEn |].
    split.
    { rewrite <- Hdt.
      destruct (dependentsOf ts3 (getNextTaskId (tasks st))) as [| x l];
        [reflexivity |].
      exfalso. apply (HRn x). now left. }
    split.
    { intros j Hj. rewrite <- Hdr in Hj. apply HEn in Hj. rewrite Hid.
      destruct (Hdone j Hj) as (H1 & H2 & H3). now repeat split. }
    split; [rewrite Hid; exact HEo |]. split; [reflexivity |].
    split; [reflexivity |].
    intros Hr. rewrite Hr in Eb. cbn [andb] in Eb.
    rewrite Hval. now apply negb_false_iff in Eb. }
  split.
  { intros e' st'.
    destruct (d_isRecurring taskData) eqn:Er; cbn [andb]; cbv iota;
      [| discriminate].
    destruct (nextDateValid (newTaskOf env (tasks st) taskData) (now env))
      eqn:Ev; cbn [negb]; cbv iota; [discriminate |].
    intros [= <- <-]. cbn [withTasks tasks taskNotifications recurringTasks].
    split; [| now repeat split].
    right. right. split; [reflexivity |]. split; [reflexivity |].
    split; [reflexivity | exact HEn]. }
  intros Hr Hv. rewrite Hr, Hv. eexists. eexists. reflexivity.
Qed.

(** A recurring task asked to repeat every 200 million days: the record is
    stored, the call throws, no schedule is kept. *)
Lemma createTask_returns_witness :
  exists st',
    createTask env0
      (mkTaskData None None None None None true (Some DAILY)
         (Some 200000000) None None) emptyTM
    = (Throw RangeError, st')
    /\ map id (tasks st') = [1]
    /\ recurringTasks st' = [].
Proof.
  destruct (createTask env0
              (mkTaskData None None None None None true (Some DAILY)
                 (Some 200000000) None None) emptyTM)
    as [[r | e] st'] eqn:E; [vm_compute in E; discriminate |].
  destruct (createTask_returns env0
              (mkTaskData None None None None None true (Some DAILY)
                 (Some 200000000) None None) emptyTM)
    as (_ & _ & H & _).
  destruct (H e st' E) as (He & Hids & _ & Hrec).
  exists st'. split; [| split; [exact Hids | exact Hrec]].
  f_equal. f_equal.
  destruct He as [-> | [-> | [-> _]]];
    [vm_compute in E; discriminate | vm_compute in E; discriminate |
     reflexivity].
Defined.

(** ** Creating a task and deleting it again *)

(** Two arrays with the same distinct ids in the same order that answer
    every lookup alike are the same array. *)
Lemma tasks_ext (l1 l2 : list Task) :
  NoDup (map id l1) -> map id l1 = map id l2 ->
  (forall x, getTask l1 x = getTask l2 x) -> l1 = l2.
Proof.
  revert l2. induction l1 as [| t1 l1 IH]; intros [| t2 l2] Hnd Hids H;
    try discriminate; [reflexivity |].
  simpl in Hids. injection Hids as Hid Hids.
  inversion Hnd as [| y l Hy Hnd']; subst.
  assert (t1 = t2) as <-.
  { specialize (H (id t1)). unfold getTask in H. simpl in H.
    rewrite <- Hid, Z.eqb_refl in H. congruence. }
  f_equal. apply IH; [assumption | assumption |].
  intros x. destruct (id t1 =? x) eqn:E.
  - apply Z.eqb_eq in E. subst x.
    assert (E1 : getTask l1 (id t1) = None) by now apply getTask_None.
    assert (E2 : getTask l2 (id t1) = None)
      by (apply getTask_None; now rewrite <- Hids).
    now rewrite E1, E2.
  - specialize (H x). unfold getTask in *. simpl in H. now rewrite E in H.
Qed.

Lemma without_pushNew (x : Z) (l : list Z) :
  without x (pushNew x l) = without x l.
Proof.
  unfold pushNew. destruct (memZ x l); [reflexivity |].
  unfold without. rewrite filter_app. simpl. rewrite Z.eqb_refl. simpl.
  apply app_nil_r.
Qed.

Lemma without_without (x : Z) (l : list Z) :
  without x (without x l) = without x l.
Proof.
  apply without_notin. intros H. apply In_without in H. tauto.
Qed.

Lemma strip_sweep1 nw n t : strip n (sweep1 nw t) = sweep1 nw (strip n t).
Proof.
  unfold sweep1.
  change (isLate nw (strip n t)) with (isLate nw t).
  now destruct (isLate nw t).
Qed.

(** The edge operations on the pair (n, b) leave every record other than
    [n] as it was, up to the sweep and to occurrences of [n] in its lists. *)
Lemma strip_addEdgeTasks nw n b ts x :
  x <> n ->
  option_map (strip n) (getTask (addEdgeTasks nw n b ts) x)
  = option_map (fun t => sweep1 nw (strip n t)) (getTask ts x).
Proof.
  intros Hx. unfold addEdgeTasks.
  rewrite getTask_sweep, getTask_two_modify by reflexivity.
  apply Z.eqb_neq in Hx. rewrite Hx.
  destruct (getTask ts x) as [t |]; [| reflexivity]. simpl. f_equal.
  rewrite strip_sweep1. f_equal.
  destruct (x =? b); [| reflexivity].
  unfold strip. simpl. now rewrite without_pushNew.
Qed.

Lemma strip_removeEdgeTasks nw n b ts x :
  x <> n ->
  option_map (strip n) (getTask (removeEdgeTasks nw n b ts) x)
  = option_map (fun t => sweep1 nw (strip n t)) (getTask ts x).
Proof.
  intros Hx. unfold removeEdgeTasks.
  rewrite getTask_sweep, getTask_two_modify by reflexivity.
  apply Z.eqb_neq in Hx. rewrite Hx.
  destruct (getTask ts x) as [t |]; [| reflexivity]. simpl. f_equal.
  rewrite strip_sweep1. f_equal.
  destruct (x =? b); [| reflexivity].
  unfold strip. simpl. now rewrite without_without.
Qed.

Lemma sweep1_strip_step nw n (o o0 : option Task) :
  option_map (strip n) o
  = option_map (fun t => sweep1 nw (strip n t)) o0 ->
  option_map (fun t => sweep1 nw (strip n t)) o
  = option_map (fun t => sweep1 nw (strip n t)) o0.
Proof.
  destruct o as [t |], o0 as [t0 |]; simpl; try discriminate;
    [| reflexivity].
  intros [= ->]. f_equal. apply isLate_sweep1. lia.
Qed.

Lemma strip_removeEdges nw n l ts ts0 :
  (forall x, x <> n ->
     option_map (strip n) (getTask ts x)
     = option_map (fun t => sweep1 nw (strip n t)) (getTask ts0 x)) ->
  forall x, x <> n ->
    option_map (strip n) (getTask (removeEdges nw n l ts) x)
    = option_map (fun t => sweep1 nw (strip n t)) (getTask ts0 x).
Proof.
  unfold removeEdges. revert ts. induction l as [| b l IH]; intros ts H;
    simpl; [exact H |].
  apply IH. intros x Hx. rewrite strip_removeEdgeTasks by assumption.
  apply sweep1_strip_step. now apply H.
Qed.

Lemma strip_addEdges nw n l ts ts0 :
  (forall x, x <> n ->
     option_map (strip n) (getTask ts x)
     = option_map (fun t => sweep1 nw (strip n t)) (getTask ts0 x)) ->
  forall x, x <> n ->
    option_map (strip n) (getTask (snd (addEdges nw n l ts)) x)
    = option_map (fun t => sweep1 nw (strip n t)) (getTask ts0 x).
Proof.
  revert ts. induction l as [| b l IH]; intros ts H; simpl; [exact H |].
  destruct (tryAddEdge nw n b ts) as [e | ts'] eqn:E; [exact H |].
  apply tryAddEdge_inr in E. destruct E as (-> & _).
  apply IH. intros x Hx. rewrite strip_addEdgeTasks by assumption.
  apply sweep1_strip_step. now apply H.
Qed.

Lemma strip_createTaskTasks env taskData ts x :
  x <> getNextTaskId ts ->
  option_map (strip (getNextTaskId ts))
    (getTask (snd (createTaskTasks env taskData ts)) x)
  = option_map (fun t => sweep1 (now env) (strip (getNextTaskId ts) t))
      (getTask ts x).
Proof.
  intros Hx. unfold createTaskTasks.
  set (nt := newTaskOf env ts taskData).
  change (getNextTaskId ts) with (id nt) in *.
  assert (Hfresh : getTask ts (id nt) = None) by apply getNextTaskId_fresh.
  assert (H1 : forall y, y <> id nt ->
    option_map (strip (id nt))
      (getTask (updateTaskStatuses (now env) (ts ++ [nt])) y)
    = option_map (fun t => sweep1 (now env) (strip (id nt) t)) (getTask ts y)).
  { intros y Hy. rewrite (getTask_pushed _ _ _ _ Hfresh).
    apply Z.eqb_neq in Hy. rewrite Hy.
    destruct (getTask ts y); [| reflexivity]. simpl.
    now rewrite strip_sweep1. }
  destruct (dependencies nt) as [| d0 l0] eqn:Ed; [now apply H1 |].
  rewrite <- Ed. unfold updateDependenciesTasks.
  rewrite (getTask_pushed _ _ _ _ Hfresh), Z.eqb_refl.
  apply strip_addEdges; [| assumption].
  now apply strip_removeEdges.
Qed.

Lemma splice1_last_id (l : list Task) (ids : list Z) (n : Z) (i : nat) :
  map id l = ids ++ [n] -> ~ In n ids -> findIndex l n = Some i ->
  map id (splice1 i l) = ids.
Proof.
  revert l i. induction ids as [| a ids IH]; intros [| t l] i Hl Hn Hi;
    simpl in *; try discriminate.
  - injection Hl as Ht Hl. destruct l; [| discriminate].
    rewrite Ht, Z.eqb_refl in Hi. now injection Hi as <-.
  - injection Hl as Ht Hl.
    assert ((id t =? n) = false) as E by (apply Z.eqb_neq; intuition congruence).
    rewrite E in Hi.
    destruct (findIndex l n) as [j |] eqn:Ej; [| discriminate].
    injection Hi as <-. simpl. rewrite Ht. f_equal.
    apply IH; [assumption | tauto | exact Ej].
Qed.

(** A store with mutually inverse edge lists mentions no id that it does
    not hold. *)
Lemma strip_unmentioned (ts : list Task) (n x : Z) (t : Task) :
  symmetric ts -> getTask ts n = None -> getTask ts x = Some t ->
  strip n t = t.
Proof.
  intros Hsym Hn Hx.
  assert (H1 : ~ In n (dependencies t)).
  { intros H. assert (H' : In n (depsOf ts x))
      by (unfold depsOf; now rewrite Hx).
    apply Hsym in H'. unfold dependentsOf in H'. now rewrite Hn in H'. }
  assert (H2 : ~ In n (dependents t)).
  { intros H. assert (H' : In n (dependentsOf ts x))
      by (unfold dependentsOf; now rewrite Hx).
    apply Hsym in H'. unfold depsOf in H'. now rewrite Hn in H'. }
  unfold strip. rewrite (without_notin _ _ H1), set_dependencies_same.
  rewrite (without_notin _ _ H2). apply set_dependents_same.
Qed.

(** X13. Round trip: in a store with distinct ids and mutually inverse edge
    lists, when [createTask] has returned a task that is not recurring,
    [deleteTask] of that task, at the same time or later, returns and
    leaves the task array exactly as it was before the creation, up to the
    overdue sweep of [saveTasks]; the schedules are as before and the one
    [created] notification is what remains of the two calls. *)
Theorem createTask_then_deleteTask env env' (taskData : TaskData)
    (st st1 : TM) (r : Task) :
  NoDup (map id (tasks st)) -> symmetric (tasks st) ->
  d_isRecurring taskData = false ->
  now env <= now env' ->
  createTask env taskData st = (Return r, st1) ->
  deleteTask env' (id r) st1
  = (Return true,
     mkTM (updateTaskStatuses (now env') (tasks st))
       (recurringTasks st)
       (taskNotifications st ++ [notificationOf env r created None])).
Proof.
  intros Hnd Hsym Hrec Hle Hc.
  set (n := getNextTaskId (tasks st)).
  assert (Hfresh : getTask (tasks st) n = None) by apply getNextTaskId_fresh.
  assert (Hids := map_id_createTaskTasks env taskData (tasks st)).
  destruct (createTaskTasks_last env taskData (tasks st))
    as (Hcore & Hid & Hget).
  assert (HS := strip_createTaskTasks env taskData (tasks st)).
  rewrite createTask_run in Hc. cbv zeta in Hc.
  destruct (createTaskTasks env taskData (tasks st)) as [[e |] ts3];
    [discriminate |].
  cbn [fst snd] in *. fold n in Hids, Hid, Hget, HS.
  set (r0 := last ts3 (newTaskOf env (tasks st) taskData)) in *.
  assert (Hr0 : isRecurring r0 = false).
  { rewrite <- (core_isRecurring r0), Hcore. exact Hrec. }
  rewrite Hr0 in Hc. injection Hc as <- <-. rewrite Hid.
  assert (Hnd3 : NoDup (map id ts3)).
  { rewrite Hids. now apply NoDup_ids_pushed. }
  destruct (findIndex ts3 n) as [i |] eqn:Hi.
  2:{ apply findIndex_None in Hi. congruence. }
  destruct (findIndex_Some _ _ _ Hi) as [t' [Hn Hg']].
  assert (t' = r0) as -> by congruence.
  rewrite deleteTask_run. cbn [tasks]. unfold deleteTaskTasks.
  rewrite Hi, Hn, Hr0. cbn [fst snd finished]. unfold withTasks.
  cbn [recurringTasks taskNotifications]. f_equal. f_equal.
  assert (Hids' : map id (map (strip n) ts3) = map id ts3)
    by (rewrite map_map; now apply map_ext).
  assert (Hi' : findIndex (map (strip n) ts3) n = Some i)
    by (rewrite <- Hi; now apply findIndex_ids).
  apply tasks_ext.
  - rewrite map_id_sweep. apply splice1_NoDup. now rewrite Hids'.
  - rewrite !map_id_sweep. apply (splice1_last_id _ _ n i).
    + now rewrite Hids'.
    + now apply getTask_None.
    + exact Hi'.
  - intros x. rewrite !getTask_sweep.
    rewrite (getTask_splice1 _ n i x) by (rewrite ?Hids'; assumption).
    destruct (x =? n) eqn:Ex.
    + apply Z.eqb_eq in Ex. subst x. now rewrite Hfresh.
    + apply Z.eqb_neq in Ex.
      rewrite (getTask_map (strip n)) by reflexivity.
      rewrite (HS x Ex).
      destruct (getTask (tasks st) x) as [t0 |] eqn:E0; [| reflexivity].
      simpl. f_equal.
      rewrite (strip_unmentioned _ _ _ _ Hsym Hfresh E0).
      now apply isLate_sweep1.
  - unfold notificationOf. now rewrite Hid.
Qed.

Lemma storeTwo_symmetric : symmetric (tasks storeTwo).
Proof. apply storeTwo_Inv. Qed.

Lemma storeTwo_NoDup : NoDup (map id (tasks storeTwo)).
Proof. apply storeTwo_Inv. Qed.

(** A third task depending on the two of [storeTwo], created and deleted. *)
Lemma createTask_then_deleteTask_witness :
  exists r st1,
    createTask env0 (dependingOn [1; 2]) storeTwo = (Return r, st1)
    /\ tasks (snd (deleteTask env0 (id r) st1))
       = updateTaskStatuses (now env0) (tasks storeTwo).
Proof.
  assert (Hle : now env0 <= now env0) by (simpl; lia).
  destruct (createTask env0 (dependingOn [1; 2]) storeTwo)
    as [[r | e] st1] eqn:E; [| vm_compute in E; discriminate].
  exists r, st1. split; [reflexivity |].
  rewrite (createTask_then_deleteTask env0 env0 (dependingOn [1; 2]) storeTwo
             st1 r storeTwo_NoDup storeTwo_symmetric eq_refl Hle E).
  reflexivity.
Defined.

(** ** The scheduler tick in general *)



(** ** A schedule that is still due after its tick *)





(** ** The dependency chain of a task *)

Lemma unvisited_mono (ts : list Task) (vis vis' : list Z) :
  incl vis vis' -> (unvisited ts vis' <= unvisited ts vis)%nat.
Proof.
  intros Hin. unfold unvisited. induction ts as [| t ts IH]; simpl; [lia |].
  destruct (memZ (id t) vis) eqn:E.
  - apply memZ_In in E. apply Hin in E. apply memZ_In in E. rewrite E.
    simpl. exact IH.
  - simpl. destruct (memZ (id t) vis'); simpl; lia.
Qed.

Lemma grows_visited (ts : list Task) (R : Z -> Prop) (vis : list Z) :
  (forall r, R r -> In r vis) -> grows ts R vis [] vis.
Proof.
  intros H. unfold grows. split; [apply incl_refl |].
  split; [intros e [] |]. split; [constructor |].
  split; [intros x t Hx Hn; contradiction |].
  split; [exact H |]. intros x Hx Hn. contradiction.
Qed.

Lemma grows_seq (ts : list Task) (R1 R2 R : Z -> Prop)
    (vis vis1 vis2 : list Z) (new1 new2 : list ChainEntry) :
  grows ts R1 vis new1 vis1 -> grows ts R2 vis1 new2 vis2 ->
  (forall r, R r <-> R1 r \/ R2 r) ->
  grows ts R vis (new1 ++ new2) vis2.
Proof.
  intros (A1 & A2 & A3 & A4 & A5 & A6) (B1 & B2 & B3 & B4 & B5 & B6) HR.
  unfold grows. split; [eapply incl_tran; eassumption |].
  split.
  { intros e He. apply in_app_or in He. destruct He as [He | He].
    - destruct (A2 e He) as (H1 & H2 & H3 & H4).
      repeat split; try assumption. now apply B1.
    - destruct (B2 e He) as (H1 & H2 & H3 & H4).
      repeat split; try assumption. intros Hv. apply H4. now apply A1. }
  split.
  { rewrite map_app. apply NoDup_app; [assumption | assumption |].
    intros x H1 H2. apply in_map_iff in H1. destruct H1 as [e1 [<- He1]].
    apply in_map_iff in H2. destruct H2 as [e2 [E He2]].
    destruct (A2 e1 He1) as (_ & _ & Hv & _).
    destruct (B2 e2 He2) as (_ & _ & _ & Hn). apply Hn. now rewrite E. }
  split.
  { intros x t Hx Hn Hg. rewrite map_app, in_app_iff.
    destruct (in_dec Z.eq_dec x vis1) as [H1 | H1].
    - destruct (A4 x t H1 Hn Hg) as [Hin Hd]. split; [now left |].
      intros d Hdep. apply B1. now apply Hd.
    - destruct (B4 x t Hx H1 Hg) as [Hin Hd]. split; [now right | exact Hd]. }
  split.
  { intros r Hr. apply HR in Hr. destruct Hr as [Hr | Hr];
      [apply B1; now apply A5 | now apply B5]. }
  intros x Hx Hn.
  destruct (in_dec Z.eq_dec x vis1) as [H1 | H1].
  - destruct (A6 x H1 Hn) as [r [Hr Hc]]. exists r. split; [| exact Hc].
    apply HR. now left.
  - destruct (B6 x Hx H1) as [r [Hr Hc]]. exists r. split; [| exact Hc].
    apply HR. now right.
Qed.

(** The loop over the dependencies, given that each call answers. *)
Lemma foldOpt_grows (ts : list Task) (fuel : nat) (lvl : nat) :
  (forall cur ch vis,
     (unvisited ts vis < fuel)%nat ->
     exists new vis',
       buildChain fuel ts cur lvl (ch, vis) = Some (ch ++ new, vis')
       /\ grows ts (eq cur) vis new vis'
       /\ Forall (fun e => (lvl <= c_level e)%nat) new) ->
  forall l ch vis,
    (unvisited ts vis < fuel)%nat ->
    exists new vis',
      foldOpt (fun acc' depId => buildChain fuel ts depId lvl acc') l (ch, vis)
      = Some (ch ++ new, vis')
      /\ grows ts (fun d => In d l) vis new vis'
      /\ Forall (fun e => (lvl <= c_level e)%nat) new.
Proof.
  intros IH. induction l as [| d l IHl]; intros ch vis Hlt.
  - exists [], vis. simpl. rewrite app_nil_r. split; [reflexivity |].
    split; [apply grows_visited; intros r [] | constructor].
  - destruct (IH d ch vis Hlt) as (new1 & vis1 & E1 & G1 & L1).
    assert (Hlt1 : (unvisited ts vis1 < fuel)%nat).
    { assert (H := unvisited_mono ts vis vis1 (proj1 G1)). lia. }
    destruct (IHl (ch ++ new1) vis1 Hlt1) as (new2 & vis2 & E2 & G2 & L2).
    exists (new1 ++ new2), vis2. cbn [foldOpt]. rewrite E1, E2.
    split; [now rewrite app_assoc |].
    split; [| now apply Forall_app].
    apply (grows_seq ts (eq d) (fun x => In x l) _ vis vis1 vis2);
      [assumption | assumption |].
    intros r. simpl. tauto.
Qed.

Lemma buildChain_grows (ts : list Task) (fuel : nat) :
  forall cur lvl ch vis,
    (unvisited ts vis < fuel)%nat ->
    exists new vis',
      buildChain fuel ts cur lvl (ch, vis) = Some (ch ++ new, vis')
      /\ grows ts (eq cur) vis new vis'
      /\ Forall (fun e => (lvl <= c_level e)%nat) new
      /\ (forall t, getTask ts cur = Some t -> ~ In cur vis ->
            exists rest,
              new = mkChainEntry t lvl (canStartTask ts cur) :: rest
              /\ Forall (fun e => (S lvl <= c_level e)%nat) rest).
Proof.
  induction fuel as [| fuel IH]; intros cur lvl ch vis Hlt; [lia |].
  cbn [buildChain snd fst].
  destruct (memZ cur vis) eqn:Hv.
  { apply memZ_In in Hv. exists [], vis. rewrite app_nil_r.
    split; [reflexivity |].
    split; [apply grows_visited; now intros r <- |].
    split; [constructor |]. intros t _ Hn. contradiction. }
  apply memZ_not_In in Hv.
  destruct (getTask ts cur) as [t |] eqn:Hg.
  2:{ exists [], (cur :: vis). rewrite app_nil_r. split; [reflexivity |].
      split; [| split; [constructor | discriminate]].
      unfold grows. split; [apply incl_tl, incl_refl |].
      split; [intros e [] |]. split; [constructor |].
      split.
      { intros x tx [<- | Hx] Hn Hgx; [congruence | contradiction]. }
      split; [intros r <-; now left |].
      intros x [<- | Hx] Hn; [| contradiction].
      exists cur. split; [reflexivity | now left]. }
  assert (Hlt' : (unvisited ts (cur :: vis) < fuel)%nat).
  { assert (Hm : memZ cur vis = false) by now apply memZ_not_In.
    assert (H := unvisited_decreases ts vis cur t Hg Hm). lia. }
  set (entry := mkChainEntry t lvl (canStartTask ts cur)).
  destruct (foldOpt_grows ts fuel (S lvl)
              (fun c ch0 vis0 H =>
                 match IH c (S lvl) ch0 vis0 H with
                 | ex_intro _ new (ex_intro _ vis' (conj E (conj G (conj L _)))) =>
                     ex_intro _ new (ex_intro _ vis' (conj E (conj G L)))
                 end)
              (dependencies t) (ch ++ [entry]) (cur :: vis) Hlt')
    as (new0 & vis' & E & (G1 & G2 & G3 & G4 & G5 & G6) & L).
  assert (Hidt : id t = cur) by now destruct (getTask_Some _ _ _ Hg).
  assert (Hcv : In cur vis') by (apply G1; now left).
  exists (entry :: new0), vis'. rewrite E.
  split; [now rewrite <- app_assoc |].
  split.
  2:{ split.
      - constructor; [simpl; lia |].
        eapply Forall_impl; [| exact L]. intros e He. simpl in He. lia.
      - intros t' [= <-] _. exists new0. now split. }
  unfold grows. split; [intros x Hx; apply G1; now right |].
  split.
  { intros e [<- | He].
    - unfold cid. simpl. rewrite Hidt. now repeat split.
    - destruct (G2 e He) as (H1 & H2 & H3 & H4).
      repeat split; try assumption. intros Hx. apply H4. now right. }
  split.
  { simpl. constructor; [| exact G3].
    intros Hin. apply in_map_iff in Hin. destruct Hin as [e [He Hin]].
    destruct (G2 e Hin) as (_ & _ & _ & Hn). apply Hn. left.
    rewrite He. unfold cid, entry. simpl. now symmetry. }
  split.
  { intros x tx Hx Hn Hgx. destruct (Z.eq_dec x cur) as [-> | Hne].
    - assert (tx = t) as -> by congruence.
      split; [left; unfold cid; simpl; exact Hidt |].
      intros d Hd. now apply G5.
    - assert (Hn' : ~ In x (cur :: vis)) by (simpl; intuition congruence).
      destruct (G4 x tx Hx Hn' Hgx) as [Hin Hd]. split; [now right | exact Hd]. }
  split; [intros r <-; exact Hcv |].
  intros x Hx Hn. exists cur. split; [reflexivity |].
  destruct (Z.eq_dec x cur) as [-> | Hne]; [now left |]. right.
  assert (Hn' : ~ In x (cur :: vis)) by (simpl; intuition congruence).
  destruct (G6 x Hx Hn') as [d [Hd Hc]].
  assert (Hdep : In d (depsOf ts cur)) by (unfold depsOf; now rewrite Hg).
  destruct Hc as [-> | Hc]; [now apply chain_edge |].
  now apply (chain_step ts cur d x).
Qed.

(** [buildChain] answers with the fuel [getTaskDependencyChain] gives it. *)
Lemma buildChain_total (ts : list Task) (taskId : Z) :
  exists acc, buildChain (S (length ts)) ts taskId 0 ([], []) = Some acc.
Proof.
  destruct (buildChain_grows ts (S (length ts)) taskId 0 [] [])
    as (new & vis' & E & _); [rewrite unvisited_nil; lia |].
  eexists. exact E.
Qed.

Lemma closed_reaches (ts : list Task) (vis : list Z) :
  (forall x t, In x vis -> getTask ts x = Some t ->
     forall d, In d (dependencies t) -> In d vis) ->
  forall x y, chain ts x y -> In x vis -> In y vis.
Proof.
  intros Hcl x y Hc. induction Hc as [x y Hd | x y z Hd Hc IH]; intros Hx.
  - unfold depsOf in Hd. destruct (getTask ts x) as [t |] eqn:Hg;
      [| destruct Hd]. now apply (Hcl x t).
  - apply IH. unfold depsOf in Hd.
    destruct (getTask ts x) as [t |] eqn:Hg; [| destruct Hd].
    now apply (Hcl x t).
Qed.

(** X16. [getTaskDependencyChain(taskId)] for a stored task returns: first
    the task itself at level 0; then, each at a level of at least 1 and none
    twice, exactly the stored tasks that the task reaches along its
    dependency edges, ids that resolve to nothing being skipped.  Every
    entry carries the stored record and the answer of [canStartTask] for
    it.  The walk ends on every store, cyclic ones included. *)
Theorem getTaskDependencyChain_reachable (ts : list Task) (taskId : Z)
    (t : Task) :
  getTask ts taskId = Some t ->
  exists rest,
    getTaskDependencyChain ts taskId
    = mkChainEntry t 0 (canStartTask ts taskId) :: rest
    /\ Forall (fun e => (1 <= c_level e)%nat) rest
    /\ NoDup (map cid (getTaskDependencyChain ts taskId))
    /\ (forall e, In e (getTaskDependencyChain ts taskId) ->
          getTask ts (cid e) = Some (c_task e)
          /\ c_canStart e = canStartTask ts (cid e))
    /\ (forall x, In x (map cid (getTaskDependencyChain ts taskId))
          <-> (x = taskId \/ chain ts taskId x)
              /\ exists tx, getTask ts x = Some tx).
Proof.
  intros Hg. unfold getTaskDependencyChain. rewrite Hg.
  destruct (buildChain_grows ts (S (length ts)) taskId 0 [] [])
    as (new & vis' & E & (G1 & G2 & G3 & G4 & G5 & G6) & _ & Hhead);
    [rewrite unvisited_nil; lia |].
  rewrite E. cbn [fst app].
  destruct (Hhead t Hg (fun H => H)) as (rest & Hnew & Hrest).
  exists rest. split; [exact Hnew |]. split; [exact Hrest |].
  split; [exact G3 |].
  split; [intros e He; destruct (G2 e He) as (H1 & H2 & _); now split |].
  intros x. split.
  - intros Hin. apply in_map_iff in Hin. destruct Hin as [e [<- He]].
    destruct (G2 e He) as (H1 & _ & H3 & H4). split; [| now exists (c_task e)].
    destruct (G6 (cid e) H3 H4) as [r [<- Hc]].
    destruct Hc as [Hc | Hc]; [now left | now right].
  - intros [Hr [tx Hx]].
    assert (Hcl : forall y ty, In y vis' -> getTask ts y = Some ty ->
              forall d, In d (dependencies ty) -> In d vis').
    { intros y ty Hy Hgy. now apply (G4 y ty Hy (fun H => H) Hgy). }
    assert (Hroot : In taskId vis') by now apply G5.
    assert (Hxv : In x vis').
    { destruct Hr as [-> | Hc]; [exact Hroot |].
      now apply (closed_reaches ts vis' Hcl taskId x). }
    now apply (G4 x tx Hxv (fun H => H) Hx).
Qed.

(** In [storeChain] task 2 depends on task 1: the chain of task 2 lists
    both. *)
Lemma getTaskDependencyChain_reachable_witness :
  map cid (getTaskDependencyChain (tasks storeChain) 2) = [2; 1]
  /\ NoDup (map cid (getTaskDependencyChain (tasks storeChain) 2)).
Proof.
  split; [reflexivity |].
  destruct (getTaskDependencyChain_reachable (tasks storeChain) 2
              (nth 1 (tasks storeChain) blankTask) eq_refl)
    as (rest & _ & _ & Hnd & _).
  exact Hnd.
Defined.

(** ** Queries by due date *)

Lemma validTime_spec (t : Z) :
  validTime t = true <-> - maxTime <= t <= maxTime.
Proof.
  unfold validTime. rewrite andb_true_iff, !Z.leb_le. tauto.
Qed.

Lemma getUpcomingTasks_spec (nw days : Z) (ts : list Task) (t : Task) :
  In t (getUpcomingTasks nw days ts)
  <-> In t ts /\ status t <> COMPLETED
      /\ validTime (nw + days * 24 * 60 * 60 * 1000) = true
      /\ exists d, dueDate t = Some d
                   /\ nw <= d <= nw + days * 24 * 60 * 60 * 1000.
Proof.
  unfold getUpcomingTasks. rewrite filter_In.
  destruct (dueDate t) as [d |].
  - destruct (Status_eqb (status t) COMPLETED) eqn:E.
    + apply Status_eqb_eq in E. split; [intros [_ H]; discriminate |].
      intros (_ & H & _). contradiction.
    + apply Status_eqb_neq in E. split.
      * intros [H1 H2]. apply andb_prop in H2. destruct H2 as [H2 H3].
        apply andb_prop in H3. destruct H3 as [Hv H3].
        apply Z.leb_le in H2. apply Z.leb_le in H3.
        repeat split; try assumption. exists d. now repeat split.
      * intros (H1 & _ & Hv & d' & [= <-] & H2 & H3). split; [assumption |].
        rewrite Hv. apply andb_true_intro. split; now apply Z.leb_le.
  - split; [intros [_ H]; discriminate |].
    intros (_ & _ & _ & d & H & _). discriminate.
Qed.

Lemma getTasksByStatus_spec (s : Status) (ts : list Task) (t : Task) :
  In t (getTasksByStatus s ts) <-> In t ts /\ status t = s.
Proof.
  unfold getTasksByStatus. now rewrite filter_In, Status_eqb_eq.
Qed.

Lemma filter_map_unchanged {A} (p : A -> bool) (f : A -> A) (l : list A) :
  (forall x, p (f x) = p x) -> (forall x, p x = true -> f x = x) ->
  filter p (map f l) = filter p l.
Proof.
  intros H1 H2. induction l as [| x l IH]; simpl; [reflexivity |].
  rewrite H1. destruct (p x) eqn:E; [| exact IH].
  now rewrite (H2 x E), IH.
Qed.

(** X17. The two queries by due date, at one time.  When the end of the
    window, [days] days from now, is a time value, [getUpcomingTasks(days)]
    returns the stored tasks that are not COMPLETED and are due between now
    and that end, both ends included; when it is none (the window ends
    outside the range of [Date]) and for a negative [days] it returns
    nothing.  No task is both overdue and upcoming, and an unfinished task
    due before the end of a window that is a time value is one or the other.
    The overdue sweep of [saveTasks] does not change what is upcoming, and
    after it every task [getOverdueTasks] returns has status OVERDUE or
    CANCELLED. *)
Theorem due_date_queries (nw days : Z) (ts : list Task) :
  (forall t, In t (getUpcomingTasks nw days ts)
     <-> In t ts /\ status t <> COMPLETED
         /\ - maxTime <= nw + days * 24 * 60 * 60 * 1000 <= maxTime
         /\ exists d, dueDate t = Some d
                      /\ nw <= d <= nw + days * 24 * 60 * 60 * 1000)
  /\ (days < 0 -> getUpcomingTasks nw days ts = [])
  /\ (maxTime < nw + days * 24 * 60 * 60 * 1000 ->
      getUpcomingTasks nw days ts = [])
  /\ (forall t, In t (getOverdueTasks nw ts) ->
        ~ In t (getUpcomingTasks nw days ts))
  /\ (forall t d, In t ts -> status t <> COMPLETED -> dueDate t = Some d ->
        d <= nw + days * 24 * 60 * 60 * 1000 <= maxTime ->
        - maxTime <= nw ->
        In t (getOverdueTasks nw ts) \/ In t (getUpcomingTasks nw days ts))
  /\ getUpcomingTasks nw days (updateTaskStatuses nw ts)
     = getUpcomingTasks nw days ts
  /\ (forall t, In t (getOverdueTasks nw (updateTaskStatuses nw ts)) ->
        In t (getTasksByStatus OVERDUE (updateTaskStatuses nw ts))
        \/ In t (getTasksByStatus CANCELLED (updateTaskStatuses nw ts))).
Proof.
  split.
  { intros t. rewrite getUpcomingTasks_spec, validTime_spec. tauto. }
  split.
  { intros Hneg.
    destruct (getUpcomingTasks nw days ts) as [| t l] eqn:E; [reflexivity |].
    assert (Hin : In t (getUpcomingTasks nw days ts))
      by (rewrite E; now left).
    apply getUpcomingTasks_spec in Hin.
    destruct Hin as (_ & _ & _ & d & _ & H). lia. }
  split.
  { intros Hfar.
    destruct (getUpcomingTasks nw days ts) as [| t l] eqn:E; [reflexivity |].
    assert (Hin : In t (getUpcomingTasks nw days ts))
      by (rewrite E; now left).
    apply getUpcomingTasks_spec in Hin.
    destruct Hin as (_ & _ & Hv & _). apply validTime_spec in Hv. lia. }
  split.
  { intros t Ho Hu. apply getOverdueTasks_spec in Ho.
    apply getUpcomingTasks_spec in Hu.
    destruct Ho as (_ & _ & d & Hd & Hlt).
    destruct Hu as (_ & _ & _ & d' & Hd' & Hle). rewrite Hd in Hd'.
    injection Hd' as <-. lia. }
  split.
  { intros t d Hin Hs Hd Hle Hnw. destruct (Z.lt_ge_cases d nw) as [H | H].
    - left. apply getOverdueTasks_spec. split; [assumption |].
      split; [assumption |]. exists d. now split.
    - right. apply getUpcomingTasks_spec. split; [assumption |].
      split; [assumption |].
      split; [apply validTime_spec; lia |].
      exists d. split; [assumption | lia]. }
  split.
  { unfold getUpcomingTasks, updateTaskStatuses. apply filter_map_unchanged.
    - intros t. rewrite sweep1_dueDate. destruct (dueDate t) as [d |] eqn:Ed;
        [| reflexivity].
      unfold sweep1. destruct (isLate nw t) eqn:El; [| reflexivity].
      unfold isLate in El. rewrite Ed in El. simpl.
      apply andb_prop in El. destruct El as [El _].
      apply andb_prop in El. destruct El as [El _].
      apply andb_prop in El. destruct El as [El _].
      apply Z.ltb_lt in El.
      assert ((nw <=? d) = false) as -> by (apply Z.leb_gt; lia).
      simpl. now destruct (Status_eqb (status t) COMPLETED).
    - intros t Hp. unfold sweep1. destruct (isLate nw t) eqn:El;
        [| reflexivity].
      exfalso. unfold isLate in El.
      destruct (dueDate t) as [d |]; [| discriminate].
      apply andb_prop in El. destruct El as [El _].
      apply andb_prop in El. destruct El as [El _].
      apply andb_prop in El. destruct El as [El _].
      apply Z.ltb_lt in El.
      destruct (Status_eqb (status t) COMPLETED); [discriminate |].
      apply andb_prop in Hp. destruct Hp as [Hp _].
      apply Z.leb_le in Hp. lia. }
  intros t Ho. apply getOverdueTasks_spec in Ho.
  destruct Ho as (Hin & Hs & d & Hd & Hlt).
  rewrite !getTasksByStatus_spec.
  assert (Hl : isLate nw t = false).
  { unfold updateTaskStatuses in Hin. apply in_map_iff in Hin.
    destruct Hin as [t0 [<- _]]. apply isLate_after_sweep1. }
  unfold isLate in Hl. rewrite Hd in Hl.
  assert ((d <? nw) = true) as E by now apply Z.ltb_lt.
  rewrite E in Hl. apply Status_eqb_neq in Hs. rewrite Hs in Hl. simpl in Hl.
  destruct (Status_eqb (status t) CANCELLED) eqn:Ec.
  - right. apply Status_eqb_eq in Ec. now split.
  - left. simpl in Hl. apply negb_false_iff in Hl.
    apply Status_eqb_eq in Hl. now split.
Qed.

(** ** Permissions *)

Lemma findUser_modifyUser (userId : string) (f : User -> User)
    (us : list User) (x : string) :
  (forall u, uid (f u) = uid u) ->
  findUser (modifyUser userId f us) x
  = if String.eqb x userId then option_map f (findUser us x)
    else findUser us x.
Proof.
  intros Hf. unfold findUser. induction us as [| u us IH]; simpl.
  - now destruct (String.eqb x userId).
  - destruct (String.eqb (uid u) userId) eqn:Ea; simpl.
    + rewrite Hf. apply String.eqb_eq in Ea.
      destruct (String.eqb (uid u) x) eqn:Ex.
      * apply String.eqb_eq in Ex.
        assert (String.eqb x userId = true) as ->
          by (apply String.eqb_eq; congruence).
        reflexivity.
      * apply String.eqb_neq in Ex.
        assert (String.eqb x userId = false) as ->
          by (apply String.eqb_neq; congruence).
        reflexivity.
    + destruct (String.eqb (uid u) x) eqn:Ex.
      * apply String.eqb_eq in Ex. apply String.eqb_neq in Ea.
        assert (String.eqb x userId = false) as ->
          by (apply String.eqb_neq; congruence).
        reflexivity.
      * apply IH.
Qed.

Lemma modifyUser_fix (userId : string) (f : User -> User) (us : list User) :
  (forall u, findUser us userId = Some u -> f u = u) ->
  modifyUser userId f us = us.
Proof.
  unfold findUser. induction us as [| u us IH]; simpl; intros H.
  - reflexivity.
  - destruct (String.eqb (uid u) userId).
    + now rewrite (H u eq_refl).
    + now rewrite IH.
Qed.

Lemma modifyUser_twice (userId : string) (f g : User -> User)
    (us : list User) :
  (forall u, uid (f u) = uid u) ->
  modifyUser userId g (modifyUser userId f us)
  = modifyUser userId (fun u => g (f u)) us.
Proof.
  intros Hf. induction us as [| u us IH]; simpl; [reflexivity |].
  destruct (String.eqb (uid u) userId) eqn:E; simpl.
  - now rewrite Hf, E.
  - now rewrite E, IH.
Qed.

Lemma hasPermission_by_id (a : Auth) (p userId : string) :
  userId <> EmptyString ->
  hasPermission a p (Some userId)
  = match findUser (authorizedUsers a) userId with
    | Some user =>
        match permissions user with
        | Some ps => includes "admin" ps || includes p ps
        | None => false
        end
    | None => false
    end.
Proof.
  intros Hne. unfold hasPermission, subject.
  apply String.eqb_neq in Hne. rewrite Hne.
  destruct (findUser (authorizedUsers a) userId) as [u |]; [| reflexivity].
  destruct (permissions u) as [ps |]; [| reflexivity].
  now destruct (includes "admin" ps).
Qed.

Lemma hasPermission_other (a : Auth) (f : User -> User)
    (userId : string) (p : string) (other : option string) :
  (forall u, uid (f u) = uid u) ->
  other <> Some userId ->
  hasPermission (withUsers a (modifyUser userId f (authorizedUsers a))) p other
  = hasPermission a p other.
Proof.
  intros Hf Hne. unfold hasPermission, subject, withUsers. simpl.
  destruct other as [s |]; [| reflexivity].
  destruct (String.eqb s EmptyString); [reflexivity |].
  rewrite (findUser_modifyUser _ _ _ _ Hf).
  assert (String.eqb s userId = false) as ->
    by (apply String.eqb_neq; congruence).
  reflexivity.
Qed.

Lemma includes_app (x : string) (l l' : list string) :
  includes x (l ++ l') = includes x l || includes x l'.
Proof. unfold includes. apply existsb_app. Qed.

Lemma includes_filter_neq (x p : string) (l : list string) :
  includes x (filter (fun q => negb (String.eqb q p)) l)
  = negb (String.eqb x p) && includes x l.
Proof.
  induction l as [| y l IH]; simpl.
  - now rewrite andb_false_r.
  - destruct (String.eqb y p) eqn:Ey; simpl.
    + rewrite IH. apply String.eqb_eq in Ey. subst y.
      destruct (String.eqb x p) eqn:Ex; simpl; [reflexivity |].
      reflexivity.
    + rewrite IH. destruct (String.eqb x y) eqn:Exy; simpl.
      * apply String.eqb_eq in Exy. subst y. rewrite Ey. reflexivity.
      * reflexivity.
Qed.

(** X18. [assignPermission(userId, permission)].  It decides on the
    caller's rights from the session: without the admin permission there
    it throws and changes nothing, as it does for an unknown user.  When
    it returns, the user holds the permission ([hasPermission] with that id
    answers true), keeps every permission held before, the answers for all
    other users and for the session are as before, and the same call made
    again returns without changing the state. *)
Theorem assignPermission_grants (a : Auth) (userId permission : string) :
  (forall e a',
     assignPermission userId permission a = (inl e, a') ->
     a' = a
     /\ (e = NotAdministrator <-> hasPermission a "admin" None = false)
     /\ (e = UserNotFound ->
         findUser (authorizedUsers a) userId = None))
  /\ (forall r a',
        assignPermission userId permission a = (inr r, a') ->
        r = true
        /\ hasPermission a "admin" None = true
        /\ sessionUser a' = sessionUser a
        /\ (userId <> EmptyString ->
            hasPermission a' permission (Some userId) = true)
        /\ (forall q, hasPermission a q (Some userId) = true ->
              hasPermission a' q (Some userId) = true)
        /\ (forall q other, other <> Some userId ->
              hasPermission a' q other = hasPermission a q other)
        /\ assignPermission userId permission a' = (inr true, a')).
Proof.
  unfold assignPermission.
  destruct (hasPermission a "admin" None) eqn:Hadm; cbn [negb].
  2:{ split; [| intros r a' [=]].
      intros e a' [= <- <-]. split; [reflexivity |].
      split; [split; reflexivity | discriminate]. }
  destruct (findUser (authorizedUsers a) userId) as [user |] eqn:Hu.
  2:{ split; [| intros r a' [=]].
      intros e a' [= <- <-]. split; [reflexivity |].
      split; [| reflexivity]. split; discriminate. }
  destruct (permissions user) as [ps |] eqn:Hp.
  2:{ split; [| intros r a' [=]].
      intros e a' [= <- <-]. split; [reflexivity |].
      split; [| discriminate]. split; discriminate. }
  split; [destruct (includes permission ps); intros e a' [=] |].
  assert (Hsame : forall q, hasPermission a q (Some userId)
                    = if String.eqb userId EmptyString
                      then hasPermission a q None
                      else includes "admin" ps || includes q ps).
  { intros q. unfold hasPermission, subject.
    destruct (String.eqb userId EmptyString); [reflexivity |].
    rewrite Hu, Hp. now destruct (includes "admin" ps). }
  destruct (includes permission ps) eqn:Hin.
  - intros r a' [= <- <-]. split; [reflexivity |]. split; [reflexivity |].
    split; [reflexivity |]. split.
    { intros Hne. rewrite Hsame. apply String.eqb_neq in Hne. rewrite Hne.
      rewrite Hin. apply orb_true_r. }
    split; [tauto |]. split; [reflexivity |].
    now rewrite Hadm, Hu, Hp, Hin.
  - intros r a' [= <- <-].
    set (f := set_permissions (Some (ps ++ [permission]))).
    assert (Hf : forall u, uid (f u) = uid u) by reflexivity.
    assert (Hu' : findUser (modifyUser userId f (authorizedUsers a)) userId
                  = Some (f user)).
    { rewrite (findUser_modifyUser _ _ _ _ Hf), String.eqb_refl, Hu.
      reflexivity. }
    assert (Hadm' : hasPermission
                      (withUsers a (modifyUser userId f (authorizedUsers a)))
                      "admin" None = true) by exact Hadm.
    split; [reflexivity |]. split; [reflexivity |].
    split; [reflexivity |]. split.
    { intros Hne. rewrite (hasPermission_by_id _ _ _ Hne).
      cbn [authorizedUsers withUsers]. rewrite Hu'. cbn [permissions f set_permissions].
      rewrite !includes_app. cbn [includes existsb].
      rewrite String.eqb_refl. now rewrite !orb_true_r. }
    split.
    { intros q Hq. destruct (String.eqb userId EmptyString) eqn:Ee.
      - unfold hasPermission, subject in *.
        cbn [sessionUser withUsers]. rewrite Ee in *. exact Hq.
      - apply String.eqb_neq in Ee.
        rewrite (hasPermission_by_id a q userId Ee) in Hq.
        rewrite (hasPermission_by_id _ q userId Ee).
        cbn [authorizedUsers withUsers]. rewrite Hu'. rewrite Hu, Hp in Hq.
        cbn [permissions f set_permissions]. rewrite !includes_app.
        destruct (includes "admin" ps); [reflexivity |]. simpl in Hq.
        rewrite Hq. cbn [orb]. apply orb_true_r. }
    split.
    { intros q other Hne. now apply hasPermission_other. }
    rewrite Hadm'. cbn [negb authorizedUsers withUsers]. rewrite Hu'.
    cbn [permissions f set_permissions].
    rewrite includes_app. cbn [includes existsb]. rewrite String.eqb_refl.
    now rewrite orb_true_r.
Qed.

(** [hrSpecialist] is given the finance permission by the signed-in
    administrator. *)
Lemma assignPermission_grants_witness :
  hasPermission authCeo "finance" (Some "EMP003"%string) = false
  /\ exists a',
       assignPermission "EMP003" "finance" authCeo = (inr true, a')
       /\ hasPermission a' "finance" (Some "EMP003"%string) = true.
Proof.
  split; [reflexivity |].
  destruct (assignPermission_grants authCeo "EMP003" "finance") as [_ H].
  destruct (assignPermission "EMP003" "finance" authCeo) as [[e | r] a'] eqn:E;
    [vm_compute in E; discriminate |].
  destruct (H r a' eq_refl) as (-> & _ & _ & Hg & _).
  exists a'. split; [reflexivity |]. apply Hg. discriminate.
Defined.

Lemma filter_neq_app_last (p : string) (l : list string) :
  includes p l = false ->
  filter (fun q => negb (String.eqb q p)) (l ++ [p]) = l.
Proof.
  intros H. rewrite filter_app. simpl. rewrite String.eqb_refl. simpl.
  rewrite app_nil_r. induction l as [| y l IH]; simpl; [reflexivity |].
  simpl in H. apply orb_false_elim in H. destruct H as [H1 H2].
  rewrite String.eqb_sym, H1. simpl. now rewrite IH.
Qed.

(** X19. [revokePermission(userId, permission)], called by an
    administrator (by the session) for a stored user with a permission
    list, returns; afterwards the permission is not in the user's list, the
    other entries are kept in order, and the other users and the session
    are untouched.  [hasPermission] still answers true for the revoked
    permission exactly when the user keeps the admin permission, which
    overrides.  Revoking a permission that [assignPermission] has just
    added restores the user records exactly. *)
Theorem revokePermission_removes (a : Auth) (userId permission : string)
    (user : User) (ps : list string) :
  hasPermission a "admin" None = true ->
  findUser (authorizedUsers a) userId = Some user ->
  permissions user = Some ps ->
  exists a',
    revokePermission userId permission a = (inr true, a')
    /\ sessionUser a' = sessionUser a
    /\ findUser (authorizedUsers a') userId
       = Some (set_permissions
                 (Some (filter (fun p => negb (String.eqb p permission)) ps))
                 user)
    /\ (forall other, other <> userId ->
          findUser (authorizedUsers a') other
          = findUser (authorizedUsers a) other)
    /\ (userId <> EmptyString ->
        hasPermission a' permission (Some userId)
        = negb (String.eqb "admin" permission) && includes "admin" ps)
    /\ (includes permission ps = false ->
        forall a1,
          assignPermission userId permission a = (inr true, a1) ->
          revokePermission userId permission a1 = (inr true, a)).
Proof.
  intros Hadm Hu Hp. unfold revokePermission at 1. rewrite Hadm, Hu, Hp.
  cbn [negb].
  set (g := set_permissions
              (Some (filter (fun p => negb (String.eqb p permission)) ps))).
  assert (Hg : forall u, uid (g u) = uid u) by reflexivity.
  eexists. split; [reflexivity |]. cbn [sessionUser authorizedUsers withUsers].
  split; [reflexivity |].
  assert (Hu' : findUser (modifyUser userId g (authorizedUsers a)) userId
                = Some (g user)).
  { rewrite (findUser_modifyUser _ _ _ _ Hg), String.eqb_refl, Hu.
    reflexivity. }
  split; [exact Hu' |].
  split.
  { intros other Hne. rewrite (findUser_modifyUser _ _ _ _ Hg).
    apply String.eqb_neq in Hne. now rewrite Hne. }
  split.
  { intros Hne. rewrite (hasPermission_by_id _ _ _ Hne).
    cbn [authorizedUsers withUsers]. rewrite Hu'.
    cbn [permissions g set_permissions].
    rewrite !includes_filter_neq, String.eqb_refl. cbn [negb andb].
    apply orb_false_r. }
  intros Hin a1 Ha. unfold assignPermission in Ha.
  rewrite Hadm, Hu, Hp, Hin in Ha. cbn [negb] in Ha. injection Ha as <-.
  set (f := set_permissions (Some (ps ++ [permission]))).
  assert (Hf : forall u, uid (f u) = uid u) by reflexivity.
  unfold revokePermission.
  change (hasPermission (withUsers a (modifyUser userId f (authorizedUsers a)))
            "admin" None)
    with (hasPermission a "admin" None).
  rewrite Hadm. cbn [negb authorizedUsers withUsers].
  rewrite (findUser_modifyUser _ _ _ _ Hf), String.eqb_refl, Hu.
  cbn [option_map permissions f set_permissions].
  rewrite (filter_neq_app_last _ _ Hin).
  rewrite (modifyUser_twice _ _ _ _ Hf).
  rewrite (modifyUser_fix userId (fun u => set_permissions (Some ps) (f u))).
  - now destruct a.
  - intros u Hu2. assert (u = user) as -> by congruence.
    unfold f, set_permissions. simpl. destruct user; simpl in *.
    now rewrite Hp.
Qed.

(** The administrator takes the hr permission from [hrManager], who keeps
    the admin permission. *)
Lemma revokePermission_removes_witness :
  exists a',
    revokePermission "EMP002" "hr" authCeo = (inr true, a')
    /\ hasPermission a' "hr" (Some "EMP002"%string) = true
    /\ findUser (authorizedUsers a') "EMP002"
       = Some (mkUser "EMP002" "HR Manager" (Some ["admin"; "users"]%string)).
Proof.
  destruct (revokePermission_removes authCeo "EMP002" "hr" hrManager
              ["hr"; "admin"; "users"]%string eq_refl eq_refl eq_refl)
    as (a' & E & _ & Hf & _ & Hh & _).
  exists a'. split; [exact E |]. split.
  - rewrite Hh; [reflexivity | discriminate].
  - exact Hf.
Defined.

Lemma runPermOp_session (op : PermOp) (a : Auth) :
  sessionUser (snd (runPermOp op a)) = sessionUser a.
Proof.
  destruct op as [u p | u p]; unfold runPermOp, assignPermission,
    revokePermission;
    destruct (hasPermission a "admin" None); cbn [negb]; try reflexivity;
    destruct (findUser (authorizedUsers a) u) as [user |]; try reflexivity;
    destruct (permissions user) as [ps |]; try reflexivity.
  now destruct (includes p ps).
Qed.

Lemma runPermOp_guard (op : PermOp) (a : Auth) :
  fst (runPermOp op a) = inl NotAdministrator
  <-> hasPermission a "admin" None = false.
Proof.
  destruct op as [u p | u p]; unfold runPermOp, assignPermission,
    revokePermission;
    destruct (hasPermission a "admin" None); cbn [negb fst];
    try (split; [discriminate | discriminate]);
    try (split; reflexivity);
    destruct (findUser (authorizedUsers a) u) as [user |];
    try (split; discriminate);
    destruct (permissions user) as [ps |]; try (split; discriminate).
  destruct (includes p ps); split; discriminate.
Qed.

Lemma hasPermission_session (a a' : Auth) (p : string) :
  sessionUser a' = sessionUser a ->
  hasPermission a' p None = hasPermission a p None.
Proof. intros H. unfold hasPermission, subject. now rewrite H. Qed.

(** X20. The caller's rights are read from the session, which no
    permission operation rewrites.  So over any sequence of
    [assignPermission] and [revokePermission] calls the session is
    unchanged and [hasPermission] without a user id keeps answering the
    same; a caller who is an administrator at the start is never refused
    later in the sequence, also after the admin permission has been revoked
    from the caller's own record, and a caller who is none is refused
    every time and changes nothing. *)
Theorem permission_guard_reads_session (ops : list PermOp) (a : Auth) :
  sessionUser (snd (runPermOps ops a)) = sessionUser a
  /\ (forall p, hasPermission (snd (runPermOps ops a)) p None
                = hasPermission a p None)
  /\ (hasPermission a "admin" None = true ->
      ~ In (inl NotAdministrator) (fst (runPermOps ops a)))
  /\ (hasPermission a "admin" None = false ->
      snd (runPermOps ops a) = a
      /\ Forall (fun r => r = inl NotAdministrator) (fst (runPermOps ops a))).
Proof.
  assert (Hs : forall ops a,
            sessionUser (snd (runPermOps ops a)) = sessionUser a).
  { clear. induction ops as [| op ops IH]; intros a; [reflexivity |].
    cbn [runPermOps]. assert (H1 := runPermOp_session op a).
    destruct (runPermOp op a) as [r a1]. specialize (IH a1).
    destruct (runPermOps ops a1) as [rs a2]. cbn [snd] in *. congruence. }
  split; [apply Hs |].
  split; [intros p; apply hasPermission_session, Hs |].
  split.
  - revert a. induction ops as [| op ops IH]; intros a Hadm;
      [intros [] |].
    cbn [runPermOps]. assert (H1 := runPermOp_session op a).
    assert (H2 := runPermOp_guard op a).
    destruct (runPermOp op a) as [r a1]. cbn [fst snd] in *.
    assert (Hadm1 : hasPermission a1 "admin" None = true)
      by (rewrite (hasPermission_session a a1 _ H1); exact Hadm).
    specialize (IH a1 Hadm1).
    destruct (runPermOps ops a1) as [rs a2]. cbn [fst] in *.
    intros [Hr | Hin]; [| contradiction].
    apply H2 in Hr. congruence.
  - revert a. induction ops as [| op ops IH]; intros a Hadm;
      [split; [reflexivity | constructor] |].
    cbn [runPermOps].
    assert (E : runPermOp op a = (inl NotAdministrator, a)).
    { destruct op as [u p | u p]; unfold runPermOp, assignPermission,
        revokePermission; now rewrite Hadm. }
    rewrite E. destruct (IH a Hadm) as [H1 H2].
    destruct (runPermOps ops a) as [rs a2]. cbn [fst snd] in *.
    split; [exact H1 | now constructor].
Qed.

(** The signed-in administrator revokes the admin permission from the own
    record and goes on administering. *)
Lemma permission_guard_reads_session_witness :
  hasPermission
    (snd (runPermOps [OpRevoke "EMP001" "admin"; OpAssign "EMP003" "admin"]
            authCeo))
    "admin" (Some "EMP001"%string) = false
  /\ fst (runPermOps [OpRevoke "EMP001" "admin"; OpAssign "EMP003" "admin"]
            authCeo)
     = [inr true; inr true]
  /\ ~ In (inl NotAdministrator)
         (fst (runPermOps [OpRevoke "EMP001" "admin"; OpAssign "EMP003" "admin"]
                 authCeo)).
Proof.
  split; [reflexivity |]. split; [reflexivity |].
  apply (permission_guard_reads_session
           [OpRevoke "EMP001" "admin"; OpAssign "EMP003" "admin"] authCeo).
  reflexivity.
Defined.

Lemma hasPermission_admin (a : Auth) (userId : option string) (p : string) :
  hasPermission a "admin" userId = true -> hasPermission a p userId = true.
Proof.
  unfold hasPermission. destruct (subject a userId) as [u |]; [| discriminate].
  destruct (permissions u) as [ps |]; [| discriminate].
  destruct (includes "admin" ps); [reflexivity | discriminate].
Qed.

(** X21. The admin permission overrides every other: the users for whom
    [hasAllPermissions] answers true on every list are exactly those for
    whom [hasPermission("admin")] does, and for them [hasAnyPermission]
    answers true on every list but the empty one.  When the user asked
    about does not exist (or nobody is signed in), [hasAnyPermission]
    answers false on every list and [hasAllPermissions] answers true on
    the empty list only. *)
Theorem admin_permission_overrides (a : Auth) (userId : option string) :
  (hasPermission a "admin" userId = true
   <-> forall l, hasAllPermissions a l userId = true)
  /\ (hasPermission a "admin" userId = true ->
      forall l, hasAnyPermission a l userId = true <-> l <> [])
  /\ (subject a userId = None ->
      forall l,
        hasAnyPermission a l userId = false
        /\ (hasAllPermissions a l userId = true <-> l = [])).
Proof.
  split; [| split].
  - split.
    + intros H l. unfold hasAllPermissions. apply forallb_forall.
      intros p _. now apply hasPermission_admin.
    + intros H. specialize (H ["admin"%string]).
      unfold hasAllPermissions in H. simpl in H.
      now rewrite andb_true_r in H.
  - intros H l. unfold hasAnyPermission. destruct l as [| p l]; simpl.
    + split; [discriminate | congruence].
    + rewrite (hasPermission_admin a userId p H). split; [discriminate |].
      reflexivity.
  - intros Hs l.
    assert (Hno : forall p, hasPermission a p userId = false)
      by (intros p; unfold hasPermission; now rewrite Hs).
    split.
    + unfold hasAnyPermission. induction l as [| p l IH]; simpl;
        [reflexivity |]. now rewrite Hno.
    + unfold hasAllPermissions. destruct l as [| p l]; simpl.
      * tauto.
      * rewrite Hno. split; discriminate.
Qed.

(** ** Progress updates in general *)

(** X22. [updateTaskProgress(taskId, progress, actualHours)] on a stored
    task returns the record it stores.  The progress stored is the argument
    clamped into 0..100 and the hours are replaced when given.  The argument
    100 completes a task that was not completed and sets the completion
    time; a positive argument other than 100 moves a PENDING task to
    IN_PROGRESS; in every other case the status is left alone, so a
    COMPLETED task stays completed even when its progress is lowered.  The
    sweep may turn a status that is not COMPLETED or CANCELLED into OVERDUE. *)
Theorem updateTaskProgress_sets env (st : TM) (taskId p : Z)
    (hours : option Z) (t : Task) :
  getTask (tasks st) taskId = Some t ->
  exists r st',
    updateTaskProgress env taskId p hours st = (Return r, st')
    /\ getTask (tasks st') taskId = Some r
    /\ progress r = clamp p /\ 0 <= progress r <= 100
    /\ actualHours r = orElse hours (actualHours t)
    /\ (p = 100 -> status t <> COMPLETED ->
        status r = COMPLETED /\ completedAt r = Some (now env))
    /\ (0 < p -> p <> 100 -> status t = PENDING ->
        (status r = IN_PROGRESS \/ status r = OVERDUE)
        /\ completedAt r = completedAt t)
    /\ (status t = COMPLETED \/ (p <> 100 /\ (p <= 0 \/ status t <> PENDING)) ->
        (status r = status t \/ status r = OVERDUE)
        /\ completedAt r = completedAt t
        /\ taskNotifications st' = taskNotifications st)
    /\ (status t = COMPLETED -> status r = COMPLETED).
Proof.
  intros Hg. unfold updateTaskProgress, bind at 1, getTasks. rewrite Hg.
  match goal with
  | |- context [updateTask env taskId ?u st] => set (u0 := u)
  end.
  destruct (updateTask_stored env taskId u0 st t Hg eq_refl eq_refl)
    as (ts' & -> & _ & Hget).
  eexists. eexists. split; [reflexivity |]. cbn [tasks taskNotifications].
  split; [rewrite Hget, Z.eqb_refl; reflexivity |].
  rewrite sweep1_progress, sweep1_completedAt.
  assert (Hact : forall x, actualHours (sweep1 (now env) x) = actualHours x)
    by (intros x; unfold sweep1; now destruct (isLate _ _)).
  rewrite Hact.
  assert (Hclamp : 0 <= clamp p <= 100) by (unfold clamp; lia).
  unfold updateNotes, updatedRecord, u0. cbn [u_status u_assignedTo].
  destruct ((p =? 100) && negb (Status_eqb (status t) COMPLETED)) eqn:E1.
  - apply andb_prop in E1. destruct E1 as [Ep Es].
    apply Z.eqb_eq in Ep. apply negb_true_iff in Es.
    assert (Hs : status t <> COMPLETED) by now apply Status_eqb_neq.
    assert ((Status_eqb COMPLETED (status t)) = false) as ->
      by (apply Status_eqb_neq; congruence).
    rewrite Status_eqb_refl. cbn. subst p.
    split; [reflexivity |]. split; [lia |]. split; [reflexivity |].
    split.
    { intros _ _. split; [| reflexivity]. now apply sweep1_completed. }
    split; [intros _ H; congruence |].
    split; [intros [H | [H _]]; congruence |].
    intros H. contradiction.
  - assert (Hnot : p = 100 -> status t = COMPLETED).
    { intros ->. simpl in E1. apply negb_false_iff in E1.
      now apply Status_eqb_eq. }
    destruct ((0 <? p) && Status_eqb (status t) PENDING) eqn:E2.
    + apply andb_prop in E2. destruct E2 as [Ep Es].
      apply Status_eqb_eq in Es. apply Z.ltb_lt in Ep. rewrite Es. cbn.
      split; [reflexivity |]. split; [exact Hclamp |].
      split; [reflexivity |].
      split; [intros Hp _; apply Hnot in Hp; congruence |].
      split.
      { intros _ _ _. split; [| reflexivity].
        match goal with
        | |- status (sweep1 ?n ?x) = _ \/ _ =>
            destruct (sweep1_status n x) as [E | E]; rewrite E;
              [now left | now right]
        end. }
      split; [intros [H | [_ [H | H]]]; [congruence | lia | congruence] |].
      intros H. congruence.
    + cbn. rewrite app_nil_r.
      split; [reflexivity |]. split; [exact Hclamp |].
      split; [reflexivity |].
      split; [intros Hp Hs; apply Hnot in Hp; contradiction |].
      split.
      { intros Hp _ Hs. rewrite Hs in E2.
        assert ((0 <? p) = true) as E by now apply Z.ltb_lt.
        rewrite E in E2. discriminate. }
      split.
      { intros _. split; [| split; reflexivity].
        match goal with
        | |- status (sweep1 ?n ?x) = _ \/ _ =>
            destruct (sweep1_status n x) as [E | E]; rewrite E;
              [now left | now right]
        end. }
      intros Hs. apply sweep1_completed. exact Hs.
Qed.

(** Task 1 of [storeOne] is PENDING; progress 40 moves it to IN_PROGRESS. *)
Lemma updateTaskProgress_sets_witness :
  exists r st',
    updateTaskProgress env0 1 40 None storeOne = (Return r, st')
    /\ progress r = 40 /\ status r = IN_PROGRESS.
Proof.
  destruct (updateTaskProgress_sets env0 storeOne 1 40 None blankTask eq_refl)
    as (r & st' & E & _ & Hp & _).
  exists r, st'. split; [exact E |]. split; [exact Hp |].
  vm_compute in E. injection E as <- _. reflexivity.
Defined.
